(** * smpcc runtime: the Yao generator VM and the GMW commodity server

    A shallow embedding of

    - [runtime/gc/yao/gen/gen.go]: the generator side of the two-party
      garbled-circuit engine (free XOR, point-and-permute);
    - [runtime/gmw/commodity.go]: the commodity server and its clients,
      which produce multiplication triples and mask triples.

    Bytes are integers in [0, 256); Go's [int] is a 64-bit integer whose
    overflow is written out with [int_wrap]; slices are lists.  A run-time
    panic is an outcome of its own and keeps the state reached so far, so
    that the IO performed before the panic stays visible. *)

From Stdlib Require Import ZArith List Lia String.
From stdpp Require Import base tactics option list numbers.
Import ListNotations.
Local Open Scope Z_scope.

(* ===================================================================== *)
(** * Part I: definitions                                                 *)
(* ===================================================================== *)

(** ** Data *)

Abbreviation byte := Z (only parsing).
Abbreviation Key := (list Z) (only parsing).
Abbreviation Wire := (list (list Z)) (only parsing).
Abbreviation Ciphertext := (list Z) (only parsing).
Abbreviation GarbledTable := (list (list Z)) (only parsing).

(** [KEY_SIZE = aes.BlockSize] *)
Definition KEY_SIZE : nat := 16.

(** Go's [int] on a 64-bit platform: two's complement wrap-around. *)
Definition int_wrap (z : Z) : Z := (z + 2 ^ 63) mod 2 ^ 64 - 2 ^ 63.

(** [make([]T, n)]: a zeroed slice; a negative length panics. *)
Definition make {A} (zero : A) (n : Z) : option (list A) :=
  if n <? 0 then None else Some (replicate (Z.to_nat n) zero).

(** [s[i]] with an [int] index: out of range panics. *)
Definition at_int {A} (s : list A) (i : Z) : option A :=
  if i <? 0 then None else s !! Z.to_nat i.

(** [s[lo:hi]]: panics unless [0 <= lo <= hi <= len(s)] (the slices of the
    source are never re-sliced beyond their length). *)
Definition slice {A} (s : list A) (lo hi : Z) : option (list A) :=
  if (0 <=? lo) && (lo <=? hi) && (hi <=? Z.of_nat (length s))
  then Some (take (Z.to_nat (hi - lo)) (drop (Z.to_nat lo) s))
  else None.

(** The least significant bit of byte 0 of a key: the point-and-permute bit.
    [None] when the key is empty ([key[0]] panics). *)
Definition lsb (k : Key) : option Z :=
  b ← k !! 0%nat; Some (b mod 2).

(** Modelled from the spec: [gc.XorKey], [ot.XorBytes] and [AndBytes] are
    not in the source tree; they are "the obvious byte-parallel operations;
    all require equal lengths and fail fast otherwise". *)
Definition XorBytes (a b : list Z) : option (list Z) :=
  if decide (length a = length b) then Some (zip_with Z.lxor a b) else None.

Definition AndBytes (a b : list Z) : option (list Z) :=
  if decide (length a = length b) then Some (zip_with Z.land a b) else None.

Definition XorKey (a b : Key) : option Key := XorBytes a b.

(** Modelled from the spec: [bit.GetBit] is not in the source tree; the
    bit-packed buffers use "little-endian bit indexing": bit [i] is bit
    [i mod 8] of byte [i / 8]; the byte index is bounds-checked. *)
Definition GetBit (s : list Z) (i : Z) : option Z :=
  b ← at_int s (Z.quot i 8);
  Some (if Z.testbit b (Z.rem i 8) then 1 else 0).

(** ** Outcomes and the state-and-panic monad *)

Inductive outcome (S A : Type) : Type :=
| Done (a : A) (s : S)          (* returned normally *)
| Panic (msg : string) (s : S)  (* a Go panic; [s] is the state reached *)
| Blocked (s : S).              (* a receive on an empty channel *)
Arguments Done {S A} a s.
Arguments Panic {S A} msg s.
Arguments Blocked {S A} s.

Definition M (S A : Type) : Type := S -> outcome S A.

Definition ret {S A} (a : A) : M S A := fun s => Done a s.

Definition bind {S A B} (m : M S A) (k : A -> M S B) : M S B :=
  fun s =>
    match m s with
    | Done a s' => k a s'
    | Panic msg s' => Panic msg s'
    | Blocked s' => Blocked s'
    end.

Definition panic {S A} (msg : string) : M S A := fun s => Panic msg s.

Notation "'let*' x := m 'in' k" := (bind m (fun x => k))
  (at level 10, x name, m at level 100, k at level 200).

(** A run-time panic of a pure helper ([None]) becomes a panic of the run. *)
Definition lift {S A} (msg : string) (o : option A) : M S A :=
  match o with
  | Some a => ret a
  | None => panic msg
  end.

Definition index {S A} (l : list A) (i : nat) : M S A :=
  lift "index out of range" (l !! i).

(** [for i := from; i < from + n; i++ { result[i] = body(i) }] *)
Fixpoint for_range {S A} (n : nat) (from : nat) (body : nat -> M S A)
  : M S (list A) :=
  match n with
  | O => ret []
  | Datatypes.S n' =>
      let* x := body from in
      let* xs := for_range n' (Datatypes.S from) body in
      ret (x :: xs)
  end.

(** The state an outcome ends in. *)
Definition final {S A} (o : outcome S A) : S :=
  match o with
  | Done _ s => s
  | Panic _ s => s
  | Blocked s => s
  end.

(** ** The generator: [runtime/gc/yao/gen/gen.go] *)

(** The random source behind [gc.GenKey]: a tape of bytes and a cursor. *)
Record RNG : Type := mkRNG { tape : nat -> Z; cursor : nat }.

(** Modelled from the spec: [gc.GenKey(out)] "fills [out] with
    cryptographic random bytes"; here the next [n] bytes of the tape. *)
Definition rng_read (n : nat) (r : RNG) : list Z * RNG :=
  (map (tape r) (seq (cursor r) n), mkRNG (tape r) (cursor r + n)%nat).

(** What the generator does on its channels ([basegen.IO]). *)
Inductive Event : Type :=
| EvSendT (t : GarbledTable)
| EvSendK (k : Key)
| EvSend (m0 m1 : list Z)
| EvRecvK2 (k : Key).

(** The package-level variables [key0], [const0], [const1], the random
    source, the IO performed so far (oldest first) and the keys the
    evaluator has sent back on [Kchan2] and that are not yet received. *)
Record World : Type := mkWorld {
  key0 : option Key;
  const0 : option Wire;
  const1 : option Wire;
  rng : RNG;
  trace : list Event;
  inbox : list Key
}.

Definition add_event (e : Event) (w : World) : World :=
  mkWorld (key0 w) (const0 w) (const1 w) (rng w) (trace w ++ [e]) (inbox w).

Definition emit (e : Event) : M World unit :=
  fun w => Done tt (add_event e w).

Definition SendT (t : GarbledTable) : M World unit := emit (EvSendT t).
Definition SendK (k : Key) : M World unit := emit (EvSendK k).
Definition Send (m0 m1 : list Z) : M World unit := emit (EvSend m0 m1).

Definition RecvK2 : M World Key :=
  fun w =>
    match inbox w with
    | [] => Blocked w
    | k :: rest =>
        Done k (mkWorld (key0 w) (const0 w) (const1 w) (rng w)
                        (trace w ++ [EvRecvK2 k]) rest)
    end.

Definition GenKey (n : nat) : M World (list Z) :=
  fun w =>
    let (out, r) := rng_read n (rng w) in
    Done out (mkWorld (key0 w) (const0 w) (const1 w) r (trace w) (inbox w)).

Fixpoint slot_from (result : Z) (keys : list Key) : option Z :=
  match keys with
  | [] => Some result
  | key :: rest =>
      b ← lsb key;
      slot_from (int_wrap (int_wrap (result * 2) + b)) rest
  end.

Definition slot (keys : list Key) : option Z := slot_from 0 keys.

Section Cipher.

(** [gc.Encrypt] and [gc.Decrypt] are not in the source tree: single-block
    encryption under a key. *)
Variable gc_Encrypt gc_Decrypt : Key -> list Z -> list Z.

Definition encrypt (keys : list Key) (result : list Z) : list Z :=
  fold_left (fun result key => gc_Encrypt key result) keys result.

(** The loop runs from the last key down to the first. *)
Definition decrypt (keys : list Key) (ciphertext : list Z) : list Z :=
  fold_left (fun result key => gc_Decrypt key result) (rev keys) ciphertext.

(** [t[slot(keys)] = encrypt(keys, plaintext)]: the table after the write. *)
Definition encrypt_slot (t : GarbledTable) (plaintext : list Z)
    (keys : list Key) : option GarbledTable :=
  s ← slot keys;
  _ ← at_int t s;
  Some (<[Z.to_nat s := encrypt keys plaintext]> t).

Definition Decrypt (t : GarbledTable) (keys : list Key) : option (list Z) :=
  s ← slot keys;
  c ← at_int t s;
  Some (decrypt keys c).

Definition init_key0 : M World unit :=
  fun w =>
    match key0 w with
    | Some _ => Done tt w
    | None =>
        let (k, r) := rng_read KEY_SIZE (rng w) in
        match k !! 0%nat with
        | Some b0 =>
            Done tt (mkWorld (Some (<[0%nat := Z.lor b0 1]> k))
                             (const0 w) (const1 w) r (trace w) (inbox w))
        | None => Panic "index out of range" w
        end
    end.

Definition genWire : M World Wire :=
  let* _ := init_key0 in
  let* k0 := GenKey KEY_SIZE in
  fun w =>
    match key0 w with
    | Some d => lift "XorKey: mismatch" (k1 ← XorKey k0 d; Some [k0; k1]) w
    | None => Panic "nil key0" w
    end.

Definition init_constants : M World unit :=
  fun w =>
    match const0 w with
    | Some _ => Done tt w
    | None =>
        (let* c0 := genWire in
         let* c1 := genWire in
         let* _ := (fun w' => Done tt (mkWorld (key0 w') (Some c0) (Some c1)
                                         (rng w') (trace w') (inbox w'))) in
         let* k := index c0 0 in
         let* _ := SendK k in
         let* k := index c1 1 in
         SendK k) w
    end.

Definition reset : M World unit :=
  fun w => Done tt (mkWorld None None None (rng w) (trace w) (inbox w)).

Definition genWires (size : Z) : M World (list Wire) :=
  if size <=? 0 then panic "genWires with request <= 0"
  else for_range (Z.to_nat size) 0 (fun _ => genWire).

(** One row of a gate table: [encrypt_slot(t, w[o], a[x], b[y])]. *)
Definition row2 (t : GarbledTable) (w a b : Wire) (o x y : nat)
  : M World GarbledTable :=
  let* p := index w o in
  let* ka := index a x in
  let* kb := index b y in
  lift "index out of range" (encrypt_slot t p [ka; kb]).

Definition vm_And (a b : list Wire) : M World (list Wire) :=
  if negb (length a =? length b)%nat then panic "Wire mismatch in gen.And()"
  else
    for_range (length a) 0 (fun i =>
      let* ai := index a i in
      let* bi := index b i in
      let* w := genWire in
      let t := replicate 4 [] in
      let* t := row2 t w ai bi 0 0 0 in
      let* t := row2 t w ai bi 0 0 1 in
      let* t := row2 t w ai bi 0 1 0 in
      let* t := row2 t w ai bi 1 1 1 in
      let* _ := SendT t in
      ret w).

Definition vm_Or (a b : list Wire) : M World (list Wire) :=
  if negb (length a =? length b)%nat then panic "Wire mismatch in gen.Or()"
  else
    for_range (length a) 0 (fun i =>
      let* ai := index a i in
      let* bi := index b i in
      let* w := genWire in
      let t := replicate 4 [] in
      let* t := row2 t w ai bi 0 0 0 in
      let* t := row2 t w ai bi 1 0 1 in
      let* t := row2 t w ai bi 1 1 0 in
      let* t := row2 t w ai bi 1 1 1 in
      let* _ := SendT t in
      ret w).

Definition vm_Xor (a b : list Wire) : M World (list Wire) :=
  if negb (length a =? length b)%nat then panic "Xor(): mismatch"
  else
    for_range (length a) 0 (fun i =>
      let* ai := index a i in
      let* bi := index b i in
      let* a0 := index ai 0 in
      let* b0 := index bi 0 in
      let* k0 := lift "XorKey: mismatch" (XorKey a0 b0) in
      let* b1 := index bi 1 in
      let* k1 := lift "XorKey: mismatch" (XorKey a0 b1) in
      ret [k0; k1]).

Definition get_const (which : World -> option Wire) : M World Wire :=
  fun w => Done (default [] (which w)) w.

Definition vm_True : M World (list Wire) :=
  let* _ := init_constants in
  let* c := get_const const1 in
  ret [c].

Definition vm_False : M World (list Wire) :=
  let* _ := init_constants in
  let* c := get_const const0 in
  ret [c].

Definition resolveKey (w : Wire) (k : Key) : M World Z :=
  let* w0 := index w 0 in
  if bool_decide (k = w0) then ret 0
  else
    let* w1 := index w 1 in
    if bool_decide (k = w1) then ret 1
    else panic "resolveKey(): key and wire mismatch".

Definition vm_RevealTo0 (a : list Wire) : M World (list bool) :=
  for_range (length a) 0 (fun i =>
    let* ai := index a i in
    let* k := RecvK2 in
    let* bit := resolveKey ai k in
    if bit =? 0 then ret false else ret true).

(** [w[j][0] = v] *)
Definition set_byte0 (w : Wire) (j : nat) (v : Z) : M World Wire :=
  let* k := index w j in
  let* _ := index k 0 in
  ret (<[j := <[0%nat := v]> k]> w).

(** One row of a reveal table: [encrypt_slot(t, w[o], a[o])]. *)
Definition row1 (t : GarbledTable) (w a : Wire) (o : nat)
  : M World GarbledTable :=
  let* p := index w o in
  let* ka := index a o in
  lift "index out of range" (encrypt_slot t p [ka]).

Definition vm_RevealTo1 (a : list Wire) : M World unit :=
  let* _ :=
    for_range (length a) 0 (fun i =>
      let t := replicate 2 [] in
      let* w := genWire in
      let* w := set_byte0 w 0 0 in
      let* w := set_byte0 w 1 1 in
      let* ai := index a i in
      let* t := row1 t w ai 0 in
      let* t := row1 t w ai 1 in
      SendT t) in
  ret tt.

Definition vm_ShareTo0 (bits : Z) : M World (list Wire) :=
  let* a := lift "makeslice: len out of range" (make ([] : Wire) bits) in
  for_range (length a) 0 (fun _ =>
    let* w := genWire in
    let* m0 := index w 0 in
    let* m1 := index w 1 in
    let* _ := Send m0 m1 in
    ret w).

(** [a] is a [uint64]. *)
Definition vm_ShareTo1 (a : Z) (bits : Z) : M World (list Wire) :=
  if 64 <? bits then panic "BT: bits > 64"
  else
    let* result := lift "makeslice: len out of range" (make ([] : Wire) bits) in
    for_range (Z.to_nat bits) 0 (fun i =>
      let* w := genWire in
      let* k := index w (if (Z.shiftr a (Z.of_nat i)) mod 2 =? 0
                         then 0%nat else 1%nat) in
      let* _ := SendK k in
      ret w).

Definition vm_Random (bits : Z) : M World (list Wire) :=
  if bits <? 1 then panic "Random: bits < 1"
  else
    let numBytes := Z.quot bits 8 in
    let numBytes := if negb (Z.rem bits 8 =? 0) then numBytes + 1 else numBytes in
    let* random := GenKey (Z.to_nat numBytes) in
    for_range (Z.to_nat bits) 0 (fun i =>
      let* w := genWire in
      let* g := lift "index out of range" (GetBit random (Z.of_nat i)) in
      let* m0 := index w 0 in
      let* m1 := index w 1 in
      let* _ := (if g =? 0 then Send m0 m1 else Send m1 m0) in
      ret w).

End Cipher.

(** ** Sessions

    A session is a sequence of calls on the VM between two [reset]s.  The
    wire operands of a call are wires returned earlier in the session: they
    are named by their position in the pool of wires returned so far. *)

Inductive Call : Type :=
| CAnd (a b : list nat)
| COr (a b : list nat)
| CXor (a b : list nat)
| CTrue
| CFalse
| CShareTo0 (bits : Z)
| CShareTo1 (a : Z) (bits : Z)
| CRandom (bits : Z)
| CRevealTo0 (a : list nat)
| CRevealTo1 (a : list nat).

Definition fetch (pool : list Wire) (ids : list nat) : M World (list Wire) :=
  lift "unknown wire" (mapM (fun i => pool !! i) ids).

Section Session.

Variable gc_Encrypt : Key -> list Z -> list Z.

(** One call; the wires it returns. *)
Definition call (pool : list Wire) (c : Call) : M World (list Wire) :=
  match c with
  | CAnd a b =>
      let* a := fetch pool a in let* b := fetch pool b in vm_And gc_Encrypt a b
  | COr a b =>
      let* a := fetch pool a in let* b := fetch pool b in vm_Or gc_Encrypt a b
  | CXor a b =>
      let* a := fetch pool a in let* b := fetch pool b in vm_Xor a b
  | CTrue => vm_True
  | CFalse => vm_False
  | CShareTo0 bits => vm_ShareTo0 bits
  | CShareTo1 a bits => vm_ShareTo1 a bits
  | CRandom bits => vm_Random bits
  | CRevealTo0 a =>
      let* a := fetch pool a in let* _ := vm_RevealTo0 a in ret []
  | CRevealTo1 a =>
      let* a := fetch pool a in let* _ := vm_RevealTo1 gc_Encrypt a in ret []
  end.

(** The pool after the calls of [prog]. *)
Fixpoint session (prog : list Call) (pool : list Wire) : M World (list Wire) :=
  match prog with
  | [] => ret pool
  | c :: rest =>
      let* ws := call pool c in
      session rest (pool ++ ws)
  end.

End Session.

(** The state after [reset()]. *)
Definition fresh_world (r : RNG) (keys : list Key) : World :=
  mkWorld None None None r [] keys.

(** A toy single-block cipher used for concrete runs of the generator.  A
    key whose byte 1 is even reverses the block; any other key flips the low
    bit of byte 0 of the block.  Each is its own inverse and keeps the
    length; the two do not commute. *)
Definition toy_cipher (k : Key) (p : list Z) : list Z :=
  if Z.even (default 0 (k !! 1%nat)) then rev p
  else match p with
       | [] => []
       | x :: rest => Z.lxor x 1 :: rest
       end.

(** ** The commodity server and its clients: [runtime/gmw/commodity.go] *)

(** A [cipher.Stream] returned by [ot.NewPRG(seed)]: the key stream the
    seed expands to and the number of bytes already consumed. *)
Record Stream : Type := mkStream { keystream : nat -> Z; consumed : nat }.

(** Modelled from the spec: the stream "exposes [XORKeyStream(dst, src)]
    that XORs pseudorandom bytes into [dst]"; every call in the source has
    [dst = src].  Returns the new contents of the buffer. *)
Definition XORKeyStream (v : Stream) (buf : list Z) : list Z * Stream :=
  (zip_with Z.lxor buf (map (keystream v) (seq (consumed v) (length buf))),
   mkStream (keystream v) (consumed v + length buf)%nat).

(** The three calls [v.XORKeyStream(a, a); v.XORKeyStream(b, b);
    v.XORKeyStream(c, c)] on one stream. *)
Definition xor3 (v : Stream) (abc : list Z * list Z * list Z)
  : (list Z * list Z * list Z) * Stream :=
  let '(a, b, c) := abc in
  let (a, v) := XORKeyStream v a in
  let (b, v) := XORKeyStream v b in
  let (c, v) := XORKeyStream v c in
  ((a, b, c), v).

(** [for _, v := range s.RandomStreams { ... }]: the streams are advanced
    in place. *)
Fixpoint range_streams (streams : list Stream) (abc : list Z * list Z * list Z)
  : (list Z * list Z * list Z) * list Stream :=
  match streams with
  | [] => (abc, [])
  | v :: rest =>
      let (abc, v) := xor3 v abc in
      let (abc, rest) := range_streams rest abc in
      (abc, v :: rest)
  end.

(** [CorrectionCh] holds the messages sent and not yet received, oldest
    first. *)
Record CommodityServerState : Type := mkServer {
  RandomStreams : list Stream;
  CorrectionCh : list (list Z)
}.

Definition use_streams (abc : list Z * list Z * list Z)
  : M CommodityServerState (list Z * list Z * list Z) :=
  fun s =>
    let (abc, streams) := range_streams (RandomStreams s) abc in
    Done abc (mkServer streams (CorrectionCh s)).

(** [s.CorrectionCh <- msg] *)
Definition send_correction (msg : list Z) : M CommodityServerState unit :=
  fun s => Done tt (mkServer (RandomStreams s) (CorrectionCh s ++ [msg])).

(** A loop that threads a value through its iterations:
    [for j := from; j < from + n; j++ { acc = body(j, acc) }]. *)
Fixpoint for_loop {S A} (n : nat) (from : nat) (body : nat -> A -> M S A)
    (acc : A) : M S A :=
  match n with
  | O => ret acc
  | Datatypes.S n' =>
      let* acc := body from acc in
      for_loop n' (Datatypes.S from) body acc
  end.

(** The same, collecting one result per iteration:
    [for i := range result { result[i], acc = body(i, acc) }]. *)
Fixpoint for_acc {S A B} (n : nat) (from : nat)
    (body : nat -> A -> M S (B * A)) (acc : A) : M S (list B) :=
  match n with
  | O => ret []
  | Datatypes.S n' =>
      let* r := body from acc in
      let* rs := for_acc n' (Datatypes.S from) body (snd r) in
      ret (fst r :: rs)
  end.

(** The contents of [s] after a write of [new] through the sub-slice
    [s[lo : lo + len(new)]]. *)
Definition write_at (s : list Z) (lo : Z) (new : list Z) : list Z :=
  take (Z.to_nat lo) s ++ new ++ drop (Z.to_nat lo + length new) s.

(** Modelled from the spec: [ot.XorBytesTo(a, b, dst)] is not in the source
    tree; like [XorBytes] it is byte-parallel, requires equal lengths, and
    stores the result in [dst]. *)
Definition XorBytesTo (a b dst : list Z) : option (list Z) :=
  if decide (length a = length b /\ length a = length dst)
  then Some (zip_with Z.lxor a b) else None.

(** Go's built-in [copy(dst, src)]: the contents of [dst] afterwards. *)
Definition copy (dst src : list Z) : list Z :=
  take (length dst) src ++ drop (length src) dst.

Record Triple : Type := mkTriple { t_a : Z; t_b : Z; t_c : Z }.

Record MaskTriple : Type := mkMaskTriple { m_a : Z; m_B : list Z; m_C : list Z }.

(** The calls a client makes through its [Requester]. *)
Inductive CommodityRequest : Type :=
| RequestTripleCorrection
| RequestMaskTripleCorrection (numTriples numBytesTriple : Z).

(** [ClientCorrectionCh] is the field [CorrectionCh] of the client: [None]
    for [nil], otherwise the messages waiting on the channel.  [Requested]
    records the calls made through [Requester], oldest first. *)
Record CommodityClientState : Type := mkClient {
  RandomStream : Stream;
  ClientCorrectionCh : option (list (list Z));
  Requested : list CommodityRequest
}.

Definition client_xor (buf : list Z) : M CommodityClientState (list Z) :=
  fun s =>
    let (buf, v) := XORKeyStream (RandomStream s) buf in
    Done buf (mkClient v (ClientCorrectionCh s) (Requested s)).

(** [if s.CorrectionCh != nil { request; correction := <-s.CorrectionCh;
    c = ot.XorBytes(c, correction) }] *)
Definition correct (req : CommodityRequest) (c : list Z)
  : M CommodityClientState (list Z) :=
  fun s =>
    match ClientCorrectionCh s with
    | None => Done c s
    | Some [] =>
        Blocked (mkClient (RandomStream s) (Some []) (Requested s ++ [req]))
    | Some (correction :: rest) =>
        lift "XorBytes: mismatch" (XorBytes c correction)
          (mkClient (RandomStream s) (Some rest) (Requested s ++ [req]))
    end.

Section Commodity.

(** [NUM_TRIPLES] and [combine] are not in the source tree. *)
Variable NUM_TRIPLES : Z.
Variable combine : list Z -> Z.

Definition TripleCorrection : M CommodityServerState unit :=
  let numBytes := NUM_TRIPLES * 4 in
  let* a := lift "makeslice: len out of range" (make 0 numBytes) in
  let* b := lift "makeslice: len out of range" (make 0 numBytes) in
  let* c := lift "makeslice: len out of range" (make 0 numBytes) in
  let* abc := use_streams (a, b, c) in
  let '(a, b, c) := abc in
  let* desired := lift "AndBytes: mismatch" (AndBytes a b) in
  let* correction := lift "XorBytes: mismatch" (XorBytes desired c) in
  send_correction correction.

Definition MaskTripleCorrection (numTriples numBytesTriple : Z)
  : M CommodityServerState unit :=
  let* A := lift "makeslice: len out of range" (make 0 (Z.quot numTriples 8)) in
  let* B := lift "makeslice: len out of range"
              (make 0 (int_wrap (numTriples * numBytesTriple))) in
  let* C := lift "makeslice: len out of range"
              (make 0 (int_wrap (numTriples * numBytesTriple))) in
  let* abc := use_streams (A, B, C) in
  let '(A, B, C) := abc in
  let* correction := lift "makeslice: len out of range"
                       (make 0 (int_wrap (numTriples * numBytesTriple))) in
  let* correction :=
    for_loop (Z.to_nat numTriples) 0 (fun j correction =>
      let low := int_wrap (Z.of_nat j * numBytesTriple) in
      let high := int_wrap (low + numBytesTriple) in
      let* g := lift "index out of range" (GetBit A (Z.of_nat j)) in
      if g =? 1 then
        let* Bs := lift "slice bounds out of range" (slice B low high) in
        let* Cs := lift "slice bounds out of range" (slice C low high) in
        let* Ds := lift "slice bounds out of range" (slice correction low high) in
        let* x := lift "XorBytesTo: mismatch" (XorBytesTo Bs Cs Ds) in
        ret (write_at correction low x)
      else
        let* Ds := lift "slice bounds out of range" (slice correction low high) in
        let* Cs := lift "slice bounds out of range" (slice C low high) in
        ret (write_at correction low (copy Ds Cs))) correction in
  send_correction correction.

Definition triple32 : M CommodityClientState (list Triple) :=
  let numBytes := NUM_TRIPLES * 4 in
  let* a := lift "makeslice: len out of range" (make 0 numBytes) in
  let* b := lift "makeslice: len out of range" (make 0 numBytes) in
  let* c := lift "makeslice: len out of range" (make 0 numBytes) in
  let* a := client_xor a in
  let* b := client_xor b in
  let* c := client_xor c in
  let* c := correct RequestTripleCorrection c in
  let* result := lift "makeslice: len out of range"
                   (make (mkTriple 0 0 0) NUM_TRIPLES) in
  for_acc (length result) 0 (fun _ abc =>
    let '(a, b, c) := abc in
    let* a4 := lift "slice bounds out of range" (slice a 0 4) in
    let* b4 := lift "slice bounds out of range" (slice b 0 4) in
    let* c4 := lift "slice bounds out of range" (slice c 0 4) in
    let* a := lift "slice bounds out of range" (slice a 4 (Z.of_nat (length a))) in
    let* b := lift "slice bounds out of range" (slice b 4 (Z.of_nat (length b))) in
    let* c := lift "slice bounds out of range" (slice c 4 (Z.of_nat (length c))) in
    ret (mkTriple (combine a4) (combine b4) (combine c4), (a, b, c))) (a, b, c).

Definition maskTriple (numTriples numBytesTriple : Z)
  : M CommodityClientState (list MaskTriple) :=
  let* a := lift "makeslice: len out of range" (make 0 (Z.quot numTriples 8)) in
  let* b := lift "makeslice: len out of range"
              (make 0 (int_wrap (numTriples * numBytesTriple))) in
  let* c := lift "makeslice: len out of range"
              (make 0 (int_wrap (numTriples * numBytesTriple))) in
  let* a := client_xor a in
  let* b := client_xor b in
  let* c := client_xor c in
  let* c := correct (RequestMaskTripleCorrection numTriples numBytesTriple) c in
  let* result := lift "makeslice: len out of range"
                   (make (mkMaskTriple 0 [] []) numTriples) in
  for_acc (length result) 0 (fun i bc =>
    let '(b, c) := bc in
    let* g := lift "index out of range" (GetBit a (Z.of_nat i)) in
    let* bs := lift "slice bounds out of range" (slice b 0 numBytesTriple) in
    let* cs := lift "slice bounds out of range" (slice c 0 numBytesTriple) in
    let* b := lift "slice bounds out of range"
                (slice b numBytesTriple (Z.of_nat (length b))) in
    let* c := lift "slice bounds out of range"
                (slice c numBytesTriple (Z.of_nat (length c))) in
    ret (mkMaskTriple g bs cs, (b, c))) (b, c).

End Commodity.

(** A little-endian [combine], used for concrete runs. *)
Definition combine_le (bs : list Z) : Z :=
  fold_right (fun b acc => Z.lor (Z.land b 255) (Z.shiftl acc 8)) 0 bs.

(** Where bit [n] of [combine_le] comes from: the byte and the bit in it. *)
Definition combine_le_src (n : Z) : nat * Z := (Z.to_nat (n / 8), n mod 8).

(** ** Sessions of the commodity model

    The server holds one stream per party; party [i] holds the same stream
    (the seed it received); the first party is the designated one and reads
    the server's [CorrectionCh]. *)

Definition clients_of (ch : list (list Z)) (streams : list Stream)
  : list CommodityClientState :=
  match streams with
  | [] => []
  | v :: rest => mkClient v (Some ch) [] :: map (fun v => mkClient v None []) rest
  end.

(** The run of a party returns no batch: it panics, or it waits on an
    empty correction channel. *)
Definition stops {A} (o : outcome CommodityClientState A)
    (ch : option (list (list Z))) : Prop :=
  match o with
  | Done _ _ => False
  | Panic _ _ => True
  | Blocked _ => ch = Some []
  end.

(** XOR of the words of all parties. *)
Definition xor_all (l : list Z) : Z := fold_right Z.lxor 0 l.

(** XOR of the byte strings, of length [n], of all parties. *)
Definition xor_strings (n : nat) (l : list (list Z)) : list Z :=
  fold_right (zip_with Z.lxor) (replicate n 0) l.

(** Field [f] of entry [k] of the batch of every party. *)
Definition column {T A} (dflt : T) (f : T -> A) (k : nat) (shares : list (list T))
  : list A :=
  map (fun ts => f (nth k ts dflt)) shares.

(** The bytes [off .. off + n) of what is left of a stream. *)
Definition block (v : Stream) (off n : nat) : list Z :=
  map (keystream v) (seq (consumed v + off) n).

(** Bytes [4k .. 4k + 4) of a buffer, and bytes [k*L .. (k+1)*L). *)
Definition chunk (L k : nat) (l : list Z) : list Z := take L (drop (k * L) l).

(** ** Shapes of the data model *)

(** A key is a byte string of length [KEY_SIZE]. *)
Definition is_key (k : Key) : Prop := length k = KEY_SIZE.

(** A wire is an ordered pair of keys. *)
Definition is_wire (w : Wire) : Prop :=
  match w with
  | [k0; k1] => is_key k0 /\ is_key k1
  | _ => False
  end.

(** The free-XOR relation of a wire to the offset [d]: [k1 = k0 XOR d]. *)
Definition free_xor (d : Key) (w : Wire) : Prop :=
  match w with
  | [k0; k1] => is_key k0 /\ XorKey k0 d = Some k1
  | _ => False
  end.

(** Point-and-permute: the two labels of a wire differ in their low bit. *)
Definition pp_distinct (w : Wire) : Prop :=
  match w with
  | [k0; k1] => exists b0 b1, lsb k0 = Some b0 /\ lsb k1 = Some b1 /\ b0 <> b1
  | _ => False
  end.

(** A wire of the session: [key0] is set, its low bit is 1, and the wire
    is in free-XOR relation to it. *)
Definition delta_ok (w : World) (wire : Wire) : Prop :=
  exists d, key0 w = Some d /\ lsb d = Some 1 /\ free_xor d wire.

(** The package-level variables are consistent: [key0], once set, is a key
    with low bit 1; the constant wires, once set, are both set and are
    wires of the session. *)
Definition world_ok (w : World) : Prop :=
  (forall d, key0 w = Some d -> is_key d /\ lsb d = Some 1) /\
  (forall c, const0 w = Some c ->
     delta_ok w c /\ exists c1, const1 w = Some c1 /\ delta_ok w c1).

(** [w'] is a later state of the session of [w]: the offset is kept, the
    random tape is the same and only read further, and the IO trace only
    grows. *)
Definition later (w w' : World) : Prop :=
  (forall d, key0 w = Some d -> key0 w' = Some d) /\
  tape (rng w') = tape (rng w) /\
  (cursor (rng w) <= cursor (rng w'))%nat /\
  exists ext, trace w' = trace w ++ ext.

(** ** Gate tables *)

Inductive gate : Type := GAnd | GOr.

Definition truth (g : gate) (x y : bool) : bool :=
  match g with
  | GAnd => x && y
  | GOr => x || y
  end.

Section Gates.

Variable gc_Encrypt : Key -> list Z -> list Z.

Definition vm_gate (g : gate) : list Wire -> list Wire -> M World (list Wire) :=
  match g with
  | GAnd => vm_And gc_Encrypt
  | GOr => vm_Or gc_Encrypt
  end.

(** The loop body shared by [And] and [Or]: the rows are written in the
    order 00, 01, 10, 11 of the input bits, with the output label the truth
    table gives. *)
Definition gate_body (g : gate) (a b : list Wire) (i : nat) : M World Wire :=
  let* ai := index a i in
  let* bi := index b i in
  let* w := genWire in
  let t := replicate 4 [] in
  let* t := row2 gc_Encrypt t w ai bi (Nat.b2n (truth g false false)) 0 0 in
  let* t := row2 gc_Encrypt t w ai bi (Nat.b2n (truth g false true)) 0 1 in
  let* t := row2 gc_Encrypt t w ai bi (Nat.b2n (truth g true false)) 1 0 in
  let* t := row2 gc_Encrypt t w ai bi (Nat.b2n (truth g true true)) 1 1 in
  let* _ := SendT t in
  ret w.

(** The table [t] of a gate with input wires [ai], [bi] and output wire
    [wi]: it has four slots; the row of the input bits [(x, y)] is at the
    slot of the two low bits of its labels and is the output label of
    [truth g x y] encrypted under the label of [ai] first and under the
    label of [bi] second; different rows are at different slots. *)
Definition table_ok (g : gate) (ai bi wi : Wire) (t : GarbledTable) : Prop :=
  length t = 4%nat /\
  (forall x y : bool, exists ka kb p s,
      ai !! Nat.b2n x = Some ka /\ bi !! Nat.b2n y = Some kb /\
      wi !! Nat.b2n (truth g x y) = Some p /\
      slot [ka; kb] = Some s /\
      at_int t s = Some (gc_Encrypt kb (gc_Encrypt ka p))) /\
  (forall x y x' y' ka kb ka' kb',
      ai !! Nat.b2n x = Some ka -> bi !! Nat.b2n y = Some kb ->
      ai !! Nat.b2n x' = Some ka' -> bi !! Nat.b2n y' = Some kb' ->
      slot [ka; kb] = slot [ka'; kb'] -> x = x' /\ y = y').

End Gates.

(** The key [k0] of the wire was read from the random tape during the run
    from [w] to [w']. *)
Definition fresh_in (w w' : World) (wire : Wire) : Prop :=
  exists pos,
    (cursor (rng w) <= pos)%nat /\ (pos + KEY_SIZE <= cursor (rng w'))%nat /\
    wire !! 0%nat = Some (map (tape (rng w)) (seq pos KEY_SIZE)).

(** The reveal table [t] for the wire [ai], built during the run from [w]
    to [w']: it has two slots; there is a wire [wi] from [genWire] such that
    for each value [v] the slot at the low bit of the label [ai[v]] holds
    the label [wi[v]] with its byte 0 overwritten by [v], encrypted under
    [ai[v]], and [Decrypt] with that one label gives it back. *)
Definition reveal_ok (Enc Dec : Key -> list Z -> list Z) (w w' : World)
    (ai : Wire) (t : GarbledTable) : Prop :=
  length t = 2%nat /\
  exists wi, is_wire wi /\ fresh_in w w' wi /\ delta_ok w' wi /\
    forall v : bool, exists kv lv kw,
      ai !! Nat.b2n v = Some kv /\ lsb kv = Some lv /\
      wi !! Nat.b2n v = Some kw /\
      at_int t lv = Some (Enc kv (<[0%nat := Z.b2z v]> kw)) /\
      Decrypt Dec t [kv] = Some (<[0%nat := Z.b2z v]> kw) /\
      (<[0%nat := Z.b2z v]> kw) !! 0%nat = Some (Z.b2z v).

(** ** Vocabulary of the statements and of their proofs *)

(** What [Xor] puts at index [i]. *)
Definition xor_wire (a b : list Wire) (i : nat) : Wire :=
  match a !! i, b !! i with
  | Some (a0 :: _), Some (b0 :: b1 :: _) =>
      [zip_with Z.lxor a0 b0; zip_with Z.lxor a0 b1]
  | _, _ => []
  end.

(** A loop body that returns a wire of the session. *)
Definition gen_step (body : M World Wire) : Prop :=
  forall s r s', world_ok s -> body s = Done r s' ->
    world_ok s' /\ later s s' /\ delta_ok s' r.

(** The state after the receipt of [k]. *)
Definition received (k : Key) (rest : list Key) (s : World) : World :=
  mkWorld (key0 s) (const0 s) (const1 s) (rng s) (trace s ++ [EvRecvK2 k]) rest.

(** A computation that neither waits nor changes the state. *)
Definition pure_step {S A} (m : M S A) : Prop :=
  forall s, (exists x, m s = Done x s) \/ (exists msg, m s = Panic msg s).

(** The buffers after the loop over all streams. *)
Definition xor_blocks (init : list Z) (blocks : list (list Z)) : list Z :=
  fold_left (zip_with Z.lxor) blocks init.

(** The buffers of the server after the loop over the streams: the XOR of
    the buffers of all parties. *)
Definition server_sums (streams : list Stream) (n : nat)
  : list Z * list Z * list Z :=
  (xor_blocks (replicate n 0) (map (fun v => block v 0 n) streams),
   xor_blocks (replicate n 0) (map (fun v => block v n n) streams),
   xor_blocks (replicate n 0) (map (fun v => block v (2 * n) n) streams)).

Definition triple_correction_of (streams : list Stream) (n : nat) : list Z :=
  let '(A, B, C) := server_sums streams n in
  zip_with Z.lxor (zip_with Z.land A B) C.

(** The designated party with the correction waiting, or any other
    party. *)
Definition correction_for (ch : option (list (list Z))) : option (list Z) :=
  match ch with
  | Some (x :: _) => Some x
  | _ => None
  end.

(** The buffers of a party: its share of the stream, with the correction
    XORed into [c] for the designated party. *)
Definition party_bufs (correction : option (list Z)) (n : nat) (v : Stream)
  : list Z * list Z * list Z :=
  (block v 0 n, block v n n,
   match correction with
   | Some x => zip_with Z.lxor (block v (2 * n) n) x
   | None => block v (2 * n) n
   end).

(** The batch a party gets from the buffers [a], [b], [c]. *)
Definition party_triples (combine : list Z -> Z) (N : nat)
    (abc : list Z * list Z * list Z) : list Triple :=
  let '(a, b, c) := abc in
  map (fun k => mkTriple (combine (chunk 4 k a)) (combine (chunk 4 k b))
                         (combine (chunk 4 k c))) (seq 0 N).

(** The state of a party after a batch that took [m] bytes of its
    stream. *)
Definition client_after (req : CommodityRequest) (ch : option (list (list Z)))
    (v : Stream) (m : nat) : CommodityClientState :=
  mkClient (mkStream (keystream v) (consumed v + m))
           (match ch with Some (_ :: rest) => Some rest | other => other end)
           (match ch with Some _ => [req] | None => [] end).

(** Bit [j] of a bit vector, as a byte. *)
Definition bit_of (l : list Z) (j : nat) : Z :=
  if Z.testbit (nth (j / 8) l 0) (Z.of_nat (j mod 8)) then 1 else 0.

(** What the server writes for the mask triple [j]. *)
Definition mask_expected (L : nat) (A B C : list Z) (j : nat) : list Z :=
  if bit_of A j =? 1 then zip_with Z.lxor (chunk L j B) (chunk L j C)
  else chunk L j C.

(** The buffers of the server for a batch of mask triples. *)
Definition mask_sums (streams : list Stream) (la m : nat)
  : list Z * list Z * list Z :=
  (xor_blocks (replicate la 0) (map (fun v => block v 0 la) streams),
   xor_blocks (replicate m 0) (map (fun v => block v la m) streams),
   xor_blocks (replicate m 0) (map (fun v => block v (la + m) m) streams)).

(** The buffers of a party for a batch of mask triples. *)
Definition mask_bufs (correction : option (list Z)) (la m : nat) (v : Stream)
  : list Z * list Z * list Z :=
  (block v 0 la, block v la m,
   match correction with
   | Some x => zip_with Z.lxor (block v (la + m) m) x
   | None => block v (la + m) m
   end).

(** The batch a party gets from the buffers [a], [b], [c]. *)
Definition party_masks (N Ln : nat) (abc : list Z * list Z * list Z)
  : list MaskTriple :=
  let '(a, b, c) := abc in
  map (fun k => mkMaskTriple (bit_of a k) (chunk Ln k b) (chunk Ln k c)) (seq 0 N).

(** ** Concrete inputs for the examples *)

(** Three parties' key streams. *)
Definition stream_of (i : Z) : Stream :=
  mkStream (fun n => (Z.of_nat n * (2 * i + 3) + 5 * i + 1) mod 256) 0.
Definition streams0 : list Stream := [stream_of 0; stream_of 1; stream_of 2].

Definition tape0 (n : nat) : Z := (Z.of_nat n * 37 + 11) mod 256.
Definition rng0 : RNG := mkRNG tape0 0.

(** A session: two input wires of the evaluator, the constant 1, an AND, a
    free XOR, a random bit, three input bits of the generator, an OR, the
    constant 0, and a reveal to the evaluator. *)
Definition prog0 : list Call :=
  [CShareTo0 2; CTrue; CAnd [0%nat] [1%nat]; CXor [0%nat; 1%nat] [3%nat; 2%nat];
   CRandom 1; CShareTo1 5 3; COr [4%nat] [6%nat]; CFalse; CRevealTo1 [10%nat]].


Definition key_a : Key := [2; 0; 3; 4; 5; 6; 7; 8; 9; 10; 11; 12; 13; 14; 15; 16].
Definition key_b : Key := [7; 1; 3; 4; 5; 6; 7; 8; 9; 10; 11; 12; 13; 14; 15; 16].
Definition block_p : list Z := [1; 2; 3; 4; 5; 6; 7; 8; 9; 10; 11; 12; 13; 14; 15; 16].

(** Labels with the other low bit, and a label with the low bit of [key_a]
    that the toy cipher treats like [key_b]. *)
Definition key_a' : Key := [3; 0; 3; 4; 5; 6; 7; 8; 9; 10; 11; 12; 13; 14; 15; 16].
Definition key_b' : Key := [6; 1; 3; 4; 5; 6; 7; 8; 9; 10; 11; 12; 13; 14; 15; 16].
Definition key_c : Key := [4; 1; 3; 4; 5; 6; 7; 8; 9; 10; 11; 12; 13; 14; 15; 16].

Definition wire_a : Wire := [key_a; key_a'].
Definition wire_b : Wire := [key_b; key_b'].

(** Two wires whose labels have the same low bit. *)
Definition wire_same_bit : Wire := [key_a; key_c].
Definition wire_same_key : Wire := [key_a; key_a].

(** ** More vocabulary: the IO of a loop, selector bits, labels *)

(** The state after the events [evs]. *)
Definition add_events (evs : list Event) (w : World) : World :=
  mkWorld (key0 w) (const0 w) (const1 w) (rng w) (trace w ++ evs) (inbox w).

(** The label of a wire for a logical value. *)
Definition label (wi : Wire) (v : bool) : Key := nth (Nat.b2n v) wi [].

(** The number a list of bits spells, most significant bit first. *)
Definition bits_value (bs : list Z) : Z := fold_left (fun r b => 2 * r + b) bs 0.

(** The bytes of the random tape that [n] calls of [genWire] read from the
    state [w]: one key per wire, and [key0] if it is not set yet. *)
Definition tape_used (w : World) (n : nat) : nat :=
  match n with
  | O => 0
  | _ => n * KEY_SIZE + (match key0 w with Some _ => 0 | None => KEY_SIZE end)
  end.

(** A state in the middle of a session: [key0] is set, and [wire_a],
    [wire_b] are wires of the session. *)
Definition key_d : Key := [1; 0; 0; 0; 0; 0; 0; 0; 0; 0; 0; 0; 0; 0; 0; 0].
Definition world_d : World := mkWorld (Some key_d) None None rng0 [] [].

(** A stream after [m] more bytes have been taken from it. *)
Definition advance (m : nat) (v : Stream) : Stream :=
  mkStream (keystream v) (consumed v + m).

(** ** Setting up the commodity server and its parties

    [NewCommodityServerState], [NewCommodityClientState] and
    [InitCommodityClientState] of [runtime/gmw/commodity.go]. *)

(** A Go channel of byte strings: the messages sent and not yet received,
    oldest first, and whether the channel is closed.  The receivers run
    concurrently with the senders, so a send does not wait for its
    receiver. *)
Record Chan : Type := mkChan { queue : list (list Z); closed : bool }.

(** The random source behind [ot.RandomBytes] and the channels of the slice
    [partyCh], by position (the channels of different parties are different
    channels). *)
Record Net : Type := mkNet { net_rng : RNG; net_chans : list Chan }.

(** [partyCh[i] <- msg]: a send on a closed channel panics. *)
Definition chan_send (i : nat) (msg : list Z) : M Net unit :=
  fun s =>
    match net_chans s !! i with
    | None => Panic "index out of range" s
    | Some c =>
        if closed c then Panic "send on closed channel" s
        else Done tt (mkNet (net_rng s)
                        (<[i := mkChan (queue c ++ [msg]) false]> (net_chans s)))
    end.

(** [close(partyCh[i])]: closing a closed channel panics. *)
Definition chan_close (i : nat) : M Net unit :=
  fun s =>
    match net_chans s !! i with
    | None => Panic "index out of range" s
    | Some c =>
        if closed c then Panic "close of closed channel" s
        else Done tt (mkNet (net_rng s)
                        (<[i := mkChan (queue c) true]> (net_chans s)))
    end.

(** [<-ch]: the oldest message; on an empty channel, the zero value [nil]
    when the channel is closed and a wait when it is open; a receive from
    the [nil] channel waits for ever. *)
Definition chan_recv (ch : option nat) : M Net (list Z) :=
  fun s =>
    match ch with
    | None => Blocked s
    | Some i =>
        match net_chans s !! i with
        | None => Blocked s
        | Some c =>
            match queue c with
            | msg :: rest =>
                Done msg (mkNet (net_rng s)
                            (<[i := mkChan rest (closed c)]> (net_chans s)))
            | [] => if closed c then Done [] s else Blocked s
            end
        end
    end.

(** The server as [NewCommodityServerState] returns it: its streams, and
    the channel it keeps as [CorrectionCh] (a position in [partyCh]). *)
Record ServerSetup : Type := mkSetup {
  setup_streams : list Stream;
  setup_ch : nat
}.

(** The fields [RandomStream] and [CorrectionCh] of a client while it is
    set up; [None] is [nil]. *)
Record ClientSetup : Type := mkClientSetup {
  cs_stream : option Stream;
  cs_ch : option nat
}.

Section Setup.

(** [ot.SeedBytes], [ot.RandomBytes] and [ot.NewPRG] are not in the source
    tree: the length of a seed, random bytes (here read from the tape), and
    the stream a seed expands to. *)
Variable SeedBytes : nat.
Variable NewPRG : list Z -> Stream.

Definition RandomBytes (n : nat) : M Net (list Z) :=
  fun s =>
    let (out, r) := rng_read n (net_rng s) in
    Done out (mkNet r (net_chans s)).

(** [nil] ([None]) for no party; otherwise one fresh seed per party, sent
    to the party on its channel; then the channels of all parties but the
    first are closed. *)
Definition NewCommodityServerState : M Net (option ServerSetup) :=
  fun s =>
    let numParties := length (net_chans s) in
    if (numParties =? 0)%nat then Done None s
    else
      (let* streams :=
         for_range numParties 0 (fun i =>
           let* seed := RandomBytes SeedBytes in
           let stream := NewPRG seed in
           let* _ := chan_send i seed in
           ret stream) in
       let* _ := for_range (numParties - 1) 1 (fun i => chan_close i) in
       ret (Some (mkSetup streams 0))) s.

Definition NewCommodityClientState (ch : nat) : ClientSetup :=
  mkClientSetup None (Some ch).

Definition InitCommodityClientState (s : ClientSetup) (distinguished : bool)
  : M Net ClientSetup :=
  let* seed := chan_recv (cs_ch s) in
  let s := mkClientSetup (Some (NewPRG seed)) (cs_ch s) in
  if negb distinguished then ret (mkClientSetup (cs_stream s) None)
  else ret s.

(** Every party makes its state on its channel and initialises it, the
    first party as the distinguished one. *)
Definition init_parties (numParties : nat) : M Net (list ClientSetup) :=
  for_range numParties 0 (fun i =>
    InitCommodityClientState (NewCommodityClientState i) (i =? 0)%nat).

End Setup.

(** The states of the server and of a party that the setup leads to, with
    the contents of the channel they hold. *)
Definition server_state (n : Net) (s : ServerSetup) : CommodityServerState :=
  mkServer (setup_streams s)
           (default [] (queue <$> net_chans n !! setup_ch s)).

Definition client_state (n : Net) (c : ClientSetup)
  : option CommodityClientState :=
  v ← cs_stream c;
  Some (mkClient v (i ← cs_ch c; queue <$> net_chans n !! i) []).

(** The [k]-th seed read from a random source. *)
Definition seed_at (SeedBytes : nat) (r : RNG) (k : nat) : list Z :=
  map (tape r) (seq (cursor r + k * SeedBytes) SeedBytes).

(** ** The chat client in [runtime/gmw/commodity.go]: [escape],
    [MarshalPublicKey], [UnmarshalPublicKey], [indexOfParty] *)

(** [escape]: a tab becomes a space, a carriage return is dropped, a
    newline is kept, any other byte below 32 becomes [?]. *)
Definition escape (s : list Z) : list Z :=
  fold_left (fun out b =>
    if b =? 9 then out ++ [32]
    else if b =? 13 then out
    else if b =? 10 then out ++ [10]
    else if b <? 32 then out ++ [63]
    else out ++ [b]) s [].

(** What [escape] appends for one byte. *)
Definition escape1 (b : Z) : list Z :=
  if b =? 9 then [32]
  else if b =? 13 then []
  else if b =? 10 then [10]
  else if b <? 32 then [63]
  else [b].

(** A byte that a terminal may be sent: a newline or no control
    character. *)
Definition printable (b : Z) : Prop := b = 10 \/ 32 <= b.

(** The cases [0] to [9] and [a] to [f] of the switch in
    [UnmarshalPublicKey]. *)
Definition lower_hex : list Z :=
  [48; 49; 50; 51; 52; 53; 54; 55; 56; 57; 97; 98; 99; 100; 101; 102].

(** [fmt.Sprintf] with the verb [%x] on a byte array, as Go's [fmt] documents
    it: base 16, lower case, two characters per byte. *)
Definition hex_digit (d : Z) : Z := nth (Z.to_nat d) lower_hex 0.

Definition MarshalPublicKey (c : list Z) : list Z :=
  flat_map (fun b => [hex_digit (b / 16); hex_digit (b mod 16)]) c.

Section PublicKeys.

(** What [fmt.Sscanf(s, format, result)] with the verb [%x] leaves in the
    array [result]: left open. *)
Variable Sscanf_x : list Z -> list Z.

(** A string is the list of its bytes.  The loop of the source ranges over
    the runes of the string; a rune that is not one byte is none of the 16
    cases, and so is each of the bytes that spell it, so that the loop over
    the bytes reaches the same panic or the same end. *)
Definition UnmarshalPublicKey (s : list Z) : M unit (list Z) :=
  if negb (length s =? 64)%nat then panic "Malformed public key (wrong length)"
  else
    let* _ := for_range (length s) 0 (fun i =>
      let* v := index s i in
      if existsb (Z.eqb v) lower_hex then ret tt
      else panic "Malformed public key (not lowercase hexidecimal)") in
    ret (Sscanf_x s).

End PublicKeys.

Record Party : Type := mkParty { Nick : list Z; PartyKey : list Z }.

(** [v == p] on the struct [Party]. *)
Definition party_eqb (v p : Party) : bool :=
  bool_decide (Nick v = Nick p) && bool_decide (PartyKey v = PartyKey p).

(** The loop of [indexOfParty] from position [i] on. *)
Fixpoint indexOfParty_from (i : Z) (members : list Party) (p : Party)
  : Z * option string :=
  match members with
  | [] => (0, None)
  | v :: rest =>
      if party_eqb v p then (i, None)
      else indexOfParty_from (i + 1) rest p
  end.

(** [st.indexOfParty(p)] on the field [Members] of the room: the index and
    the error, which is [nil] ([None]) on every path. *)
Definition indexOfParty (Members : list Party) (p : Party) : Z * option string :=
  indexOfParty_from 0 Members p.

(** A key of 32 bytes, and a string of 64 characters that starts with an
    upper-case [A]. *)
Definition key32 : list Z :=
  [0; 17; 34; 51; 68; 85; 102; 119; 136; 153; 170; 187; 204; 221; 238; 255;
   1; 35; 69; 103; 137; 171; 205; 239; 16; 50; 84; 118; 152; 186; 220; 254].
Definition upper_key_string : list Z := 65 :: replicate 63 48.

(** Three parties of a chat room. *)
Definition party_ann : Party := mkParty [97; 110; 110] [48; 49].
Definition party_bob : Party := mkParty [98; 111; 98] [48; 50].
Definition party_eve : Party := mkParty [101; 118; 101] [48; 51].

(** ** The secretary of the chat rooms: the message handler of [secretary]
    in [runtime/gmw/commodity.go] *)

(** The bytes of a string literal. *)
Definition bytes_of (s : string) : list Z :=
  map (fun a => Z.of_nat (Ascii.nat_of_ascii a)) (list_ascii_of_string s).

(** A Go map from parties to booleans: an association list without
    repeated keys.  Its order stands for the order of iteration, which Go
    leaves open. *)
Fixpoint pm_set (p : Party) (v : bool) (m : list (Party * bool))
  : list (Party * bool) :=
  match m with
  | [] => [(p, v)]
  | (q, w) :: rest =>
      if party_eqb q p then (q, v) :: rest else (q, w) :: pm_set p v rest
  end.

Fixpoint pm_delete (p : Party) (m : list (Party * bool)) : list (Party * bool) :=
  match m with
  | [] => []
  | (q, w) :: rest =>
      if party_eqb q p then pm_delete p rest else (q, w) :: pm_delete p rest
  end.

(** A Go map from room names to values: its lookup function; [None] for a
    key that is not in the map. *)
Definition rm_set {V} (f : list Z -> V) (room : list Z) (v : V) : list Z -> V :=
  fun r => if bool_decide (r = room) then v else f r.

(** The messages the secretary decodes, and what it publishes. *)
Inductive Request : Type :=
| JoinRequest (p : Party)
| LeaveRequest (p : Party)
| StartRequest (p : Party)
| Message (p : Party) (text : list Z).

Inductive Payload : Type :=
| PMessage (p : Party) (text : list Z)
| PMembers (parties : list Party).

(** [nc.Publish(subject, encode(payload))], and the [true] sent on the
    channel bound to the subject [room.secretary.okStart]. *)
Inductive SecEvent : Type :=
| Publish (subject : list Z) (payload : Payload)
| OkStart (room : list Z).

(** The maps [rooms], [members] and [starters] of [secretary], and what it
    has published so far (the lines it logs are left out). *)
Record Secretary : Type := mkSecretary {
  rooms : list Z -> bool;
  members : list Z -> option (list (Party * bool));
  starters : list Z -> option (list (Party * bool));
  published : list SecEvent
}.

Definition secretary_init : Secretary :=
  mkSecretary (fun _ => false) (fun _ => None) (fun _ => None) [].

(** The handler of the subscription to [secretary.>], on a message that
    decodes to [req] and whose subject names [room]; [admin] is [MyParty],
    the party of the secretary. *)
Definition handle (admin : Party) (room : list Z) (req : Request)
    (s : Secretary) : Secretary :=
  let s := if rooms s room then s
           else mkSecretary (rm_set (rooms s) room true) (members s)
                            (starters s) (published s) in
  match req with
  | StartRequest p =>
      match members s room with
      | None => s
      | Some ms =>
          let st := match starters s room with
                    | Some st => st
                    | None => fold_left (fun st e => pm_set (fst e) false st) ms []
                    end in
          let st := pm_set p true st in
          let s := mkSecretary (rooms s) (members s)
                               (rm_set (starters s) room (Some st)) (published s) in
          if forallb snd st
          then mkSecretary (rooms s) (members s) (starters s)
                           (published s ++ [OkStart room])
          else s
      end
  | LeaveRequest p =>
      mkSecretary (rooms s)
        (match members s room with
         | Some ms => rm_set (members s) room (Some (pm_delete p ms))
         | None => members s
         end)
        (starters s)
        (published s ++
         [Publish room (PMessage admin (Nick p ++ bytes_of " has left the room"))])
  | JoinRequest p =>
      let ms := pm_set p true (default [] (members s room)) in
      mkSecretary (rooms s) (rm_set (members s) room (Some ms)) (starters s)
        (published s ++
         [Publish room
            (PMessage admin (Nick p ++ bytes_of " has joined " ++ room));
          Publish room (PMembers (map fst ms))])
  | Message _ _ => s
  end.

(** The secretary after the messages [reqs], oldest first. *)
Definition serve (admin : Party) (reqs : list (list Z * Request))
    (s : Secretary) : Secretary :=
  fold_left (fun s m => handle admin (fst m) (snd m) s) reqs s.

(** A room and the messages of two parties that join it and ask to start. *)
Definition room_a : list Z := [114; 111; 111; 109].
Definition requests0 : list (list Z * Request) :=
  [(room_a, JoinRequest party_ann); (room_a, JoinRequest party_bob)].

(* ===================================================================== *)
(** * Part II: properties                                                 *)
(* ===================================================================== *)

(** ** Layered encryption *)

Section CipherFacts.

Variable gc_Encrypt gc_Decrypt : Key -> list Z -> list Z.

(** [gc.Encrypt] is length-preserving on blocks, and [gc.Decrypt] undoes
    it. *)
Hypothesis Encrypt_length :
  forall k p, length p = KEY_SIZE -> length (gc_Encrypt k p) = KEY_SIZE.
Hypothesis Decrypt_Encrypt :
  forall k p, length p = KEY_SIZE -> gc_Decrypt k (gc_Encrypt k p) = p.

Lemma encrypt_length keys p :
  length p = KEY_SIZE -> length (encrypt gc_Encrypt keys p) = KEY_SIZE.
Proof.
  revert p. induction keys as [|k keys IH]; intros p Hp; simpl; auto.
Qed.

Lemma decrypt_snoc keys k c :
  decrypt gc_Decrypt (keys ++ [k]) c =
  decrypt gc_Decrypt keys (gc_Decrypt k c).
Proof. unfold decrypt. rewrite rev_app_distr. reflexivity. Qed.

Lemma encrypt_snoc keys k p :
  encrypt gc_Encrypt (keys ++ [k]) p =
  gc_Encrypt k (encrypt gc_Encrypt keys p).
Proof. unfold encrypt. rewrite fold_left_app. reflexivity. Qed.

Lemma decrypt_encrypt keys p :
  length p = KEY_SIZE ->
  decrypt gc_Decrypt keys (encrypt gc_Encrypt keys p) = p.
Proof.
  induction keys as [|k keys IH] using rev_ind; intros Hp.
  - reflexivity.
  - rewrite encrypt_snoc, decrypt_snoc, Decrypt_Encrypt.
    + apply IH, Hp.
    + apply encrypt_length, Hp.
Qed.

Lemma at_int_insert {A} (t : list A) (s : Z) (x y : A) :
  at_int t s = Some y -> at_int (<[Z.to_nat s := x]> t) s = Some x.
Proof.
  unfold at_int. destruct (s <? 0); [discriminate|]. intros H.
  apply list_lookup_insert_eq. eapply lookup_lt_Some, H.
Qed.

(** C9: the layered helpers invert each other on blocks, for every list of
    keys, and [Decrypt] reads back what [encrypt_slot] wrote. *)
Theorem layered_roundtrip (keys : list Key) (p : list Z) :
  length p = KEY_SIZE ->
  decrypt gc_Decrypt keys (encrypt gc_Encrypt keys p) = p /\
  forall t t' : GarbledTable,
    encrypt_slot gc_Encrypt t p keys = Some t' ->
    Decrypt gc_Decrypt t' keys = Some p.
Proof.
  intros Hp. split; [apply decrypt_encrypt, Hp|].
  intros t t'. unfold encrypt_slot, Decrypt.
  destruct (slot keys) as [s|]; simpl; [|discriminate].
  destruct (at_int t s) as [c|] eqn:Hc; simpl; [|discriminate].
  intros [= <-]. erewrite at_int_insert by exact Hc. simpl.
  f_equal. apply decrypt_encrypt, Hp.
Qed.

End CipherFacts.

Lemma toy_cipher_length k p : length (toy_cipher k p) = length p.
Proof.
  unfold toy_cipher. destruct (Z.even _).
  - apply List.length_rev.
  - destruct p; reflexivity.
Qed.

Lemma toy_cipher_involutive k p : toy_cipher k (toy_cipher k p) = p.
Proof.
  unfold toy_cipher. destruct (Z.even _).
  - apply rev_involutive.
  - destruct p as [|x rest]; [reflexivity|].
    f_equal. rewrite Z.lxor_assoc, Z.lxor_nilpotent. apply Z.lxor_0_r.
Qed.

Lemma layered_roundtrip_witness :
  decrypt toy_cipher [key_a; key_b] (encrypt toy_cipher [key_a; key_b] block_p)
    = block_p /\
  forall t t' : GarbledTable,
    encrypt_slot toy_cipher t block_p [key_a; key_b] = Some t' ->
    Decrypt toy_cipher t' [key_a; key_b] = Some block_p.
Proof.
  apply (layered_roundtrip toy_cipher toy_cipher).
  - intros k p Hp. rewrite toy_cipher_length. exact Hp.
  - intros k p _. apply toy_cipher_involutive.
  - reflexivity.
Defined.

(** ** Loops *)

Lemma for_range_pure {S A} n from (body : nat -> M S A) (f : nat -> A) s :
  (forall i, (from <= i < from + n)%nat -> body i s = Done (f i) s) ->
  for_range n from body s = Done (map f (seq from n)) s.
Proof.
  revert from. induction n as [|n IH]; intros from Hbody; simpl.
  - reflexivity.
  - unfold bind. rewrite Hbody by lia.
    rewrite IH by (intros i Hi; apply Hbody; lia). reflexivity.
Qed.

Lemma is_wire_lookup (a : list Wire) i ai :
  Forall is_wire a -> a !! i = Some ai ->
  exists k0 k1, ai = [k0; k1] /\ is_key k0 /\ is_key k1.
Proof.
  intros Ha Hi. rewrite Forall_lookup in Ha. specialize (Ha i ai Hi).
  destruct ai as [|k0 [|k1 [|? ?]]]; simpl in Ha; try contradiction.
  eauto.
Qed.

Lemma XorBytes_same_length a b :
  length a = length b -> XorBytes a b = Some (zip_with Z.lxor a b).
Proof. intros H. unfold XorBytes. rewrite decide_True by exact H. reflexivity. Qed.

(** ** Free XOR *)

(** C5: on wire vectors of equal length, [Xor] returns at every index the
    wire [(a.k0 XOR b.k0, a.k0 XOR b.k1)] and leaves the world as it was:
    nothing is sent or received and no randomness is consumed. *)
Theorem vm_Xor_free (a b : list Wire) (w : World) :
  length a = length b -> Forall is_wire a -> Forall is_wire b ->
  exists res,
    vm_Xor a b w = Done res w /\
    length res = length a /\
    forall i a0 a1 b0 b1,
      a !! i = Some [a0; a1] -> b !! i = Some [b0; b1] ->
      res !! i = Some [zip_with Z.lxor a0 b0; zip_with Z.lxor a0 b1].
Proof.
  intros Hlen Ha Hb.
  exists (map (xor_wire a b) (seq 0 (length a))).
  split; [|split].
  - unfold vm_Xor. rewrite Hlen, Nat.eqb_refl. simpl. rewrite <- Hlen.
    apply for_range_pure. intros i Hi.
    destruct (lookup_lt_is_Some_2 a i ltac:(lia)) as [ai Hai].
    destruct (lookup_lt_is_Some_2 b i ltac:(lia)) as [bi Hbi].
    destruct (is_wire_lookup a i ai Ha Hai) as (a0 & a1 & -> & Ha0 & Ha1).
    destruct (is_wire_lookup b i bi Hb Hbi) as (b0 & b1 & -> & Hb0 & Hb1).
    unfold xor_wire, bind, index, XorKey. rewrite Hai, Hbi. simpl.
    unfold is_key in *.
    rewrite !XorBytes_same_length by congruence. reflexivity.
  - rewrite length_map, length_seq. reflexivity.
  - intros i a0 a1 b0 b1 Hai Hbi.
    rewrite list_lookup_fmap, lookup_seq_lt by (eapply lookup_lt_Some, Hai).
    simpl. unfold xor_wire. rewrite Hai, Hbi. reflexivity.
Qed.

Lemma vm_Xor_free_witness :
  exists res,
    vm_Xor [wire_a] [wire_b] (fresh_world rng0 []) = Done res (fresh_world rng0 []) /\
    length res = length [wire_a] /\
    forall i a0 a1 b0 b1,
      [wire_a] !! i = Some [a0; a1] -> [wire_b] !! i = Some [b0; b1] ->
      res !! i = Some [zip_with Z.lxor a0 b0; zip_with Z.lxor a0 b1].
Proof.
  apply (vm_Xor_free [wire_a] [wire_b] (fresh_world rng0 [])).
  - reflexivity.
  - repeat constructor.
  - repeat constructor.
Defined.

(** ** Loop rules *)

Section LoopRules.

Context {S A : Type}.
Variable Inv : nat -> S -> Prop.
Variable Step : S -> S -> Prop.
Variable Post : nat -> A -> S -> Prop.
Hypothesis Step_refl : forall s, Step s s.
Hypothesis Step_trans : forall s1 s2 s3, Step s1 s2 -> Step s2 s3 -> Step s1 s3.
Hypothesis Post_stable : forall i r s s', Post i r s -> Step s s' -> Post i r s'.

(** Every iteration returns: so does the loop. *)
Lemma for_range_total n from (body : nat -> M S A) s :
  (forall i s, (from <= i < from + n)%nat -> Inv i s ->
     exists r s', body i s = Done r s' /\ Inv (Datatypes.S i) s' /\
                  Step s s' /\ Post i r s') ->
  Inv from s ->
  exists rs s', for_range n from body s = Done rs s' /\
    Inv (from + n)%nat s' /\ Step s s' /\ length rs = n /\
    forall j r, rs !! j = Some r -> Post (from + j)%nat r s'.
Proof.
  revert from s. induction n as [|n IH]; intros from s Hbody Hinv.
  - exists [], s. simpl. rewrite Nat.add_0_r.
    repeat split; auto. intros j r Hj. discriminate.
  - destruct (Hbody from s ltac:(lia) Hinv) as (r & s1 & Hr & Hinv1 & Hst1 & Hp1).
    destruct (IH (Datatypes.S from) s1) as (rs & s2 & Hrs & Hinv2 & Hst2 & Hlen & Hp2).
    { intros i s' Hi. apply Hbody. lia. }
    { exact Hinv1. }
    exists (r :: rs), s2. simpl. unfold bind. rewrite Hr, Hrs. simpl.
    replace (from + Datatypes.S n)%nat with (Datatypes.S from + n)%nat by lia.
    repeat split; eauto.
    intros [|j] r' Hj; simpl in Hj.
    + injection Hj as <-. rewrite Nat.add_0_r. eauto.
    + replace (from + Datatypes.S j)%nat with (Datatypes.S from + j)%nat by lia.
      eauto.
Qed.

(** Whenever the loop returns, the invariant went through. *)
Lemma for_range_partial n from (body : nat -> M S A) s rs s' :
  (forall i s r s', (from <= i < from + n)%nat -> Inv i s ->
     body i s = Done r s' ->
     Inv (Datatypes.S i) s' /\ Step s s' /\ Post i r s') ->
  Inv from s ->
  for_range n from body s = Done rs s' ->
  Inv (from + n)%nat s' /\ Step s s' /\ length rs = n /\
  forall j r, rs !! j = Some r -> Post (from + j)%nat r s'.
Proof.
  revert from s rs. induction n as [|n IH]; intros from s rs Hbody Hinv Hrun.
  - simpl in Hrun. injection Hrun as <- <-. rewrite Nat.add_0_r.
    repeat split; auto. intros j r Hj. discriminate.
  - simpl in Hrun. unfold bind in Hrun.
    destruct (body from s) as [r s1| |] eqn:Hr; try discriminate.
    destruct (for_range n (Datatypes.S from) body s1) as [rs1 s2| |] eqn:Hrs;
      try discriminate.
    injection Hrun as <- <-.
    destruct (Hbody from s r s1 ltac:(lia) Hinv Hr) as (Hinv1 & Hst1 & Hp1).
    destruct (IH (Datatypes.S from) s1 rs1) as (Hinv2 & Hst2 & Hlen & Hp2); auto.
    { intros i s0 r0 s0' Hi. apply Hbody. lia. }
    replace (from + Datatypes.S n)%nat with (Datatypes.S from + n)%nat by lia.
    repeat split; eauto.
    + simpl. congruence.
    + intros [|j] r' Hj; simpl in Hj.
      * injection Hj as <-. rewrite Nat.add_0_r. eauto.
      * replace (from + Datatypes.S j)%nat with (Datatypes.S from + j)%nat by lia.
        eauto.
Qed.

End LoopRules.

(** ** The session order *)

Lemma later_refl w : later w w.
Proof. repeat split; auto. exists []. symmetry. apply app_nil_r. Qed.

Lemma later_trans w1 w2 w3 : later w1 w2 -> later w2 w3 -> later w1 w3.
Proof.
  intros (Hk1 & Ht1 & Hc1 & e1 & He1) (Hk2 & Ht2 & Hc2 & e2 & He2).
  repeat split; auto; try congruence; try lia.
  exists (e1 ++ e2). rewrite He2, He1. symmetry. apply app_assoc.
Qed.

Lemma delta_ok_later w w' wire : delta_ok w wire -> later w w' -> delta_ok w' wire.
Proof. intros (d & Hd & ?) (Hk & _). exists d. split; auto. Qed.

(** ** Low bits *)

Lemma mod2_odd (x : Z) : x mod 2 = if Z.odd x then 1 else 0.
Proof. apply Zmod_odd. Qed.

Lemma lxor_mod2 x y : y mod 2 = 1 -> (Z.lxor x y) mod 2 <> x mod 2.
Proof.
  rewrite !mod2_odd. rewrite <- !Z.bit0_odd, Z.lxor_spec.
  destruct (Z.testbit x 0), (Z.testbit y 0); simpl; lia.
Qed.

Lemma lsb_bit k b : lsb k = Some b -> b = 0 \/ b = 1.
Proof.
  unfold lsb. destruct (k !! 0%nat) as [x|]; simpl; [|discriminate].
  intros [= <-]. rewrite mod2_odd. destruct (Z.odd x); auto.
Qed.

(** Free XOR with an offset of low bit 1 separates the two labels. *)
Lemma free_xor_pp d wire : lsb d = Some 1 -> free_xor d wire -> pp_distinct wire.
Proof.
  intros Hd Hw. destruct wire as [|k0 [|k1 [|? ?]]]; simpl in *; try contradiction.
  destruct Hw as [Hk0 Hx]. unfold XorKey, XorBytes in Hx.
  destruct (decide _) as [Hlen|]; [|discriminate]. injection Hx as <-.
  unfold lsb in *. destruct d as [|y d]; [discriminate|]. simpl in Hd.
  injection Hd as Hd.
  destruct k0 as [|x k0]; [discriminate|]. simpl.
  exists (x mod 2), (Z.lxor x y mod 2). repeat split.
  intros Heq. symmetry in Heq. revert Heq. apply lxor_mod2, Hd.
Qed.

Lemma delta_ok_pp w wire : delta_ok w wire -> pp_distinct wire.
Proof. intros (d & _ & Hd & Hw). eapply free_xor_pp; eauto. Qed.

(** ** [genWire] *)

Lemma rng_read_length n r : length (fst (rng_read n r)) = n.
Proof. unfold rng_read. simpl. rewrite length_map, length_seq. reflexivity. Qed.

Lemma lsb_set_low (k : Key) b0 :
  k !! 0%nat = Some b0 -> lsb (<[0%nat := Z.lor b0 1]> k) = Some 1.
Proof.
  intros H. destruct k as [|x k]; [discriminate|]. unfold lsb. simpl.
  f_equal. rewrite mod2_odd, <- Z.bit0_odd, Z.lor_spec.
  rewrite orb_true_r. reflexivity.
Qed.

(** What a call of [genWire] does: it sets [key0] if need be, reads the
    next [KEY_SIZE] bytes of the tape as [k0] and pairs them with
    [k0 XOR key0]; channels and constants are left alone. *)
Lemma genWire_spec w :
  world_ok w ->
  exists d pos,
    let k0 := map (tape (rng w)) (seq pos KEY_SIZE) in
    genWire w = Done [k0; zip_with Z.lxor k0 d]
      (mkWorld (Some d) (const0 w) (const1 w)
               (mkRNG (tape (rng w)) (pos + KEY_SIZE)) (trace w) (inbox w)) /\
    (cursor (rng w) <= pos)%nat /\ is_key d /\ lsb d = Some 1 /\
    (forall d0, key0 w = Some d0 -> d0 = d).
Proof.
  intros [Hkey _]. unfold genWire, bind, init_key0, GenKey.
  destruct (key0 w) as [d|] eqn:Hd.
  - destruct (Hkey d eq_refl) as [Hlen Hlsb].
    exists d, (cursor (rng w)). cbn zeta. unfold rng_read. simpl key0.
    rewrite Hd. unfold XorKey. rewrite XorBytes_same_length.
    + simpl. repeat split; auto. congruence.
    + rewrite length_map, length_seq. symmetry. exact Hlen.
  - set (k := map (tape (rng w)) (seq (cursor (rng w)) KEY_SIZE)).
    exists (<[0%nat := Z.lor (tape (rng w) (cursor (rng w))) 1]> k),
           (cursor (rng w) + KEY_SIZE)%nat.
    cbn zeta. unfold rng_read. fold k.
    assert (Hk0 : k !! 0%nat = Some (tape (rng w) (cursor (rng w)))) by reflexivity.
    rewrite Hk0. cbn [key0 rng tape cursor].
    unfold XorKey. rewrite XorBytes_same_length.
    + split; [reflexivity|]. split; [lia|]. split; [|split].
      * unfold is_key. rewrite length_insert. unfold k.
        rewrite length_map, length_seq. reflexivity.
      * apply lsb_set_low, Hk0.
      * discriminate.
    + rewrite length_insert. unfold k. rewrite !length_map, !length_seq.
      reflexivity.
Qed.

Lemma free_xor_intro (k0 d : Key) :
  is_key k0 -> is_key d -> free_xor d [k0; zip_with Z.lxor k0 d].
Proof.
  intros H0 Hd. simpl. split; [exact H0|].
  unfold XorKey. apply XorBytes_same_length. unfold is_key in *. congruence.
Qed.

(** The same in terms of the session: the wire is a wire of the session,
    the state stays consistent and moves on, and nothing is sent. *)
Lemma genWire_ok w :
  world_ok w ->
  exists wire w',
    genWire w = Done wire w' /\ world_ok w' /\ later w w' /\
    delta_ok w' wire /\ is_wire wire /\
    trace w' = trace w /\ inbox w' = inbox w /\
    const0 w' = const0 w /\ const1 w' = const1 w.
Proof.
  intros Hok. destruct (genWire_spec w Hok) as (d & pos & Hrun & Hpos & Hd & Hlsb & Hsame).
  cbn zeta in Hrun. eexists _, _. split; [exact Hrun|].
  assert (Hk0 : is_key (map (tape (rng w)) (seq pos KEY_SIZE))).
  { unfold is_key. rewrite length_map, length_seq. reflexivity. }
  assert (Hlater : later w (mkWorld (Some d) (const0 w) (const1 w)
            (mkRNG (tape (rng w)) (pos + KEY_SIZE)) (trace w) (inbox w))).
  { repeat split; simpl; auto.
    - intros d0 H0. f_equal. symmetry. auto.
    - lia.
    - exists []. symmetry. apply app_nil_r. }
  assert (Hwire : delta_ok (mkWorld (Some d) (const0 w) (const1 w)
            (mkRNG (tape (rng w)) (pos + KEY_SIZE)) (trace w) (inbox w))
            [map (tape (rng w)) (seq pos KEY_SIZE);
             zip_with Z.lxor (map (tape (rng w)) (seq pos KEY_SIZE)) d]).
  { exists d. split; [reflexivity|]. split; [exact Hlsb|].
    apply free_xor_intro; assumption. }
  split; [|split; [exact Hlater|split; [exact Hwire|]]].
  - split.
    + intros d0 [= <-]. auto.
    + cbn [const0 const1]. intros c Hc. destruct Hok as [_ Hconst].
      destruct (Hconst c Hc) as [Hc0 (c1 & Hc1 & Hok1)].
      split; [eapply delta_ok_later; eauto|].
      exists c1. split; [exact Hc1|]. eapply delta_ok_later; eauto.
  - split; [|repeat split].
    split; [exact Hk0|]. unfold is_key in *.
    rewrite length_zip_with, Hk0, Hd. reflexivity.
Qed.

(** ** Reading a run backwards *)

Lemma bind_Done {S A B} (m : M S A) (k : A -> M S B) s r s' :
  bind m k s = Done r s' ->
  exists x s1, m s = Done x s1 /\ k x s1 = Done r s'.
Proof.
  unfold bind. destruct (m s) as [x s1| |]; try discriminate. eauto.
Qed.

Lemma lift_Done {S A} msg (o : option A) (s : S) r s' :
  lift msg o s = Done r s' -> o = Some r /\ s' = s.
Proof. destruct o; simpl; unfold ret, panic; intros [=]; subst; auto. Qed.

Lemma index_Done {S A} (l : list A) i (s : S) r s' :
  index l i s = Done r s' -> l !! i = Some r /\ s' = s.
Proof. apply lift_Done. Qed.

Lemma ret_Done {S A} (a : A) (s : S) r s' :
  ret a s = Done r s' -> r = a /\ s' = s.
Proof. unfold ret. intros [=]. auto. Qed.

Lemma emit_Done e s r s' : emit e s = Done r s' -> s' = add_event e s.
Proof. unfold emit. intros [=]. auto. Qed.

(** Peel the binds of a run that returned. *)
Ltac peel H :=
  repeat match type of H with
  | bind _ _ _ = Done _ _ =>
      let x := fresh "x" in let s := fresh "s" in
      let H1 := fresh "Hrun" in
      apply bind_Done in H; destruct H as (x & s & H1 & H);
      first [ apply lift_Done in H1; destruct H1 as [H1 ->]
            | apply index_Done in H1; destruct H1 as [H1 ->]
            | apply ret_Done in H1; destruct H1 as [-> ->]
            | apply emit_Done in H1; subst s
            | idtac ]
  | ret _ _ = Done _ _ => apply ret_Done in H; destruct H as [-> ->]
  | lift _ _ _ = Done _ _ => apply lift_Done in H; destruct H as [H ->]
  | index _ _ _ = Done _ _ => apply index_Done in H; destruct H as [H ->]
  | emit _ _ = Done _ _ => apply emit_Done in H; subst
  end.

Lemma row2_Done Enc t w a b o x y s t' s' :
  row2 Enc t w a b o x y s = Done t' s' ->
  s' = s /\ exists p ka kb,
    w !! o = Some p /\ a !! x = Some ka /\ b !! y = Some kb /\
    encrypt_slot Enc t p [ka; kb] = Some t'.
Proof.
  unfold row2. intros H. peel H. split; [reflexivity|]. eauto 10.
Qed.

Lemma row1_Done Enc t w a o s t' s' :
  row1 Enc t w a o s = Done t' s' ->
  s' = s /\ exists p ka,
    w !! o = Some p /\ a !! o = Some ka /\ encrypt_slot Enc t p [ka] = Some t'.
Proof.
  unfold row1. intros H. peel H. split; [reflexivity|]. eauto 10.
Qed.

Lemma set_byte0_Done w j v s w' s' :
  set_byte0 w j v s = Done w' s' ->
  s' = s /\ exists k, w !! j = Some k /\ w' = <[j := <[0%nat := v]> k]> w.
Proof.
  unfold set_byte0. intros H. peel H. split; [reflexivity|]. eauto.
Qed.

(** ** Events keep the session *)

Lemma world_ok_add_event e w : world_ok w -> world_ok (add_event e w).
Proof. intros H. exact H. Qed.

Lemma later_add_event e w : later w (add_event e w).
Proof. split; [auto|]. split; [auto|]. split; [auto|]. exists [e]. reflexivity. Qed.

Lemma delta_ok_add_event e w wire : delta_ok w wire -> delta_ok (add_event e w) wire.
Proof. intros H. exact H. Qed.

Ltac peel_rows H :=
  repeat match type of H with
  | bind _ _ _ = Done _ _ =>
      let x := fresh "x" in let s := fresh "s" in
      let H1 := fresh "Hrun" in
      apply bind_Done in H; destruct H as (x & s & H1 & H);
      first [ apply lift_Done in H1; destruct H1 as [H1 ->]
            | apply index_Done in H1; destruct H1 as [H1 ->]
            | apply ret_Done in H1; destruct H1 as [-> ->]
            | apply emit_Done in H1; subst s
            | apply row2_Done in H1; destruct H1 as [-> H1]
            | apply row1_Done in H1; destruct H1 as [-> H1]
            | apply set_byte0_Done in H1; destruct H1 as [-> H1]
            | idtac ]
  | ret _ _ = Done _ _ => apply ret_Done in H; destruct H as [-> ->]
  | lift _ _ _ = Done _ _ => apply lift_Done in H; destruct H as [H ->]
  | index _ _ _ = Done _ _ => apply index_Done in H; destruct H as [H ->]
  | emit _ _ = Done _ _ => apply emit_Done in H; subst
  end.

(** ** Every call keeps the session *)

Lemma genWire_Done w r w' :
  world_ok w -> genWire w = Done r w' ->
  world_ok w' /\ later w w' /\ delta_ok w' r /\ is_wire r /\
  trace w' = trace w /\ inbox w' = inbox w /\
  const0 w' = const0 w /\ const1 w' = const1 w.
Proof.
  intros Hok Hrun.
  destruct (genWire_ok w Hok) as (r0 & w0 & Hrun0 & H).
  rewrite Hrun0 in Hrun. injection Hrun as <- <-. exact H.
Qed.

Lemma gen_loop n from (body : nat -> M World Wire) w rs w' :
  (forall i, gen_step (body i)) -> world_ok w ->
  for_range n from body w = Done rs w' ->
  world_ok w' /\ later w w' /\ Forall (delta_ok w') rs.
Proof.
  intros Hbody Hok Hrun.
  destruct (for_range_partial (fun _ => world_ok) later
              (fun _ r s => delta_ok s r)
              later_refl later_trans
              (fun _ r s s' H L => delta_ok_later s s' r H L)
              n from body w rs w') as (Hok' & Hl & _ & Hpost); auto.
  { intros i s r s' _ Hs Hr. apply (Hbody i s r s' Hs Hr). }
  split; [exact Hok'|]. split; [exact Hl|].
  apply Forall_lookup. intros j r Hj. eauto.
Qed.

(** A wire from [genWire], then one event. *)
Lemma gen_then_event w r w1 e :
  world_ok w -> genWire w = Done r w1 ->
  world_ok (add_event e w1) /\ later w (add_event e w1) /\
  delta_ok (add_event e w1) r.
Proof.
  intros Hok Hrun.
  destruct (genWire_Done w r w1 Hok Hrun) as (Hok1 & Hl & Hd & _).
  split; [exact Hok1|]. split; [|exact Hd].
  eapply later_trans; [exact Hl|apply later_add_event].
Qed.

Lemma And_step Enc a b i o00 o01 o10 o11 :
  gen_step
    (let* ai := index a i in
     let* bi := index b i in
     let* w := genWire in
     let t := replicate 4 [] in
     let* t := row2 Enc t w ai bi o00 0 0 in
     let* t := row2 Enc t w ai bi o01 0 1 in
     let* t := row2 Enc t w ai bi o10 1 0 in
     let* t := row2 Enc t w ai bi o11 1 1 in
     let* _ := SendT t in
     ret w).
Proof.
  intros s r s' Hok H. unfold SendT in H. peel_rows H.
  eapply gen_then_event; eauto.
Qed.

Lemma vm_And_inv Enc a b w rs w' :
  world_ok w -> vm_And Enc a b w = Done rs w' ->
  world_ok w' /\ later w w' /\ Forall (delta_ok w') rs.
Proof.
  intros Hok. unfold vm_And. destruct (negb _); [discriminate|].
  apply gen_loop; auto. intros i. apply And_step.
Qed.

Lemma vm_Or_inv Enc a b w rs w' :
  world_ok w -> vm_Or Enc a b w = Done rs w' ->
  world_ok w' /\ later w w' /\ Forall (delta_ok w') rs.
Proof.
  intros Hok. unfold vm_Or. destruct (negb _); [discriminate|].
  apply gen_loop; auto. intros i. apply And_step.
Qed.

Lemma vm_ShareTo0_inv bits w rs w' :
  world_ok w -> vm_ShareTo0 bits w = Done rs w' ->
  world_ok w' /\ later w w' /\ Forall (delta_ok w') rs.
Proof.
  intros Hok H. unfold vm_ShareTo0 in H.
  apply bind_Done in H. destruct H as (x & s & H1 & H).
  apply lift_Done in H1. destruct H1 as [_ ->].
  revert H. apply gen_loop; auto.
  intros i s r s' Hs Hr. unfold Send in Hr. peel_rows Hr.
  eapply gen_then_event; eauto.
Qed.

Lemma vm_ShareTo1_inv a bits w rs w' :
  world_ok w -> vm_ShareTo1 a bits w = Done rs w' ->
  world_ok w' /\ later w w' /\ Forall (delta_ok w') rs.
Proof.
  intros Hok H. unfold vm_ShareTo1 in H.
  destruct (64 <? bits); [discriminate|].
  apply bind_Done in H. destruct H as (x & s & H1 & H).
  apply lift_Done in H1. destruct H1 as [_ ->].
  revert H. apply gen_loop; auto.
  intros i s r s' Hs Hr. unfold SendK in Hr. peel_rows Hr.
  eapply gen_then_event; eauto.
Qed.

Lemma GenKey_Done n w r w' :
  world_ok w -> GenKey n w = Done r w' ->
  world_ok w' /\ later w w' /\ trace w' = trace w /\ inbox w' = inbox w.
Proof.
  intros Hok. unfold GenKey, rng_read. intros [= <- <-].
  split; [exact Hok|]. split; [|auto].
  split; [auto|]. split; [auto|]. split; [simpl; lia|].
  exists []. symmetry. apply app_nil_r.
Qed.

Lemma vm_Random_inv bits w rs w' :
  world_ok w -> vm_Random bits w = Done rs w' ->
  world_ok w' /\ later w w' /\ Forall (delta_ok w') rs.
Proof.
  intros Hok H. unfold vm_Random in H.
  destruct (bits <? 1); [discriminate|].
  apply bind_Done in H. destruct H as (random & s & H1 & H).
  destruct (GenKey_Done _ _ _ _ Hok H1) as (Hok1 & Hl1 & _).
  assert (Hstep : forall i, gen_step
            (let* w := genWire in
             let* g := lift "index out of range" (GetBit random (Z.of_nat i)) in
             let* m0 := index w 0 in
             let* m1 := index w 1 in
             let* _ := (if g =? 0 then Send m0 m1 else Send m1 m0) in
             ret w)).
  { intros i s0 r s0' Hs Hr. unfold Send in Hr. peel_rows Hr.
    match goal with
    | Hif : (if ?c then _ else _) _ = Done _ _ |- _ =>
        destruct c; apply emit_Done in Hif; subst
    end; eapply gen_then_event; eauto. }
  destruct (gen_loop _ _ _ _ _ _ Hstep Hok1 H) as (Hok' & Hl & Hrs).
  split; [exact Hok'|]. split; [|exact Hrs]. eapply later_trans; eauto.
Qed.

Lemma delta_ok_key0 w w' wire :
  key0 w' = key0 w -> delta_ok w wire -> delta_ok w' wire.
Proof. intros Hk (d & Hd & H). exists d. split; [congruence|exact H]. Qed.

Lemma init_constants_Done w r w' :
  world_ok w -> init_constants w = Done r w' ->
  world_ok w' /\ later w w' /\
  exists c0 c1, const0 w' = Some c0 /\ const1 w' = Some c1 /\
                delta_ok w' c0 /\ delta_ok w' c1.
Proof.
  intros Hok H. unfold init_constants in H.
  destruct (const0 w) as [c0|] eqn:Hc0.
  - injection H as _ <-. split; [exact Hok|]. split; [apply later_refl|].
    destruct Hok as [_ Hc]. destruct (Hc c0 Hc0) as (H0 & c1 & Hc1 & H1).
    exists c0, c1. auto.
  - unfold SendK in H. peel_rows H.
    destruct (genWire_Done _ _ _ Hok Hrun) as (Hok1 & Hl1 & Hd1 & _).
    destruct (genWire_Done _ _ _ Hok1 Hrun0) as (Hok2 & Hl2 & Hd2 & _).
    pose proof (delta_ok_later _ _ _ Hd1 Hl2) as Hd1'.
    assert (Hok3 : world_ok (mkWorld (key0 s0) (Some x) (Some x0) (rng s0)
                                     (trace s0) (inbox s0))).
    { split; [exact (proj1 Hok2)|]. cbn [const0 const1]. intros c [= <-].
      split; [exact Hd1'|]. exists x0. split; [reflexivity|exact Hd2]. }
    split; [exact Hok3|]. split.
    + eapply later_trans; [exact Hl1|]. eapply later_trans; [exact Hl2|].
      eapply later_trans; [|apply later_add_event].
      eapply later_trans; [|apply later_add_event].
      split; [auto|]. split; [auto|]. split; [simpl; lia|].
      exists []. symmetry. apply app_nil_r.
    + exists x, x0. split; [reflexivity|]. split; [reflexivity|].
      split; [exact Hd1'|exact Hd2].
Qed.

Lemma vm_True_inv w rs w' :
  world_ok w -> vm_True w = Done rs w' ->
  world_ok w' /\ later w w' /\ Forall (delta_ok w') rs.
Proof.
  intros Hok H. unfold vm_True in H.
  apply bind_Done in H. destruct H as ([] & s & H1 & H).
  destruct (init_constants_Done _ _ _ Hok H1)
    as (Hok1 & Hl1 & c0 & c1 & Hc0 & Hc1 & Hd0 & Hd1).
  unfold bind, get_const, ret in H. rewrite Hc1 in H. injection H as <- <-.
  split; [exact Hok1|]. split; [exact Hl1|]. repeat constructor. exact Hd1.
Qed.

Lemma vm_False_inv w rs w' :
  world_ok w -> vm_False w = Done rs w' ->
  world_ok w' /\ later w w' /\ Forall (delta_ok w') rs.
Proof.
  intros Hok H. unfold vm_False in H.
  apply bind_Done in H. destruct H as ([] & s & H1 & H).
  destruct (init_constants_Done _ _ _ Hok H1)
    as (Hok1 & Hl1 & c0 & c1 & Hc0 & Hc1 & Hd0 & Hd1).
  unfold bind, get_const, ret in H. rewrite Hc0 in H. injection H as <- <-.
  split; [exact Hok1|]. split; [exact Hl1|]. repeat constructor. exact Hd0.
Qed.

Lemma zip_lxor_assoc (a b c : list Z) :
  zip_with Z.lxor (zip_with Z.lxor a b) c =
  zip_with Z.lxor a (zip_with Z.lxor b c).
Proof.
  revert b c. induction a as [|x a IH]; intros [|y b] [|z c]; simpl; auto.
  rewrite Z.lxor_assoc, IH. reflexivity.
Qed.

Lemma XorBytes_Some a b c :
  XorBytes a b = Some c -> length a = length b /\ c = zip_with Z.lxor a b.
Proof.
  unfold XorBytes. destruct (decide _); [|discriminate]. intros [= <-]. auto.
Qed.

(** Free XOR proper: the offset of the second operand carries over. *)
Lemma xor_free_xor d (a0 b0 b1 k0 k1 : Key) :
  free_xor d [b0; b1] ->
  XorKey a0 b0 = Some k0 -> XorKey a0 b1 = Some k1 ->
  free_xor d [k0; k1].
Proof.
  simpl. unfold XorKey. intros [Hb0 Hb1] H0 H1.
  apply XorBytes_Some in Hb1. destruct Hb1 as [Hlen ->].
  apply XorBytes_Some in H0. destruct H0 as [Hlen0 ->].
  apply XorBytes_Some in H1. destruct H1 as [Hlen1 ->].
  unfold is_key in *. split.
  - rewrite length_zip_with. lia.
  - rewrite <- zip_lxor_assoc. apply XorBytes_same_length.
    rewrite length_zip_with. lia.
Qed.

Lemma vm_Xor_inv a b w rs w' :
  Forall (delta_ok w) b -> vm_Xor a b w = Done rs w' ->
  w' = w /\ Forall (delta_ok w) rs.
Proof.
  intros Hb H. unfold vm_Xor in H. destruct (negb _); [discriminate|].
  eapply (for_range_partial (fun _ s => s = w) eq (fun _ r _ => delta_ok w r)
            (fun s => eq_refl) (fun s1 s2 s3 => @eq_trans _ s1 s2 s3)
            (fun _ r s s' H _ => H)) in H.
  - destruct H as (Hw & _ & _ & Hpost).
    split; [exact Hw|]. apply Forall_lookup. intros j r Hj. eauto.
  - intros i s r s' _ -> Hr. peel_rows Hr.
    split; [reflexivity|]. split; [reflexivity|].
    rewrite Forall_lookup in Hb. specialize (Hb _ _ Hrun0).
    destruct Hb as (d & Hd & Hlsb & Hfree).
    exists d. split; [exact Hd|]. split; [exact Hlsb|].
    destruct x0 as [|b0 [|b1 [|? ?]]]; simpl in Hfree; try contradiction.
    injection Hrun2 as ->. injection Hrun4 as ->.
    eapply xor_free_xor; eauto.
  - reflexivity.
Qed.

Lemma RecvK2_Done w k w' :
  RecvK2 w = Done k w' -> world_ok w -> world_ok w' /\ later w w'.
Proof.
  unfold RecvK2. destruct (inbox w) as [|k0 rest]; [discriminate|].
  intros [= <- <-] Hok. split; [exact Hok|].
  split; [auto|]. split; [auto|]. split; [auto|]. eexists. reflexivity.
Qed.

Lemma resolveKey_Done w k s bit s' :
  resolveKey w k s = Done bit s' ->
  s' = s /\
  ((w !! 0%nat = Some k /\ bit = 0) \/
   (exists w0, w !! 0%nat = Some w0 /\ k <> w0 /\ w !! 1%nat = Some k /\ bit = 1)).
Proof.
  unfold resolveKey. intros H.
  apply bind_Done in H. destruct H as (w0 & s0 & H0 & H).
  apply index_Done in H0. destruct H0 as [H0 ->].
  destruct (bool_decide_reflect (k = w0)) as [->|Hne].
  - apply ret_Done in H. destruct H as [-> ->]. auto.
  - apply bind_Done in H. destruct H as (w1 & s1 & H1 & H).
    apply index_Done in H1. destruct H1 as [H1 ->].
    destruct (bool_decide_reflect (k = w1)) as [->|Hne1]; [|discriminate].
    apply ret_Done in H. destruct H as [-> ->]. split; [reflexivity|].
    right. exists w0. auto.
Qed.

Lemma vm_RevealTo0_inv a w rs w' :
  world_ok w -> vm_RevealTo0 a w = Done rs w' -> world_ok w' /\ later w w'.
Proof.
  intros Hok H. unfold vm_RevealTo0 in H.
  eapply (for_range_partial (fun _ => world_ok) later (fun _ _ _ => True%type)
            later_refl later_trans (fun _ _ _ _ _ _ => I)) in H;
    [destruct H as (Hok' & Hl & _); auto| |exact Hok].
  intros i s r s' _ Hs Hr. peel_rows Hr.
  destruct (RecvK2_Done _ _ _ Hrun0 Hs) as [Hok1 Hl1].
  apply resolveKey_Done in Hrun1. destruct Hrun1 as [-> _].
  destruct (x1 =? 0); apply ret_Done in Hr; destruct Hr as [_ ->]; auto.
Qed.

Lemma vm_RevealTo1_inv Enc a w r w' :
  world_ok w -> vm_RevealTo1 Enc a w = Done r w' -> world_ok w' /\ later w w'.
Proof.
  intros Hok H. unfold vm_RevealTo1 in H.
  apply bind_Done in H. destruct H as (us & s & H & Hret).
  apply ret_Done in Hret. destruct Hret as [_ ->].
  eapply (for_range_partial (fun _ => world_ok) later (fun _ _ _ => True%type)
            later_refl later_trans (fun _ _ _ _ _ _ => I)) in H;
    [destruct H as (Hok' & Hl & _); auto| |exact Hok].
  intros i s0 r0 s0' _ Hs Hr. unfold SendT in Hr. peel_rows Hr.
  destruct (gen_then_event s0 x s1 (EvSendT x4) Hs Hrun) as (? & ? & _). auto.
Qed.

(** ** The free-XOR invariant of a session *)

Lemma fetch_Done pool ids w a w' :
  fetch pool ids w = Done a w' -> w' = w /\ Forall (fun x => x ∈ pool) a.
Proof.
  unfold fetch. intros H. apply lift_Done in H. destruct H as [H ->].
  split; [reflexivity|]. apply mapM_Some in H.
  induction H as [|i x ids a Hx _ IH]; constructor; auto.
  eapply list_elem_of_lookup_2, Hx.
Qed.

Lemma fetch_session pool ids w a w' :
  Forall (delta_ok w) pool -> fetch pool ids w = Done a w' ->
  w' = w /\ Forall (delta_ok w) a.
Proof.
  intros Hpool H. apply fetch_Done in H. destruct H as [-> Ha].
  split; [reflexivity|]. rewrite list.Forall_forall in Hpool.
  eapply list.Forall_impl; [exact Ha|]. auto.
Qed.

Lemma call_inv Enc pool c w ws w' :
  world_ok w -> Forall (delta_ok w) pool ->
  call Enc pool c w = Done ws w' ->
  world_ok w' /\ later w w' /\ Forall (delta_ok w') ws.
Proof.
  intros Hok Hpool H. destruct c; simpl in H.
  - apply bind_Done in H. destruct H as (a' & s & Ha & H).
    apply fetch_Done in Ha. destruct Ha as [-> _].
    apply bind_Done in H. destruct H as (b' & s & Hb & H).
    apply fetch_Done in Hb. destruct Hb as [-> _].
    eapply vm_And_inv; eauto.
  - apply bind_Done in H. destruct H as (a' & s & Ha & H).
    apply fetch_Done in Ha. destruct Ha as [-> _].
    apply bind_Done in H. destruct H as (b' & s & Hb & H).
    apply fetch_Done in Hb. destruct Hb as [-> _].
    eapply vm_Or_inv; eauto.
  - apply bind_Done in H. destruct H as (a' & s & Ha & H).
    apply fetch_Done in Ha. destruct Ha as [-> _].
    apply bind_Done in H. destruct H as (b' & s & Hb & H).
    apply (fetch_session _ _ _ _ _ Hpool) in Hb. destruct Hb as [-> Hb].
    apply (vm_Xor_inv _ _ _ _ _ Hb) in H. destruct H as [-> H].
    split; [exact Hok|]. split; [apply later_refl|exact H].
  - eapply vm_True_inv; eauto.
  - eapply vm_False_inv; eauto.
  - eapply vm_ShareTo0_inv; eauto.
  - eapply vm_ShareTo1_inv; eauto.
  - eapply vm_Random_inv; eauto.
  - apply bind_Done in H. destruct H as (a' & s & Ha & H).
    apply fetch_Done in Ha. destruct Ha as [-> _].
    apply bind_Done in H. destruct H as (bs & s & Hr & H).
    apply ret_Done in H. destruct H as [-> ->].
    destruct (vm_RevealTo0_inv _ _ _ _ Hok Hr). auto.
  - apply bind_Done in H. destruct H as (a' & s & Ha & H).
    apply fetch_Done in Ha. destruct Ha as [-> _].
    apply bind_Done in H. destruct H as (bs & s & Hr & H).
    apply ret_Done in H. destruct H as [-> ->].
    destruct (vm_RevealTo1_inv _ _ _ _ _ Hok Hr). auto.
Qed.

Lemma session_inv Enc prog pool w pool' w' :
  world_ok w -> Forall (delta_ok w) pool ->
  session Enc prog pool w = Done pool' w' ->
  world_ok w' /\ later w w' /\ Forall (delta_ok w') pool'.
Proof.
  revert pool w. induction prog as [|c prog IH]; intros pool w Hok Hpool H.
  - simpl in H. apply ret_Done in H. destruct H as [-> ->].
    split; [exact Hok|]. split; [apply later_refl|exact Hpool].
  - simpl in H. apply bind_Done in H. destruct H as (ws & s & Hc & H).
    destruct (call_inv _ _ _ _ _ _ Hok Hpool Hc) as (Hok1 & Hl1 & Hws).
    destruct (IH (pool ++ ws) s Hok1) with (2 := H) as (Hok' & Hl' & Hp').
    + apply Forall_app. split; [|exact Hws].
      eapply list.Forall_impl; [exact Hpool|]. intros x Hx.
      eapply delta_ok_later; eauto.
    + split; [exact Hok'|]. split; [|exact Hp'].
      eapply later_trans; eauto.
Qed.

Lemma world_ok_fresh r keys : world_ok (fresh_world r keys).
Proof. split; intros ? [=]. Qed.

(** C2: in a session started from the reset state, whatever the calls, the
    random tape and the keys received, there is one offset, the final
    [key0], with low bit 1, such that every wire returned by [And], [Or],
    [Xor], [True], [False], [ShareTo0], [ShareTo1] or [Random] during the
    session has [k1 = k0 XOR key0]; hence its two labels differ in their
    low bit.  The wires of [Xor] need the invariant of their second operand
    only. *)
Theorem free_xor_invariant Enc (prog : list Call) (r : RNG) (keys : list Key)
    (pool : list Wire) (w' : World) :
  session Enc prog [] (fresh_world r keys) = Done pool w' ->
  Forall (fun wire =>
            (exists d, key0 w' = Some d /\ lsb d = Some 1 /\ free_xor d wire) /\
            pp_distinct wire) pool /\
  (forall a b w rs w1,
      Forall (delta_ok w) b -> vm_Xor a b w = Done rs w1 ->
      Forall (delta_ok w1) rs).
Proof.
  intros H. split.
  - destruct (session_inv Enc prog [] _ pool w' (world_ok_fresh r keys)
                (Forall_nil _) H) as (_ & _ & Hpool).
    eapply list.Forall_impl; [exact Hpool|]. intros wire Hw.
    split; [exact Hw|]. eapply delta_ok_pp, Hw.
  - intros a b w rs w1 Hb Hx.
    destruct (vm_Xor_inv _ _ _ _ _ Hb Hx) as [-> Hrs]. exact Hrs.
Qed.

Lemma free_xor_invariant_witness :
  exists pool w',
    session toy_cipher prog0 [] (fresh_world rng0 []) = Done pool w' /\
    length pool = 12%nat /\
    Forall (fun wire =>
              (exists d, key0 w' = Some d /\ lsb d = Some 1 /\ free_xor d wire) /\
              pp_distinct wire) pool.
Proof.
  eexists. eexists. split; [vm_compute; reflexivity|].
  split; [reflexivity|].
  apply (free_xor_invariant toy_cipher prog0 rng0 []).
  vm_compute. reflexivity.
Defined.

(** ** Gate tables *)

Lemma int_wrap_small z : -2 ^ 63 <= z < 2 ^ 63 -> int_wrap z = z.
Proof. intros H. unfold int_wrap. rewrite Z.mod_small; lia. Qed.

Lemma slot2 ka kb la lb :
  lsb ka = Some la -> lsb kb = Some lb -> slot [ka; kb] = Some (2 * la + lb).
Proof.
  intros Ha Hb. unfold slot. simpl. rewrite Ha. simpl. rewrite Hb. simpl.
  destruct (lsb_bit _ _ Ha) as [-> | ->], (lsb_bit _ _ Hb) as [-> | ->];
    reflexivity.
Qed.

Lemma slot1 ka la : lsb ka = Some la -> slot [ka] = Some la.
Proof.
  intros Ha. unfold slot. simpl. rewrite Ha. simpl.
  destruct (lsb_bit _ _ Ha) as [-> | ->]; reflexivity.
Qed.

Lemma row2_total Enc t w a b o x y s p ka kb t' :
  w !! o = Some p -> a !! x = Some ka -> b !! y = Some kb ->
  encrypt_slot Enc t p [ka; kb] = Some t' ->
  row2 Enc t w a b o x y s = Done t' s.
Proof.
  intros Hp Ha Hb Ht. unfold row2, bind, index. rewrite Hp, Ha, Hb. simpl.
  rewrite Ht. reflexivity.
Qed.

Lemma row2_pp Enc t wi ai bi o x y s p ka kb la lb :
  wi !! o = Some p -> ai !! x = Some ka -> bi !! y = Some kb ->
  lsb ka = Some la -> lsb kb = Some lb ->
  (Z.to_nat (2 * la + lb) < length t)%nat ->
  row2 Enc t wi ai bi o x y s =
  Done (<[Z.to_nat (2 * la + lb) := Enc kb (Enc ka p)]> t) s.
Proof.
  intros Hp Ha Hb Hla Hlb Hlen. eapply row2_total; eauto.
  unfold encrypt_slot. rewrite (slot2 _ _ _ _ Hla Hlb). simpl.
  unfold at_int.
  destruct (lsb_bit _ _ Hla) as [-> | ->], (lsb_bit _ _ Hlb) as [-> | ->];
    simpl in *;
    (destruct (lookup_lt_is_Some_2 t _ Hlen) as [c Hc]; rewrite Hc; reflexivity).
Qed.

Lemma pp_distinct_inv wire :
  pp_distinct wire ->
  exists k0 k1 l0, wire = [k0; k1] /\ lsb k0 = Some l0 /\ lsb k1 = Some (1 - l0) /\
                   (l0 = 0 \/ l0 = 1).
Proof.
  destruct wire as [|k0 [|k1 [|? ?]]]; simpl; try contradiction.
  intros (b0 & b1 & H0 & H1 & Hne). exists k0, k1, b0.
  destruct (lsb_bit _ _ H0) as [-> | ->], (lsb_bit _ _ H1) as [-> | ->];
    try contradiction; auto.
Qed.

(** The four writes of a gate, on wires whose labels differ in their low
    bit. *)
Lemma gate_rows Enc (g : gate) (ai bi : Wire) (w0 w1 : Key) :
  pp_distinct ai -> pp_distinct bi ->
  exists t,
    table_ok Enc g ai bi [w0; w1] t /\
    forall B (k : GarbledTable -> M World B) s,
    (let wi := [w0; w1] in
     let t := replicate 4 [] in
     let* t := row2 Enc t wi ai bi (Nat.b2n (truth g false false)) 0 0 in
     let* t := row2 Enc t wi ai bi (Nat.b2n (truth g false true)) 0 1 in
     let* t := row2 Enc t wi ai bi (Nat.b2n (truth g true false)) 1 0 in
     let* t := row2 Enc t wi ai bi (Nat.b2n (truth g true true)) 1 1 in
     k t) s = k t s.
Proof.
  intros Ha Hb.
  destruct (pp_distinct_inv _ Ha) as (a0 & a1 & la & -> & Ha0 & Ha1 & Hla).
  destruct (pp_distinct_inv _ Hb) as (b0 & b1 & lb & -> & Hb0 & Hb1 & Hlb).
  assert (Hs : forall x y : bool,
             slot [nth (Nat.b2n x) [a0; a1] []; nth (Nat.b2n y) [b0; b1] []] =
             Some (2 * (if x then 1 - la else la) + (if y then 1 - lb else lb))).
  { intros [] []; simpl; apply slot2; assumption. }
  pose proof (Hs false false) as H00. pose proof (Hs false true) as H01.
  pose proof (Hs true false) as H10. pose proof (Hs true true) as H11.
  assert (Hrun : exists t,
    (forall B (k : GarbledTable -> M World B) s,
    (let wi := [w0; w1] in
     let t := replicate 4 [] in
     let* t := row2 Enc t wi [a0; a1] [b0; b1] (Nat.b2n (truth g false false)) 0 0 in
     let* t := row2 Enc t wi [a0; a1] [b0; b1] (Nat.b2n (truth g false true)) 0 1 in
     let* t := row2 Enc t wi [a0; a1] [b0; b1] (Nat.b2n (truth g true false)) 1 0 in
     let* t := row2 Enc t wi [a0; a1] [b0; b1] (Nat.b2n (truth g true true)) 1 1 in
     k t) s = k t s) /\
    length t = 4%nat /\
    forall x y : bool,
      at_int t (2 * (if x then 1 - la else la) + (if y then 1 - lb else lb)) =
      Some (Enc (nth (Nat.b2n y) [b0; b1] [])
              (Enc (nth (Nat.b2n x) [a0; a1] [])
                 (nth (Nat.b2n (truth g x y)) [w0; w1] [])))).
  { clear Hs H00 H01 H10 H11.
    destruct g, Hla as [-> | ->], Hlb as [-> | ->];
      (eexists; split;
       [intros B k s; cbn zeta; unfold bind;
        do 4 (erewrite row2_pp;
              [ | reflexivity | reflexivity | reflexivity
                | eassumption | eassumption | simpl; lia ];
              cbn beta iota);
        reflexivity
       |split; [reflexivity|intros [] []; reflexivity]]). }
  destruct Hrun as (t & Hrun & Hlen & Hslots).
  exists t. split; [|exact Hrun].
  split; [exact Hlen|split].
  - intros x y.
    exists (nth (Nat.b2n x) [a0; a1] []), (nth (Nat.b2n y) [b0; b1] []),
           (nth (Nat.b2n (truth g x y)) [w0; w1] []).
    eexists. split; [destruct x; reflexivity|].
    split; [destruct y; reflexivity|].
    split; [destruct g, x, y; reflexivity|].
    split; [apply Hs|]. apply Hslots.
  - intros x y x' y' ka kb ka' kb' Hka Hkb Hka' Hkb'.
    assert (ka = nth (Nat.b2n x) [a0; a1] []) as ->
      by (destruct x; simpl in *; congruence).
    assert (kb = nth (Nat.b2n y) [b0; b1] []) as ->
      by (destruct y; simpl in *; congruence).
    assert (ka' = nth (Nat.b2n x') [a0; a1] []) as ->
      by (destruct x'; simpl in *; congruence).
    assert (kb' = nth (Nat.b2n y') [b0; b1] []) as ->
      by (destruct y'; simpl in *; congruence).
    rewrite !Hs. intros [= Heq].
    destruct x, y, x', y', Hla as [-> | ->], Hlb as [-> | ->];
      first [split; reflexivity | lia].
Qed.

Lemma vm_gate_unfold Enc g a b :
  length a = length b ->
  vm_gate Enc g a b = for_range (length a) 0 (gate_body Enc g a b).
Proof.
  intros Hlen. destruct g; unfold vm_gate, vm_And, vm_Or;
    rewrite Hlen, Nat.eqb_refl; reflexivity.
Qed.

Lemma genWire_fresh w r w' :
  world_ok w -> genWire w = Done r w' -> fresh_in w w' r.
Proof.
  intros Hok Hrun.
  destruct (genWire_spec w Hok) as (d & pos & Hrun0 & Hpos & _).
  cbn zeta in Hrun0. rewrite Hrun0 in Hrun. injection Hrun as <- <-.
  exists pos. split; [exact Hpos|]. split; [simpl; lia|reflexivity].
Qed.

Lemma fresh_in_later w s s' r :
  fresh_in w s r -> later s s' -> fresh_in w s' r.
Proof.
  intros (pos & H1 & H2 & H3) (_ & _ & Hc & _).
  exists pos. split; [exact H1|]. split; [lia|exact H3].
Qed.

Lemma fresh_in_from w s s' r :
  later w s -> fresh_in s s' r -> fresh_in w s' r.
Proof.
  intros (_ & Ht & Hc & _) (pos & H1 & H2 & H3).
  exists pos. split; [lia|]. split; [exact H2|]. rewrite <- Ht. exact H3.
Qed.

(** One iteration of a gate, on input wires whose labels differ in their
    low bit. *)
Lemma gate_body_total Enc g a b i ai bi s :
  world_ok s -> a !! i = Some ai -> b !! i = Some bi ->
  pp_distinct ai -> pp_distinct bi ->
  exists wi s1 t,
    genWire s = Done wi s1 /\
    gate_body Enc g a b i s = Done wi (add_event (EvSendT t) s1) /\
    table_ok Enc g ai bi wi t.
Proof.
  intros Hok Hai Hbi Ha Hb.
  destruct (genWire_spec s Hok) as (d & pos & Hrun & _). cbn zeta in Hrun.
  destruct (gate_rows Enc g ai bi (map (tape (rng s)) (seq pos KEY_SIZE))
              (zip_with Z.lxor (map (tape (rng s)) (seq pos KEY_SIZE)) d) Ha Hb)
    as (t & Htable & Hrows).
  eexists _, _, t. split; [exact Hrun|]. split; [|exact Htable].
  unfold gate_body, bind at 1 2 3, index. rewrite Hai, Hbi. simpl lift.
  unfold ret at 1 2. rewrite Hrun. cbn zeta in Hrows. rewrite Hrows.
  reflexivity.
Qed.

Lemma lookup_map_EvSendT (tables : list GarbledTable) (pre : list Event) i t :
  (pre ++ map EvSendT tables) !! (length pre + i)%nat = Some (EvSendT t) ->
  tables !! i = Some t.
Proof.
  rewrite lookup_app_r by lia.
  replace (length pre + i - length pre)%nat with i by lia.
  rewrite list_lookup_fmap. destruct (tables !! i); simpl; congruence.
Qed.

(** C1, as the code has it: on input wires whose two labels differ in
    their low bit, [And] (respectively [Or]) returns one wire per index, each
    read from the random tape during the call and in free-XOR relation to
    [key0], and sends one table per index and nothing else; the table has
    four slots, and for the input bits [(x, y)] the slot at the two low
    bits of the labels [a[i][x]], [b[i][y]] holds
    [Encrypt(b[i][y], Encrypt(a[i][x], w[x AND y]))] (respectively
    [w[x OR y]]): the label of [a] is the inner layer.  The four rows are at
    four different slots. *)
Theorem gate_garbled_table Enc (g : gate) (a b : list Wire) (w : World) :
  world_ok w -> length a = length b ->
  Forall pp_distinct a -> Forall pp_distinct b ->
  exists res tables w',
    vm_gate Enc g a b w = Done res w' /\
    trace w' = trace w ++ map EvSendT tables /\
    inbox w' = inbox w /\
    length res = length a /\ length tables = length a /\
    forall i ai bi wi t,
      a !! i = Some ai -> b !! i = Some bi ->
      res !! i = Some wi -> tables !! i = Some t ->
      is_wire wi /\ fresh_in w w' wi /\ delta_ok w' wi /\
      table_ok Enc g ai bi wi t.
Proof.
  intros Hok Hlen Ha Hb. rewrite vm_gate_unfold by exact Hlen.
  destruct (for_range_total
    (fun i s => world_ok s /\ later w s /\ inbox s = inbox w /\
       exists tables, trace s = trace w ++ map EvSendT tables /\
                      length tables = i)
    later
    (fun i r s => is_wire r /\ fresh_in w s r /\ delta_ok s r /\
       exists t, trace s !! (length (trace w) + i)%nat = Some (EvSendT t) /\
         forall ai bi, a !! i = Some ai -> b !! i = Some bi ->
                       table_ok Enc g ai bi r t)
    later_refl later_trans) with (n := length a) (from := 0%nat)
    (body := gate_body Enc g a b) (s := w)
    as (res & w' & Hrun & Hinv & _ & Hres & Hpost).
  - intros i r s s' (Hw & Hf & Hd & t & Ht & Htab) Hl.
    split; [exact Hw|]. split; [eapply fresh_in_later; eauto|].
    split; [eapply delta_ok_later; eauto|].
    exists t. split; [|exact Htab].
    destruct Hl as (_ & _ & _ & ext & ->). apply lookup_app_l_Some, Ht.
  - intros i s Hi (Hs & Hl & Hin & tables & Htr & Htl).
    destruct (lookup_lt_is_Some_2 a i ltac:(lia)) as [ai Hai].
    destruct (lookup_lt_is_Some_2 b i ltac:(lia)) as [bi Hbi].
    destruct (gate_body_total Enc g a b i ai bi s Hs Hai Hbi)
      as (wi & s1 & t & Hgen & Hbody & Htab).
    { rewrite list.Forall_lookup in Ha. eauto. }
    { rewrite list.Forall_lookup in Hb. eauto. }
    destruct (genWire_Done _ _ _ Hs Hgen)
      as (Hs1 & Hl1 & Hd1 & Hw1 & Htr1 & Hin1 & _).
    pose proof (genWire_fresh _ _ _ Hs Hgen) as Hf1.
    exists wi, (add_event (EvSendT t) s1).
    split; [exact Hbody|]. split; [|split].
    + split; [exact Hs1|]. split.
      { eapply later_trans; [exact Hl|]. eapply later_trans; [exact Hl1|].
        apply later_add_event. }
      split; [simpl; congruence|].
      exists (tables ++ [t]). simpl. rewrite Htr1, Htr, map_app, length_app.
      simpl. rewrite <- app_assoc. split; [reflexivity|lia].
    + eapply later_trans; [exact Hl1|apply later_add_event].
    + split; [exact Hw1|]. split.
      { eapply fresh_in_later; [|apply later_add_event].
        eapply fresh_in_from; eauto. }
      split; [exact Hd1|]. exists t. split.
      * simpl. rewrite Htr1, Htr. rewrite lookup_app_r; rewrite length_app, length_map; [|lia].
        replace (length (trace w) + i - (length (trace w) + length tables))%nat
          with 0%nat by lia. reflexivity.
      * intros ai' bi' Hai' Hbi'. congruence.
  - split; [exact Hok|]. split; [apply later_refl|]. split; [reflexivity|].
    exists []. simpl. rewrite app_nil_r. auto.
  - destruct Hinv as (Hok' & Hl' & Hin' & tables & Htr' & Htl').
    exists res, tables, w'. split; [exact Hrun|]. split; [exact Htr'|].
    split; [exact Hin'|]. split; [exact Hres|]. split; [exact Htl'|].
    intros i ai bi wi t Hai Hbi Hwi Ht.
    destruct (Hpost i wi Hwi) as (Hw & Hf & Hd & t' & Ht' & Htab).
    simpl in Ht'. rewrite Htr' in Ht'. apply lookup_map_EvSendT in Ht'.
    assert (t' = t) as -> by congruence.
    split; [exact Hw|]. split; [exact Hf|]. split; [exact Hd|].
    apply Htab; assumption.
Qed.

Lemma pp_distinct_wire_a : pp_distinct wire_a.
Proof. exists 0, 1. repeat split. discriminate. Qed.

Lemma pp_distinct_wire_b : pp_distinct wire_b.
Proof. exists 1, 0. repeat split. discriminate. Qed.

Lemma gate_garbled_table_witness :
  exists res tables w',
    vm_gate toy_cipher GAnd [wire_a] [wire_b] (fresh_world rng0 []) = Done res w' /\
    trace w' = trace (fresh_world rng0 []) ++ map EvSendT tables /\
    inbox w' = inbox (fresh_world rng0 []) /\
    length res = length [wire_a] /\ length tables = length [wire_a] /\
    forall i ai bi wi t,
      [wire_a] !! i = Some ai -> [wire_b] !! i = Some bi ->
      res !! i = Some wi -> tables !! i = Some t ->
      is_wire wi /\ fresh_in (fresh_world rng0 []) w' wi /\ delta_ok w' wi /\
      table_ok toy_cipher GAnd ai bi wi t.
Proof.
  apply (gate_garbled_table toy_cipher GAnd [wire_a] [wire_b]
           (fresh_world rng0 [])).
  - apply world_ok_fresh.
  - reflexivity.
  - repeat constructor. apply pp_distinct_wire_a.
  - repeat constructor. apply pp_distinct_wire_b.
Defined.

(** C1 as stated fails on the code in two ways.  First, on wires that
    satisfy the free-XOR precondition, with a cipher whose layers do not
    commute: the slot of the row (0, 0) does not hold
    [Encrypt(a[0], Encrypt(b[0], w[0]))], the layers are the other way
    round.  Second, on an input wire whose two labels have the same low
    bit: the rows (0, 0) and (1, 0) go to one slot, and the row (0, 0),
    written first, is no longer there, in either order of the layers. *)
Lemma gate_table_counterexample :
  (exists w0 w1 t w' s,
     vm_And toy_cipher [wire_a] [wire_b] (fresh_world rng0 []) =
       Done [[w0; w1]] w' /\
     trace w' = [EvSendT t] /\
     slot [key_a; key_b] = Some s /\
     at_int t s <> Some (toy_cipher key_a (toy_cipher key_b w0)) /\
     at_int t s = Some (toy_cipher key_b (toy_cipher key_a w0))) /\
  (exists w0 w1 t w' s,
     vm_And toy_cipher [wire_same_bit] [wire_b] (fresh_world rng0 []) =
       Done [[w0; w1]] w' /\
     trace w' = [EvSendT t] /\
     slot [key_a; key_b] = Some s /\
     at_int t s <> Some (toy_cipher key_a (toy_cipher key_b w0)) /\
     at_int t s <> Some (toy_cipher key_b (toy_cipher key_a w0))).
Proof.
  split.
  - do 5 eexists. split; [vm_compute; reflexivity|].
    split; [reflexivity|]. split; [reflexivity|].
    split; [vm_compute; discriminate|reflexivity].
  - do 5 eexists. split; [vm_compute; reflexivity|].
    split; [reflexivity|]. split; [reflexivity|].
    split; vm_compute; discriminate.
Qed.

(** ** Reveal to the evaluator *)

Lemma set_byte0_total (w : Wire) j v k x s :
  w !! j = Some k -> k !! 0%nat = Some x ->
  set_byte0 w j v s = Done (<[j := <[0%nat := v]> k]> w) s.
Proof.
  intros Hk Hx. unfold set_byte0, bind, index. rewrite Hk. simpl.
  rewrite Hx. reflexivity.
Qed.

Lemma row1_pp Enc t wi ai o s p ka la :
  wi !! o = Some p -> ai !! o = Some ka -> lsb ka = Some la ->
  (Z.to_nat la < length t)%nat ->
  row1 Enc t wi ai o s = Done (<[Z.to_nat la := Enc ka p]> t) s.
Proof.
  intros Hp Ha Hla Hlen. unfold row1, bind, index. rewrite Hp, Ha. simpl.
  unfold encrypt_slot. rewrite (slot1 _ _ Hla). simpl. unfold at_int.
  destruct (lsb_bit _ _ Hla) as [-> | ->]; simpl in *;
    (destruct (lookup_lt_is_Some_2 t _ Hlen) as [c Hc]; rewrite Hc; reflexivity).
Qed.

Section Reveal.

Variable gc_Encrypt gc_Decrypt : Key -> list Z -> list Z.
Hypothesis Decrypt_Encrypt :
  forall k p, length p = KEY_SIZE -> gc_Decrypt k (gc_Encrypt k p) = p.

(** The two writes of a reveal table, on a wire whose labels differ in
    their low bit. *)
Lemma reveal_rows (ai : Wire) (p0 p1 : Key) :
  pp_distinct ai -> length p0 = KEY_SIZE -> length p1 = KEY_SIZE ->
  exists t,
    length t = 2%nat /\
    (forall v : bool, exists kv lv,
        ai !! Nat.b2n v = Some kv /\ lsb kv = Some lv /\
        at_int t lv = Some (gc_Encrypt kv (nth (Nat.b2n v) [p0; p1] [])) /\
        Decrypt gc_Decrypt t [kv] = Some (nth (Nat.b2n v) [p0; p1] [])) /\
    forall B (k : GarbledTable -> M World B) s,
      (let* t := row1 gc_Encrypt (replicate 2 []) [p0; p1] ai 0 in
       let* t := row1 gc_Encrypt t [p0; p1] ai 1 in
       k t) s = k t s.
Proof.
  intros Ha Hp0 Hp1.
  destruct (pp_distinct_inv _ Ha) as (a0 & a1 & la & -> & Ha0 & Ha1 & Hla).
  exists (<[Z.to_nat (1 - la) := gc_Encrypt a1 p1]>
            (<[Z.to_nat la := gc_Encrypt a0 p0]> (replicate 2 []))).
  split; [|split].
  - rewrite !length_insert. reflexivity.
  - intros v.
    exists (nth (Nat.b2n v) [a0; a1] []), (if v then 1 - la else la).
    split; [destruct v; reflexivity|].
    split; [destruct v; assumption|].
    assert (Hat : at_int (<[Z.to_nat (1 - la) := gc_Encrypt a1 p1]>
                     (<[Z.to_nat la := gc_Encrypt a0 p0]> (replicate 2 [])))
                    (if v then 1 - la else la) =
                  Some (gc_Encrypt (nth (Nat.b2n v) [a0; a1] [])
                          (nth (Nat.b2n v) [p0; p1] []))).
    { destruct v, Hla as [-> | ->]; reflexivity. }
    split; [exact Hat|].
    unfold Decrypt. rewrite (slot1 _ (if v then 1 - la else la)).
    + cbn [mbind option_bind]. rewrite Hat. cbn [mbind option_bind].
      unfold decrypt. cbn [rev app fold_left].
      rewrite Decrypt_Encrypt; [reflexivity|destruct v; assumption].
    + destruct v; assumption.
  - intros B k s. unfold bind.
    erewrite row1_pp; [ | reflexivity | reflexivity | eassumption
                        | destruct Hla as [-> | ->]; simpl; lia ].
    cbn beta iota.
    erewrite row1_pp; [ | reflexivity | reflexivity | eassumption
                        | destruct Hla as [-> | ->]; simpl; lia ].
    reflexivity.
Qed.

(** The loop body of [RevealTo1]. *)
Lemma reveal_body_total (a : list Wire) i ai s :
  world_ok s -> a !! i = Some ai -> pp_distinct ai ->
  exists s1 t,
    (let t := replicate 2 [] in
     let* w := genWire in
     let* w := set_byte0 w 0 0 in
     let* w := set_byte0 w 1 1 in
     let* ai := index a i in
     let* t := row1 gc_Encrypt t w ai 0 in
     let* t := row1 gc_Encrypt t w ai 1 in
     SendT t) s = Done tt (add_event (EvSendT t) s1) /\
    world_ok s1 /\ later s s1 /\ trace s1 = trace s /\ inbox s1 = inbox s /\
    reveal_ok gc_Encrypt gc_Decrypt s s1 ai t.
Proof.
  intros Hok Hai Ha.
  destruct (genWire_spec s Hok) as (d & pos & Hrun & Hpos & Hd & Hlsb & Hsame).
  cbn zeta in Hrun.
  destruct (genWire_Done _ _ _ Hok Hrun)
    as (Hs1 & Hl1 & Hd1 & Hw1 & Htr1 & Hin1 & _).
  pose proof (genWire_fresh _ _ _ Hok Hrun) as Hf1.
  set (k0 := map (tape (rng s)) (seq pos KEY_SIZE)) in *.
  set (k1 := zip_with Z.lxor k0 d) in *.
  destruct Hw1 as [Hk0 Hk1]. unfold is_key in Hk0, Hk1.
  destruct k0 as [|x0 k0']; [discriminate|].
  destruct k1 as [|x1 k1']; [discriminate|].
  destruct (reveal_rows ai (<[0%nat := 0]> (x0 :: k0')) (<[0%nat := 1]> (x1 :: k1')) Ha)
    as (t & Hlen & Hslots & Hrows).
  { rewrite length_insert. exact Hk0. }
  { rewrite length_insert. exact Hk1. }
  eexists _, t. split; [|split; [exact Hs1|split; [exact Hl1|split;
    [exact Htr1|split; [exact Hin1|]]]]].
  - cbn zeta. unfold bind at 1. rewrite Hrun.
    unfold bind at 1. erewrite set_byte0_total by reflexivity.
    unfold bind at 1. erewrite set_byte0_total by reflexivity.
    unfold bind at 1, index. rewrite Hai. simpl lift. unfold ret at 1.
    simpl. simpl in Hrows. rewrite Hrows. reflexivity.
  - split; [exact Hlen|].
    exists [x0 :: k0'; x1 :: k1']. split; [split; assumption|].
    split; [exact Hf1|]. split; [exact Hd1|].
    intros v. destruct (Hslots v) as (kv & lv & Hkv & Hlv & Hat & Hdec).
    exists kv, lv, (nth (Nat.b2n v) [x0 :: k0'; x1 :: k1'] []).
    split; [exact Hkv|]. split; [exact Hlv|].
    split; [destruct v; reflexivity|].
    destruct v; simpl in *; auto.
Qed.

End Reveal.

Lemma reveal_ok_later Enc Dec w s s' ai t :
  reveal_ok Enc Dec w s ai t -> later s s' -> reveal_ok Enc Dec w s' ai t.
Proof.
  intros (Hlen & wi & Hw & Hf & Hd & Hv) Hl. split; [exact Hlen|].
  exists wi. split; [exact Hw|]. split; [eapply fresh_in_later; eauto|].
  split; [eapply delta_ok_later; eauto|exact Hv].
Qed.

Lemma reveal_ok_from Enc Dec w s s' ai t :
  later w s -> reveal_ok Enc Dec s s' ai t -> reveal_ok Enc Dec w s' ai t.
Proof.
  intros Hl (Hlen & wi & Hw & Hf & Hd & Hv). split; [exact Hlen|].
  exists wi. split; [exact Hw|]. split; [eapply fresh_in_from; eauto|].
  split; assumption.
Qed.

(** C6, as the code has it: on wires whose two labels differ in their low
    bit, [RevealTo1] returns nothing and sends one table per wire and
    nothing else; the table has two slots and, for each value [v], the slot
    at the low bit of the label [a[i][v]] decrypts under that one label to
    a block whose byte 0 is [v].  The block is a label of a wire from
    [genWire] with its byte 0 overwritten; that wire is not returned. *)
Theorem reveal_to_evaluator (Enc Dec : Key -> list Z -> list Z)
    (a : list Wire) (w : World) :
  (forall k p, length p = KEY_SIZE -> Dec k (Enc k p) = p) ->
  world_ok w -> Forall pp_distinct a ->
  exists tables w',
    vm_RevealTo1 Enc a w = Done tt w' /\
    trace w' = trace w ++ map EvSendT tables /\
    inbox w' = inbox w /\
    length tables = length a /\
    forall i ai t,
      a !! i = Some ai -> tables !! i = Some t ->
      reveal_ok Enc Dec w w' ai t.
Proof.
  intros Hrt Hok Ha. unfold vm_RevealTo1.
  destruct (for_range_total
    (fun i s => world_ok s /\ later w s /\ inbox s = inbox w /\
       exists tables, trace s = trace w ++ map EvSendT tables /\
                      length tables = i)
    later
    (fun i (_ : unit) s =>
       exists t, trace s !! (length (trace w) + i)%nat = Some (EvSendT t) /\
         forall ai, a !! i = Some ai -> reveal_ok Enc Dec w s ai t)
    later_refl later_trans) with (n := length a) (from := 0%nat)
    (body := fun i =>
       let t := replicate 2 [] in
       let* w := genWire in
       let* w := set_byte0 w 0 0 in
       let* w := set_byte0 w 1 1 in
       let* ai := index a i in
       let* t := row1 Enc t w ai 0 in
       let* t := row1 Enc t w ai 1 in
       SendT t) (s := w)
    as (res & w' & Hrun & Hinv & _ & Hres & Hpost).
  - intros i r s s' (t & Ht & Htab) Hl. exists t. split.
    + destruct Hl as (_ & _ & _ & ext & ->). apply lookup_app_l_Some, Ht.
    + intros ai Hai. eapply reveal_ok_later; eauto.
  - intros i s Hi (Hs & Hl & Hin & tables & Htr & Htl).
    destruct (lookup_lt_is_Some_2 a i ltac:(lia)) as [ai Hai].
    destruct (reveal_body_total Enc Dec Hrt a i ai s Hs Hai)
      as (s1 & t & Hbody & Hs1 & Hl1 & Htr1 & Hin1 & Hrev).
    { rewrite list.Forall_lookup in Ha. eauto. }
    exists tt, (add_event (EvSendT t) s1).
    split; [exact Hbody|]. split; [|split].
    + split; [exact Hs1|]. split.
      { eapply later_trans; [exact Hl|]. eapply later_trans; [exact Hl1|].
        apply later_add_event. }
      split; [simpl; congruence|].
      exists (tables ++ [t]). simpl. rewrite Htr1, Htr, map_app, length_app.
      simpl. rewrite <- app_assoc. split; [reflexivity|lia].
    + eapply later_trans; [exact Hl1|apply later_add_event].
    + exists t. split.
      * simpl. rewrite Htr1, Htr.
        rewrite lookup_app_r; rewrite length_app, length_map; [|lia].
        replace (length (trace w) + i - (length (trace w) + length tables))%nat
          with 0%nat by lia. reflexivity.
      * intros ai' Hai'. assert (ai' = ai) as -> by congruence.
        eapply reveal_ok_later; [|apply later_add_event].
        eapply reveal_ok_from; eauto.
  - split; [exact Hok|]. split; [apply later_refl|]. split; [reflexivity|].
    exists []. simpl. rewrite app_nil_r. auto.
  - destruct Hinv as (Hok' & Hl' & Hin' & tables & Htr' & Htl').
    exists tables, w'. split.
    { unfold bind at 1. cbn zeta in Hrun |- *. rewrite Hrun. reflexivity. }
    split; [exact Htr'|]. split; [exact Hin'|]. split; [exact Htl'|].
    intros i ai t Hai Ht.
    assert (Hi : is_Some (res !! i)).
    { apply lookup_lt_is_Some_2. rewrite Hres. eapply lookup_lt_Some, Hai. }
    destruct Hi as [[] Hri].
    destruct (Hpost i tt Hri) as (t' & Ht' & Htab).
    simpl in Ht'. rewrite Htr' in Ht'. apply lookup_map_EvSendT in Ht'.
    assert (t' = t) as -> by congruence. apply Htab, Hai.
Qed.

Lemma reveal_to_evaluator_witness :
  exists tables w',
    vm_RevealTo1 toy_cipher [wire_a; wire_b] (fresh_world rng0 []) = Done tt w' /\
    trace w' = trace (fresh_world rng0 []) ++ map EvSendT tables /\
    inbox w' = inbox (fresh_world rng0 []) /\
    length tables = length [wire_a; wire_b] /\
    forall i ai t,
      [wire_a; wire_b] !! i = Some ai -> tables !! i = Some t ->
      reveal_ok toy_cipher toy_cipher (fresh_world rng0 []) w' ai t.
Proof.
  apply (reveal_to_evaluator toy_cipher toy_cipher [wire_a; wire_b]
           (fresh_world rng0 [])).
  - intros k p _. apply toy_cipher_involutive.
  - apply world_ok_fresh.
  - repeat constructor; [apply pp_distinct_wire_a|apply pp_distinct_wire_b].
Defined.

(** C6 as stated fails on a wire whose two labels have the same low bit:
    both rows go to one slot, the row of the value 1 is written last, and
    the slot read with the label of the value 0 decrypts to a block whose
    byte 0 is not 0. *)
Lemma reveal_counterexample :
  exists t w' p,
    vm_RevealTo1 toy_cipher [wire_same_bit] (fresh_world rng0 []) = Done tt w' /\
    trace w' = [EvSendT t] /\
    wire_same_bit !! 0%nat = Some key_a /\
    Decrypt toy_cipher t [key_a] = Some p /\
    p !! 0%nat <> Some 0.
Proof.
  do 3 eexists. split; [vm_compute; reflexivity|].
  split; [reflexivity|]. split; [reflexivity|].
  split; [vm_compute; reflexivity|vm_compute; discriminate].
Qed.

(** ** Reveal to the generator *)

(** Some iteration panics whatever the state, the others return or panic:
    the loop panics. *)
Lemma for_range_panics {S A} (Inv : nat -> S -> Prop) n from
    (body : nat -> M S A) s j :
  (forall i s, (from <= i < from + n)%nat -> Inv i s ->
     (exists r s', body i s = Done r s' /\ Inv (Datatypes.S i) s') \/
     (exists msg s', body i s = Panic msg s')) ->
  (from <= j < from + n)%nat ->
  (forall s, Inv j s -> exists msg s', body j s = Panic msg s') ->
  Inv from s ->
  exists msg s', for_range n from body s = Panic msg s'.
Proof.
  revert from s. induction n as [|n IH]; intros from s Hbody Hj Hbad Hinv.
  - lia.
  - simpl. unfold bind.
    destruct (Nat.eq_dec j from) as [->|Hne].
    + destruct (Hbad s Hinv) as (msg & s' & ->). eauto.
    + destruct (Hbody from s ltac:(lia) Hinv)
        as [(r & s1 & -> & Hinv1) | (msg & s1 & ->)]; [|eauto].
      destruct (IH (Datatypes.S from) s1) as (msg & s2 & ->); eauto.
      * intros i s0 Hi. apply Hbody. lia.
      * lia.
Qed.

Lemma reveal0_body (a : list Wire) i k0 k1 k rest s :
  a !! i = Some [k0; k1] -> inbox s = k :: rest ->
  (let* ai := index a i in
   let* k := RecvK2 in
   let* bit := resolveKey ai k in
   if bit =? 0 then ret false else ret true) s =
  if bool_decide (k = k0) then Done false (received k rest s)
  else if bool_decide (k = k1) then Done true (received k rest s)
  else Panic "resolveKey(): key and wire mismatch" (received k rest s).
Proof.
  intros Hai Hin. unfold bind at 1, index. rewrite Hai. simpl lift.
  unfold ret at 1. unfold bind at 1, RecvK2. rewrite Hin.
  fold (received k rest s). unfold bind at 1, resolveKey, bind at 1, index.
  simpl lift. unfold ret at 1.
  destruct (bool_decide (k = k0)); [reflexivity|].
  unfold bind at 1. simpl lift. unfold ret at 1.
  destruct (bool_decide (k = k1)); reflexivity.
Qed.

Lemma drop_lookup_cons {A} (l : list A) i x :
  l !! i = Some x -> drop i l = x :: drop (Datatypes.S i) l.
Proof.
  revert i. induction l as [|y l IH]; intros [|i] H; simpl in *; try discriminate.
  - injection H as ->. rewrite drop_0. reflexivity.
  - apply IH, H.
Qed.

Lemma take_lookup_snoc {A} (l : list A) i x :
  l !! i = Some x -> take (Datatypes.S i) l = take i l ++ [x].
Proof.
  revert i. induction l as [|y l IH]; intros [|i] H; simpl in *; try discriminate.
  - injection H as ->. rewrite take_0. reflexivity.
  - f_equal. apply IH, H.
Qed.

(** C7, as the code has it: [RevealTo0] receives one key per wire, in order.
    When every received key is one of the two labels of its wire, the
    result at index [i] is [false] if the key equals [a[i].k0], and [true]
    if it equals [a[i].k1] and not [a[i].k0] ([k0] is compared first).  When
    some received key is neither label of its wire, the call panics. *)
Theorem reveal_to_generator (a : list Wire) (keys rest : list Key) (w : World) :
  Forall is_wire a -> length keys = length a -> inbox w = keys ++ rest ->
  ((forall i ai k, a !! i = Some ai -> keys !! i = Some k ->
      ai !! 0%nat = Some k \/ ai !! 1%nat = Some k) ->
   exists res w',
     vm_RevealTo0 a w = Done res w' /\
     inbox w' = rest /\ trace w' = trace w ++ map EvRecvK2 keys /\
     length res = length a /\
     forall i ai k r,
       a !! i = Some ai -> keys !! i = Some k -> res !! i = Some r ->
       (ai !! 0%nat = Some k -> r = false) /\
       (ai !! 1%nat = Some k -> ai !! 0%nat <> Some k -> r = true)) /\
  ((exists i ai k, a !! i = Some ai /\ keys !! i = Some k /\
      ai !! 0%nat <> Some k /\ ai !! 1%nat <> Some k) ->
   exists msg w', vm_RevealTo0 a w = Panic msg w').
Proof.
  intros Ha Hlen Hin. unfold vm_RevealTo0.
  set (Inv := fun (i : nat) (s : World) =>
         inbox s = drop i keys ++ rest /\
         trace s = trace w ++ map EvRecvK2 (take i keys)).
  assert (Hinv0 : Inv 0%nat w).
  { split; [rewrite drop_0; exact Hin|]. rewrite take_0. simpl.
    symmetry. apply app_nil_r. }
  assert (Hstep : forall i s k0 k1 k,
             a !! i = Some [k0; k1] -> keys !! i = Some k -> Inv i s ->
             inbox s = k :: (drop (Datatypes.S i) keys ++ rest) /\
             Inv (Datatypes.S i) (received k (drop (Datatypes.S i) keys ++ rest) s)).
  { intros i s k0 k1 k Hai Hk [Hi Ht].
    rewrite (drop_lookup_cons _ _ _ Hk) in Hi. split; [exact Hi|].
    split; [reflexivity|]. simpl. rewrite Ht, (take_lookup_snoc _ _ _ Hk).
    rewrite map_app, <- app_assoc. reflexivity. }
  split.
  - intros Hgood.
    destruct (for_range_total Inv (fun _ _ => True%type)
      (fun i r (_ : World) => forall ai k,
         a !! i = Some ai -> keys !! i = Some k ->
         (ai !! 0%nat = Some k -> r = false) /\
         (ai !! 1%nat = Some k -> ai !! 0%nat <> Some k -> r = true))
      (fun _ => I) (fun _ _ _ _ _ => I) (fun _ _ _ _ H _ => H))
      with (n := length a) (from := 0%nat)
      (body := fun i =>
         let* ai := index a i in
         let* k := RecvK2 in
         let* bit := resolveKey ai k in
         if bit =? 0 then ret false else ret true) (s := w)
      as (res & w' & Hrun & [Hin' Htr'] & _ & Hres & Hpost); [|exact Hinv0|].
    + intros i s Hi Hs.
      destruct (lookup_lt_is_Some_2 a i ltac:(lia)) as [ai Hai].
      destruct (lookup_lt_is_Some_2 keys i ltac:(lia)) as [k Hk].
      destruct (is_wire_lookup a i ai Ha Hai) as (k0 & k1 & -> & _).
      destruct (Hstep i s k0 k1 k Hai Hk Hs) as [Hins Hnext].
      rewrite (reveal0_body a i k0 k1 k _ s Hai Hins).
      destruct (bool_decide_reflect (k = k0)) as [->|Hne0].
      * eexists _, _. split; [reflexivity|]. split; [exact Hnext|].
        split; [exact I|]. intros ai' k' Hai' Hk'.
        assert (ai' = [k0; k1]) as -> by congruence.
        assert (k' = k0) as -> by congruence.
        split; [reflexivity|]. intros _ Hne. exfalso. apply Hne. reflexivity.
      * destruct (bool_decide_reflect (k = k1)) as [->|Hne1].
        -- eexists _, _. split; [reflexivity|]. split; [exact Hnext|].
           split; [exact I|]. intros ai' k' Hai' Hk'.
           assert (ai' = [k0; k1]) as -> by congruence.
           assert (k' = k1) as -> by congruence.
           split; [|reflexivity]. simpl. intros [= Heq]. congruence.
        -- exfalso. destruct (Hgood i [k0; k1] k Hai Hk) as [[= ?]|[= ?]];
             congruence.
    + exists res, w'. split; [exact Hrun|].
      simpl in Hin', Htr'. rewrite <- Hlen in Hin', Htr'.
      rewrite drop_all in Hin'. rewrite firstn_all in Htr'.
      split; [exact Hin'|]. split; [exact Htr'|]. split; [exact Hres|].
      intros i ai k r Hai Hk Hr. apply (Hpost i r Hr ai k Hai Hk).
  - intros (j & aj & kj & Haj & Hkj & Hn0 & Hn1).
    apply (for_range_panics Inv) with (j := j); [| | |exact Hinv0].
    + intros i s Hi Hs.
      destruct (lookup_lt_is_Some_2 a i ltac:(lia)) as [ai Hai].
      destruct (lookup_lt_is_Some_2 keys i ltac:(lia)) as [k Hk].
      destruct (is_wire_lookup a i ai Ha Hai) as (k0 & k1 & -> & _).
      destruct (Hstep i s k0 k1 k Hai Hk Hs) as [Hins Hnext].
      rewrite (reveal0_body a i k0 k1 k _ s Hai Hins).
      destruct (bool_decide (k = k0)); [left; eauto|].
      destruct (bool_decide (k = k1)); [left; eauto|right; eauto].
    + split; [lia|]. eapply lookup_lt_Some, Haj.
    + intros s Hs.
      destruct (is_wire_lookup a j aj Ha Haj) as (k0 & k1 & -> & _).
      destruct (Hstep j s k0 k1 kj Haj Hkj Hs) as [Hins Hnext].
      rewrite (reveal0_body a j k0 k1 kj _ s Haj Hins).
      rewrite bool_decide_false by (intros ->; apply Hn0; reflexivity).
      rewrite bool_decide_false by (intros ->; apply Hn1; reflexivity).
      eauto.
Qed.

Lemma is_wire_wire_a : is_wire wire_a.
Proof. split; reflexivity. Qed.

Lemma is_wire_wire_b : is_wire wire_b.
Proof. split; reflexivity. Qed.

Lemma reveal_to_generator_witness :
  (exists res w',
     vm_RevealTo0 [wire_a; wire_b] (fresh_world rng0 [key_a'; key_b]) =
       Done res w' /\
     inbox w' = [] /\
     trace w' = trace (fresh_world rng0 [key_a'; key_b]) ++
                map EvRecvK2 [key_a'; key_b] /\
     length res = length [wire_a; wire_b] /\
     forall i ai k r,
       [wire_a; wire_b] !! i = Some ai -> [key_a'; key_b] !! i = Some k ->
       res !! i = Some r ->
       (ai !! 0%nat = Some k -> r = false) /\
       (ai !! 1%nat = Some k -> ai !! 0%nat <> Some k -> r = true)) /\
  (exists msg w',
     vm_RevealTo0 [wire_a; wire_b] (fresh_world rng0 [key_a'; key_c]) =
       Panic msg w').
Proof.
  split.
  - apply (reveal_to_generator [wire_a; wire_b] [key_a'; key_b] []
             (fresh_world rng0 [key_a'; key_b])).
    + repeat constructor.
    + reflexivity.
    + reflexivity.
    + intros [|[|i]] ai k Hai Hk; simpl in Hai, Hk; try discriminate;
        injection Hai as <-; injection Hk as <-; [right|left]; reflexivity.
  - apply (reveal_to_generator [wire_a; wire_b] [key_a'; key_c] []
             (fresh_world rng0 [key_a'; key_c])).
    + repeat constructor.
    + reflexivity.
    + reflexivity.
    + exists 1%nat, wire_b, key_c. repeat split; discriminate.
Defined.

(** C7 as stated fails on a wire whose two labels are equal: the received
    key is byte-equal to [k1], and the result is [false]. *)
Lemma reveal_to_generator_counterexample :
  exists w',
    wire_same_key !! 1%nat = Some key_a /\
    vm_RevealTo0 [wire_same_key] (fresh_world rng0 [key_a]) = Done [false] w'.
Proof. eexists. split; reflexivity. Qed.

(** ** Input shapes *)

(** C8, as the code has it: a length mismatch in [And], [Or], [Xor], a
    width below 1 in [Random], a width above 64 in [ShareTo1] and a
    negative width in [ShareTo0] or [ShareTo1] panic with the world as it
    was, so before any IO; a request of width zero to [ShareTo0],
    [ShareTo1], [And], [Or] or [Xor] is no error: it returns the empty
    vector, again without IO. *)
Theorem shape_errors Enc (a b : list Wire) (v bits : Z) (w : World) :
  (length a <> length b ->
     vm_And Enc a b w = Panic "Wire mismatch in gen.And()" w /\
     vm_Or Enc a b w = Panic "Wire mismatch in gen.Or()" w /\
     vm_Xor a b w = Panic "Xor(): mismatch" w) /\
  (bits < 1 -> vm_Random bits w = Panic "Random: bits < 1" w) /\
  (64 < bits -> vm_ShareTo1 v bits w = Panic "BT: bits > 64" w) /\
  (bits < 0 ->
     vm_ShareTo0 bits w = Panic "makeslice: len out of range" w /\
     vm_ShareTo1 v bits w = Panic "makeslice: len out of range" w) /\
  vm_ShareTo0 0 w = Done [] w /\
  vm_ShareTo1 v 0 w = Done [] w /\
  vm_And Enc [] [] w = Done [] w /\
  vm_Or Enc [] [] w = Done [] w /\
  vm_Xor [] [] w = Done [] w.
Proof.
  split; [|split; [|split; [|split]]].
  - intros Hne. apply Nat.eqb_neq in Hne.
    unfold vm_And, vm_Or, vm_Xor. rewrite Hne. auto.
  - intros Hb. unfold vm_Random. apply Z.ltb_lt in Hb. rewrite Hb. reflexivity.
  - intros Hb. unfold vm_ShareTo1. apply Z.ltb_lt in Hb. rewrite Hb. reflexivity.
  - intros Hb. unfold vm_ShareTo0, vm_ShareTo1, make, bind.
    destruct (64 <? bits) eqn:H64; [apply Z.ltb_lt in H64; lia|].
    apply Z.ltb_lt in Hb. rewrite Hb. auto.
  - repeat split; reflexivity.
Qed.

Lemma shape_errors_witness :
  (vm_And toy_cipher [wire_a] [] (fresh_world rng0 []) =
     Panic "Wire mismatch in gen.And()" (fresh_world rng0 []) /\
   vm_Or toy_cipher [wire_a] [] (fresh_world rng0 []) =
     Panic "Wire mismatch in gen.Or()" (fresh_world rng0 []) /\
   vm_Xor [wire_a] [] (fresh_world rng0 []) =
     Panic "Xor(): mismatch" (fresh_world rng0 [])) /\
  vm_Random 0 (fresh_world rng0 []) =
    Panic "Random: bits < 1" (fresh_world rng0 []) /\
  vm_ShareTo1 5 65 (fresh_world rng0 []) =
    Panic "BT: bits > 64" (fresh_world rng0 []) /\
  vm_ShareTo0 (-1) (fresh_world rng0 []) =
    Panic "makeslice: len out of range" (fresh_world rng0 []).
Proof.
  split; [|split; [|split]].
  - apply (shape_errors toy_cipher [wire_a] [] 5 0 (fresh_world rng0 [])).
    simpl. lia.
  - apply (shape_errors toy_cipher [wire_a] [] 5 0 (fresh_world rng0 [])). lia.
  - apply (shape_errors toy_cipher [wire_a] [] 5 65 (fresh_world rng0 [])). lia.
  - apply (shape_errors toy_cipher [wire_a] [] 5 (-1) (fresh_world rng0 [])). lia.
Defined.

(** C8 as stated fails on zero-width requests: [ShareTo0(0)] and [And] on
    two empty vectors return the empty vector. *)
Lemma zero_width_counterexample :
  vm_ShareTo0 0 (fresh_world rng0 []) = Done [] (fresh_world rng0 []) /\
  vm_And toy_cipher [] [] (fresh_world rng0 []) = Done [] (fresh_world rng0 []).
Proof. split; reflexivity. Qed.

(** ** Streams *)

Lemma zip_lxor_zeros n (l : list Z) :
  length l = n -> zip_with Z.lxor (replicate n 0) l = l.
Proof.
  revert n. induction l as [|x l IH]; intros [|n] H; simpl in *; try discriminate;
    auto.
  f_equal. apply IH. lia.
Qed.

Lemma block_length v off n : length (block v off n) = n.
Proof. unfold block. rewrite length_map, length_seq. reflexivity. Qed.

Lemma XORKeyStream_block v buf :
  XORKeyStream v buf =
  (zip_with Z.lxor buf (block v 0 (length buf)),
   mkStream (keystream v) (consumed v + length buf)).
Proof. unfold XORKeyStream, block. rewrite Nat.add_0_r. reflexivity. Qed.

Lemma block_shift v m off n :
  block (mkStream (keystream v) (consumed v + m)) off n = block v (m + off) n.
Proof. unfold block. simpl. rewrite Nat.add_assoc. reflexivity. Qed.

Lemma xor3_blocks v a b c n :
  length a = n -> length b = n -> length c = n ->
  xor3 v (a, b, c) =
  ((zip_with Z.lxor a (block v 0 n), zip_with Z.lxor b (block v n n),
    zip_with Z.lxor c (block v (2 * n) n)),
   mkStream (keystream v) (consumed v + 3 * n)).
Proof.
  intros Ha Hb Hc. unfold xor3.
  rewrite XORKeyStream_block. cbn iota beta.
  rewrite XORKeyStream_block. cbn iota beta.
  rewrite XORKeyStream_block. cbn iota beta.
  rewrite !block_shift. cbn [keystream consumed]. rewrite Ha, Hb, Hc.
  replace (n + (n + 0))%nat with (2 * n)%nat by lia.
  replace (n + 0)%nat with n by lia.
  replace (consumed v + n + n + n)%nat with (consumed v + 3 * n)%nat by lia.
  reflexivity.
Qed.

Lemma range_streams_blocks streams a b c n :
  length a = n -> length b = n -> length c = n ->
  fst (range_streams streams (a, b, c)) =
  (xor_blocks a (map (fun v => block v 0 n) streams),
   xor_blocks b (map (fun v => block v n n) streams),
   xor_blocks c (map (fun v => block v (2 * n) n) streams)).
Proof.
  revert a b c. induction streams as [|v rest IH]; intros a b c Ha Hb Hc.
  - reflexivity.
  - cbn [range_streams]. rewrite (xor3_blocks v a b c n Ha Hb Hc).
    specialize (IH (zip_with Z.lxor a (block v 0 n))
                   (zip_with Z.lxor b (block v n n))
                   (zip_with Z.lxor c (block v (2 * n) n))).
    destruct (range_streams rest _) as [abc rest'] eqn:Hr.
    cbn [fst] in *. rewrite IH; [reflexivity| | |];
      rewrite length_zip_with, block_length; lia.
Qed.

Lemma xor_blocks_length init blocks n :
  length init = n -> Forall (fun bl => length bl = n) blocks ->
  length (xor_blocks init blocks) = n.
Proof.
  intros Hi Hb. revert init Hi. induction Hb as [|bl blocks Hbl _ IH];
    intros init Hi; [exact Hi|].
  change (xor_blocks init (bl :: blocks))
    with (xor_blocks (zip_with Z.lxor init bl) blocks).
  apply IH. rewrite length_zip_with. lia.
Qed.

Lemma nth_zip_lxor (a b : list Z) j :
  length a = length b ->
  nth j (zip_with Z.lxor a b) 0 = Z.lxor (nth j a 0) (nth j b 0).
Proof.
  revert b j. induction a as [|x a IH]; intros [|y b] [|j] H; simpl in *;
    try discriminate; auto.
Qed.

Lemma nth_zip_land (a b : list Z) j :
  length a = length b ->
  nth j (zip_with Z.land a b) 0 = Z.land (nth j a 0) (nth j b 0).
Proof.
  revert b j. induction a as [|x a IH]; intros [|y b] [|j] H; simpl in *;
    try discriminate; auto.
Qed.

Lemma fold_left_lxor (l : list Z) x :
  fold_left Z.lxor l x = Z.lxor x (xor_all l).
Proof.
  revert x. induction l as [|y l IH]; intros x; simpl.
  - symmetry. apply Z.lxor_0_r.
  - rewrite IH. apply Z.lxor_assoc.
Qed.

Lemma nth_xor_blocks init blocks n j :
  length init = n -> Forall (fun bl => length bl = n) blocks ->
  nth j (xor_blocks init blocks) 0 =
  Z.lxor (nth j init 0) (xor_all (map (fun bl => nth j bl 0) blocks)).
Proof.
  intros Hi Hb. revert init Hi. induction Hb as [|bl blocks Hbl _ IH];
    intros init Hi.
  - simpl. symmetry. apply Z.lxor_0_r.
  - change (xor_blocks init (bl :: blocks))
      with (xor_blocks (zip_with Z.lxor init bl) blocks).
    rewrite IH by (rewrite length_zip_with; lia).
    rewrite nth_zip_lxor by congruence. simpl. apply Z.lxor_assoc.
Qed.

Lemma nth_zeros n j : nth j (replicate n 0) 0 = 0.
Proof.
  revert j. induction n as [|n IH]; intros [|j]; simpl; auto.
Qed.

Lemma Forall_blocks (streams : list Stream) off n :
  Forall (fun bl => length bl = n) (map (fun v => block v off n) streams).
Proof.
  apply Forall_map, list.Forall_forall. intros v _. apply block_length.
Qed.

(** ** Slices *)

Lemma slice_prefix {A} (s : list A) (L : Z) :
  0 <= L <= Z.of_nat (length s) -> slice s 0 L = Some (take (Z.to_nat L) s).
Proof.
  intros Hk. unfold slice.
  assert (H : (0 <=? 0) && (0 <=? L) && (L <=? Z.of_nat (length s)) = true).
  { apply andb_true_intro; split; [apply andb_true_intro; split|];
      apply Z.leb_le; lia. }
  rewrite H, Z.sub_0_r. reflexivity.
Qed.

Lemma slice_suffix {A} (s : list A) (L : Z) :
  0 <= L <= Z.of_nat (length s) ->
  slice s L (Z.of_nat (length s)) = Some (drop (Z.to_nat L) s).
Proof.
  intros Hk. unfold slice.
  assert (H : (0 <=? L) && (L <=? Z.of_nat (length s)) &&
              (Z.of_nat (length s) <=? Z.of_nat (length s)) = true).
  { apply andb_true_intro; split; [apply andb_true_intro; split|];
      apply Z.leb_le; lia. }
  rewrite H. f_equal. apply take_ge. rewrite length_drop. lia.
Qed.

Lemma chunk_drop L k (l : list Z) : chunk L k (drop L l) = chunk L (Datatypes.S k) l.
Proof.
  unfold chunk. rewrite drop_drop. reflexivity.
Qed.

Lemma chunk_0 L (l : list Z) : chunk L 0 l = take L l.
Proof. reflexivity. Qed.

Lemma nth_chunk L k j (l : list Z) :
  (j < L)%nat -> nth j (chunk L k l) 0 = nth (k * L + j) l 0.
Proof.
  intros Hj. unfold chunk. rewrite nth_firstn.
  destruct (Nat.ltb_spec j L); [|lia]. apply nth_skipn.
Qed.

Lemma chunk_length L k (l : list Z) :
  (k * L + L <= length l)%nat -> length (chunk L k l) = L.
Proof. intros H. unfold chunk. rewrite length_take, length_drop. lia. Qed.

(** ** Multiplication triples *)

Lemma triple32_loop combine m from (a b c : list Z) (s : CommodityClientState) :
  length a = (4 * m)%nat -> length b = (4 * m)%nat -> length c = (4 * m)%nat ->
  for_acc m from (fun _ abc =>
    let '(a, b, c) := abc in
    let* a4 := lift "slice bounds out of range" (slice a 0 4) in
    let* b4 := lift "slice bounds out of range" (slice b 0 4) in
    let* c4 := lift "slice bounds out of range" (slice c 0 4) in
    let* a := lift "slice bounds out of range" (slice a 4 (Z.of_nat (length a))) in
    let* b := lift "slice bounds out of range" (slice b 4 (Z.of_nat (length b))) in
    let* c := lift "slice bounds out of range" (slice c 4 (Z.of_nat (length c))) in
    ret (mkTriple (combine a4) (combine b4) (combine c4), (a, b, c))) (a, b, c) s =
  Done (party_triples combine m (a, b, c)) s.
Proof.
  revert from a b c. induction m as [|m IH]; intros from a b c Ha Hb Hc.
  - reflexivity.
  - cbn [for_acc]. unfold bind at 1. cbn beta iota.
    unfold bind at 1.
    rewrite (slice_prefix a 4) by lia. cbn [lift]. unfold ret at 1.
    unfold bind at 1.
    rewrite (slice_prefix b 4) by lia. cbn [lift]. unfold ret at 1.
    unfold bind at 1.
    rewrite (slice_prefix c 4) by lia. cbn [lift]. unfold ret at 1.
    unfold bind at 1.
    rewrite (slice_suffix a 4) by lia. cbn [lift]. unfold ret at 1.
    unfold bind at 1.
    rewrite (slice_suffix b 4) by lia. cbn [lift]. unfold ret at 1.
    unfold bind at 1.
    rewrite (slice_suffix c 4) by lia. cbn [lift]. unfold ret at 1.
    unfold ret at 1. cbn [fst snd]. unfold bind.
    change (Z.to_nat 4) with 4%nat.
    rewrite IH by (rewrite length_drop; lia).
    unfold ret, party_triples. cbn [seq map]. f_equal. f_equal.
    rewrite <- seq_shift, map_map.
    apply map_ext. intros k. rewrite !chunk_drop. reflexivity.
Qed.

Lemma make_zeros (n : Z) : 0 <= n -> make 0 n = Some (replicate (Z.to_nat n) 0).
Proof. intros H. unfold make. destruct (Z.ltb_spec n 0); [lia|reflexivity]. Qed.

Lemma use_streams_run streams ch n a b c :
  length a = n -> length b = n -> length c = n ->
  exists streams',
    use_streams (a, b, c) (mkServer streams ch) =
    Done (xor_blocks a (map (fun v => block v 0 n) streams),
          xor_blocks b (map (fun v => block v n n) streams),
          xor_blocks c (map (fun v => block v (2 * n) n) streams))
         (mkServer streams' ch).
Proof.
  intros Ha Hb Hc. unfold use_streams. cbn [RandomStreams CorrectionCh].
  pose proof (range_streams_blocks streams a b c n Ha Hb Hc) as H.
  destruct (range_streams streams (a, b, c)) as [abc streams'].
  cbn [fst] in H. subst abc. eauto.
Qed.

Lemma server_sums_length streams n :
  let '(A, B, C) := server_sums streams n in
  length A = n /\ length B = n /\ length C = n.
Proof.
  unfold server_sums. repeat split;
    apply xor_blocks_length; auto using length_replicate, Forall_blocks.
Qed.

Lemma TripleCorrection_run NUM streams ch :
  0 <= NUM ->
  exists streams',
    TripleCorrection NUM (mkServer streams ch) =
    Done tt (mkServer streams'
               (ch ++ [triple_correction_of streams (Z.to_nat (NUM * 4))])).
Proof.
  intros HN.
  set (n := Z.to_nat (NUM * 4)).
  destruct (use_streams_run streams ch n (replicate n 0) (replicate n 0)
              (replicate n 0)) as (streams' & Hrun);
    try apply length_replicate.
  exists streams'. unfold TripleCorrection. cbn zeta.
  rewrite make_zeros by lia.
  unfold bind at 1. cbn [lift]. unfold ret at 1.
  unfold bind at 1. cbn [lift]. unfold ret at 1.
  unfold bind at 1. cbn [lift]. unfold ret at 1.
  fold n. unfold bind at 1. rewrite Hrun.
  pose proof (server_sums_length streams n) as Hlen.
  unfold triple_correction_of. unfold server_sums in *.
  destruct Hlen as (HA & HB & HC).
  unfold bind at 1, AndBytes. rewrite decide_True by congruence.
  cbn [lift]. unfold ret at 1.
  unfold bind at 1, XorBytes.
  rewrite decide_True by (rewrite length_zip_with; lia).
  cbn [lift]. unfold ret at 1. unfold send_correction.
  cbn [RandomStreams CorrectionCh]. reflexivity.
Qed.

Lemma client_xor_run v ch reqs n :
  client_xor (replicate n 0) (mkClient v ch reqs) =
  Done (block v 0 n) (mkClient (mkStream (keystream v) (consumed v + n)) ch reqs).
Proof.
  unfold client_xor. cbn [RandomStream ClientCorrectionCh Requested].
  rewrite XORKeyStream_block, length_replicate.
  rewrite zip_lxor_zeros by apply block_length. reflexivity.
Qed.

Lemma triple32_run NUM combine v ch :
  0 <= NUM ->
  match ch with
  | Some (x :: _) => length x = Z.to_nat (NUM * 4)
  | Some [] => False
  | None => True
  end ->
  triple32 NUM combine (mkClient v ch []) =
  Done (party_triples combine (Z.to_nat NUM)
          (party_bufs (correction_for ch) (Z.to_nat (NUM * 4)) v))
       (client_after RequestTripleCorrection ch v (3 * Z.to_nat (NUM * 4))).
Proof.
  intros HN Hch. unfold triple32. cbn zeta.
  rewrite make_zeros by lia.
  unfold bind at 1. cbn [lift]. unfold ret at 1.
  unfold bind at 1. cbn [lift]. unfold ret at 1.
  unfold bind at 1. cbn [lift]. unfold ret at 1.
  set (n := Z.to_nat (NUM * 4)) in *.
  unfold bind at 1. rewrite client_xor_run.
  unfold bind at 1. rewrite client_xor_run, block_shift.
  unfold bind at 1. rewrite client_xor_run, !block_shift.
  cbn [keystream consumed].
  replace (n + 0)%nat with n by lia.
  replace (n + n)%nat with (2 * n)%nat by lia.
  replace (consumed v + n + n + n)%nat with (consumed v + 3 * n)%nat by lia.
  assert (Hres : make (mkTriple 0 0 0) NUM =
                 Some (replicate (Z.to_nat NUM) (mkTriple 0 0 0))).
  { unfold make. destruct (Z.ltb_spec NUM 0); [lia|reflexivity]. }
  assert (Hn : n = (4 * Z.to_nat NUM)%nat) by (unfold n; lia).
  unfold bind at 1, correct. cbn [ClientCorrectionCh RandomStream Requested].
  destruct ch as [[|x rest]|]; [contradiction| |].
  - unfold XorBytes. rewrite decide_True by (rewrite block_length; lia).
    cbn [lift]. unfold ret at 1.
    unfold bind at 1. rewrite Hres. cbn [lift]. unfold ret at 1.
    rewrite length_replicate.
    rewrite triple32_loop;
      rewrite ?length_zip_with, ?block_length; try lia.
    reflexivity.
  - unfold bind at 1. rewrite Hres. cbn [lift]. unfold ret at 1.
    rewrite length_replicate.
    rewrite triple32_loop; rewrite ?block_length; try lia.
    reflexivity.
Qed.

Lemma testbit_xor_all (l : list Z) m :
  Z.testbit (xor_all l) m = fold_right xorb false (map (fun x => Z.testbit x m) l).
Proof.
  induction l as [|x l IH]; simpl.
  - apply Z.testbit_0_l.
  - rewrite Z.lxor_spec, IH. reflexivity.
Qed.

Lemma lxor_cancel x y r : Z.lxor (Z.lxor x (Z.lxor y (Z.lxor x r))) r = y.
Proof.
  apply Z.bits_inj'. intros m _. rewrite !Z.lxor_spec.
  destruct (Z.testbit x m), (Z.testbit y m), (Z.testbit r m); reflexivity.
Qed.

Lemma nth_map_seq {A} (g : nat -> A) N k d :
  (k < N)%nat -> nth k (map g (seq 0 N)) d = g k.
Proof.
  intros Hk. rewrite (nth_indep _ d (g 0%nat)) by (rewrite length_map, length_seq; lia).
  rewrite map_nth, seq_nth by lia. reflexivity.
Qed.

Lemma triple_correction_length streams n :
  length (triple_correction_of streams n) = n.
Proof.
  unfold triple_correction_of.
  pose proof (server_sums_length streams n) as H.
  destruct (server_sums streams n) as [[A B] C]. destruct H as (HA & HB & HC).
  rewrite !length_zip_with. lia.
Qed.

Lemma nth_server_sums streams n p :
  let '(A, B, C) := server_sums streams n in
  nth p A 0 = xor_all (map (fun v => nth p (block v 0 n) 0) streams) /\
  nth p B 0 = xor_all (map (fun v => nth p (block v n n) 0) streams) /\
  nth p C 0 = xor_all (map (fun v => nth p (block v (2 * n) n) 0) streams).
Proof.
  unfold server_sums.
  repeat split;
    (erewrite nth_xor_blocks;
      [rewrite nth_zeros, Z.lxor_0_l, map_map; reflexivity
      |apply length_replicate|apply Forall_blocks]).
Qed.

Lemma nth_triple_correction streams n p :
  let '(A, B, C) := server_sums streams n in
  nth p (triple_correction_of streams n) 0 =
  Z.lxor (Z.land (nth p A 0) (nth p B 0)) (nth p C 0).
Proof.
  unfold triple_correction_of.
  pose proof (server_sums_length streams n) as H.
  destruct (server_sums streams n) as [[A B] C]. destruct H as (HA & HB & HC).
  rewrite nth_zip_lxor by (rewrite length_zip_with; lia).
  rewrite nth_zip_land by lia. reflexivity.
Qed.

Section TripleFacts.

Variable NUM_TRIPLES : Z.
Variable combine : list Z -> Z.

(** [combine] packs four bytes into a 32-bit word: every bit of the word
    is a fixed bit of one of the bytes. *)
Variable combine_src : Z -> nat * Z.
Hypothesis combine_bits :
  forall n, 0 <= n < 32 ->
    (fst (combine_src n) < 4)%nat /\
    forall bs, length bs = 4%nat ->
      Z.testbit (combine bs) n =
      Z.testbit (nth (fst (combine_src n)) bs 0) (snd (combine_src n)).

Lemma column_nth (bufs : list (list Z)) k bit :
  0 <= bit < 32 ->
  Forall (fun buf => (k * 4 + 4 <= length buf)%nat) bufs ->
  Z.testbit (xor_all (map (fun buf => combine (chunk 4 k buf)) bufs)) bit =
  Z.testbit
    (xor_all (map (fun buf => nth (k * 4 + fst (combine_src bit)) buf 0) bufs))
    (snd (combine_src bit)).
Proof.
  intros Hbit Hbufs. destruct (combine_bits bit Hbit) as [Hj Hc].
  rewrite !testbit_xor_all, !map_map. f_equal.
  induction Hbufs as [|buf bufs Hbuf _ IH]; [reflexivity|].
  simpl. f_equal; [|exact IH].
  rewrite Hc by (apply chunk_length; lia).
  rewrite nth_chunk by exact Hj. reflexivity.
Qed.

(** C3: with one stream per party, shared with the server, after one run
    of [TripleCorrection] and one run of [triple32] by every party, the
    designated party reading the correction, every party holds
    [NUM_TRIPLES] triples and at every index and every bit position the XOR
    of the [c] words of all parties is the AND of the XOR of the [a] words
    with the XOR of the [b] words. *)
Theorem triple_correction_sound (streams : list Stream) :
  0 <= NUM_TRIPLES -> streams <> [] ->
  exists srv' shares,
    TripleCorrection NUM_TRIPLES (mkServer streams []) = Done tt srv' /\
    Forall2 (fun c ts => exists c', triple32 NUM_TRIPLES combine c = Done ts c')
            (clients_of (CorrectionCh srv') streams) shares /\
    Forall (fun ts => length ts = Z.to_nat NUM_TRIPLES) shares /\
    forall k bit, (k < Z.to_nat NUM_TRIPLES)%nat -> 0 <= bit < 32 ->
      Z.testbit (xor_all (column (mkTriple 0 0 0) t_c k shares)) bit =
      Z.testbit (xor_all (column (mkTriple 0 0 0) t_a k shares)) bit &&
      Z.testbit (xor_all (column (mkTriple 0 0 0) t_b k shares)) bit.
Proof.
  intros HN Hne. destruct streams as [|v0 rest]; [contradiction|]. clear Hne.
  set (streams := v0 :: rest).
  set (N := Z.to_nat NUM_TRIPLES). set (n := Z.to_nat (NUM_TRIPLES * 4)).
  assert (Hn : n = (4 * N)%nat) by (unfold n, N; lia).
  set (corr := triple_correction_of streams n).
  destruct (TripleCorrection_run NUM_TRIPLES streams [] HN) as (streams' & Hsrv).
  fold n in Hsrv. fold corr in Hsrv. simpl app in Hsrv.
  exists (mkServer streams' [corr]),
         (party_triples combine N (party_bufs (Some corr) n v0) ::
          map (fun v => party_triples combine N (party_bufs None n v)) rest).
  split; [exact Hsrv|]. split; [|split].
  - cbn [CorrectionCh clients_of]. constructor.
    + eexists. apply (triple32_run NUM_TRIPLES combine v0 (Some [corr]) HN).
      apply triple_correction_length.
    + clear -HN. induction rest as [|v rest IH]; simpl; constructor; [|exact IH].
      eexists. apply (triple32_run NUM_TRIPLES combine v None HN). exact I.
  - constructor.
    + unfold party_triples, party_bufs. rewrite length_map, length_seq. reflexivity.
    + apply Forall_map, list.Forall_forall. intros v _.
      unfold party_triples, party_bufs. rewrite length_map, length_seq. reflexivity.
  - intros k bit Hk Hbit.
    assert (Hcol : forall (f : Triple -> Z) (sel : list Z * list Z * list Z -> list Z),
      (forall abc j, (j < N)%nat ->
         f (nth j (party_triples combine N abc) (mkTriple 0 0 0)) =
         combine (chunk 4 j (sel abc))) ->
      column (mkTriple 0 0 0) f k
        (party_triples combine N (party_bufs (Some corr) n v0) ::
         map (fun v => party_triples combine N (party_bufs None n v)) rest) =
      map (fun buf => combine (chunk 4 k buf))
        (sel (party_bufs (Some corr) n v0) ::
         map (fun v => sel (party_bufs None n v)) rest)).
    { intros f sel Hf. unfold column. cbn [map]. rewrite Hf by exact Hk.
      f_equal. rewrite !map_map. apply map_ext. intros v. apply Hf, Hk. }
    assert (Hsel : forall abc j, (j < N)%nat ->
      let ts := party_triples combine N abc in
      t_a (nth j ts (mkTriple 0 0 0)) = combine (chunk 4 j (fst (fst abc))) /\
      t_b (nth j ts (mkTriple 0 0 0)) = combine (chunk 4 j (snd (fst abc))) /\
      t_c (nth j ts (mkTriple 0 0 0)) = combine (chunk 4 j (snd abc))).
    { intros [[a b] c] j Hj. unfold party_triples. cbn zeta.
      rewrite nth_map_seq by exact Hj. repeat split. }
    rewrite (Hcol t_a (fun abc => fst (fst abc))) by (intros; apply Hsel; assumption).
    rewrite (Hcol t_b (fun abc => snd (fst abc))) by (intros; apply Hsel; assumption).
    rewrite (Hcol t_c (fun abc => snd abc)) by (intros; apply Hsel; assumption).
    cbn [party_bufs fst snd].
    destruct (combine_bits bit Hbit) as [Hj _].
    set (p := (k * 4 + fst (combine_src bit))%nat).
    rewrite !column_nth; try exact Hbit.
    2:{ constructor; [rewrite block_length; lia|].
        apply Forall_map, list.Forall_forall. intros v _. rewrite block_length. lia. }
    2:{ constructor; [rewrite block_length; lia|].
        apply Forall_map, list.Forall_forall. intros v _. rewrite block_length. lia. }
    2:{ constructor.
        - rewrite length_zip_with, block_length.
          unfold corr. rewrite triple_correction_length. lia.
        - apply Forall_map, list.Forall_forall. intros v _.
          rewrite block_length. lia. }
    fold p. rewrite <- Z.land_spec. f_equal.
    pose proof (nth_server_sums streams n p) as Hsum.
    pose proof (nth_triple_correction streams n p) as Hcorr.
    fold corr in Hcorr.
    destruct (server_sums streams n) as [[A B] C].
    destruct Hsum as (HA & HB & HC).
    cbn [map xor_all fold_right]. rewrite !map_map.
    unfold streams in HA, HB, HC. cbn [map xor_all fold_right] in HA, HB, HC.
    fold (xor_all (map (fun v => nth p (block v 0 n) 0) rest)) in *.
    fold (xor_all (map (fun v => nth p (block v n n) 0) rest)) in *.
    fold (xor_all (map (fun v => nth p (block v (2 * n) n) 0) rest)) in *.
    rewrite <- HA, <- HB.
    rewrite nth_zip_lxor
      by (rewrite block_length; unfold corr; rewrite triple_correction_length;
          reflexivity).
    rewrite Hcorr, HC. apply lxor_cancel.
Qed.

End TripleFacts.

Lemma combine_le_step b acc n :
  0 <= n ->
  Z.testbit (Z.lor (Z.land b 255) (Z.shiftl acc 8)) n =
  if n <? 8 then Z.testbit b n else Z.testbit acc (n - 8).
Proof.
  intros Hn. rewrite Z.lor_spec, Z.land_spec, Z.shiftl_spec by exact Hn.
  change 255 with (Z.ones 8).
  destruct (Z.ltb_spec n 8).
  - rewrite Z.ones_spec_low by lia. rewrite (Z.testbit_neg_r acc) by lia.
    rewrite andb_true_r, orb_false_r. reflexivity.
  - rewrite Z.ones_spec_high by lia. rewrite andb_false_r. reflexivity.
Qed.

Lemma combine_le_bits n :
  0 <= n < 32 ->
  (fst (combine_le_src n) < 4)%nat /\
  forall bs, length bs = 4%nat ->
    Z.testbit (combine_le bs) n =
    Z.testbit (nth (fst (combine_le_src n)) bs 0) (snd (combine_le_src n)).
Proof.
  intros Hn. unfold combine_le_src. cbn [fst snd].
  assert (Hq : n / 8 = 0 \/ n / 8 = 1 \/ n / 8 = 2 \/ n / 8 = 3)
    by (Z.div_mod_to_equations; lia).
  split; [lia|].
  intros [|b0 [|b1 [|b2 [|b3 [|? ?]]]]]; try discriminate. intros _.
  unfold combine_le. cbn [fold_right].
  assert (Hm : n mod 8 = n - 8 * (n / 8)) by (Z.div_mod_to_equations; lia).
  rewrite Hm.
  destruct Hq as [Hq | [Hq | [Hq | Hq]]]; rewrite Hq;
    simpl (Z.to_nat _); cbn [nth];
    repeat (rewrite combine_le_step by lia;
            match goal with
            | |- context [?x <? 8] => destruct (Z.ltb_spec x 8)
            end; try (exfalso; Z.div_mod_to_equations; lia));
    f_equal; lia.
Qed.

Lemma triple_correction_sound_witness :
  exists srv' shares,
    TripleCorrection 2 (mkServer streams0 []) = Done tt srv' /\
    Forall2 (fun c ts => exists c', triple32 2 combine_le c = Done ts c')
            (clients_of (CorrectionCh srv') streams0) shares /\
    Forall (fun ts => length ts = Z.to_nat 2) shares /\
    forall k bit, (k < Z.to_nat 2)%nat -> 0 <= bit < 32 ->
      Z.testbit (xor_all (column (mkTriple 0 0 0) t_c k shares)) bit =
      Z.testbit (xor_all (column (mkTriple 0 0 0) t_a k shares)) bit &&
      Z.testbit (xor_all (column (mkTriple 0 0 0) t_b k shares)) bit.
Proof.
  apply (triple_correction_sound 2 combine_le combine_le_src combine_le_bits
           streams0).
  - lia.
  - discriminate.
Defined.

(** ** Mask triples: the width of the bit vector *)

Lemma pure_ret {S A} (a : A) : pure_step (ret a : M S A).
Proof. intros s. left. eauto. Qed.

Lemma pure_lift {S A} msg (o : option A) : pure_step (lift msg o : M S A).
Proof. intros s. destruct o; [left|right]; eauto. Qed.

Lemma pure_bind {S A B} (m : M S A) (k : A -> M S B) :
  pure_step m -> (forall x, pure_step (k x)) -> pure_step (bind m k).
Proof.
  intros Hm Hk s. unfold bind.
  destruct (Hm s) as [(x & ->) | (msg & ->)]; [apply Hk|right; eauto].
Qed.

Ltac pure_steps :=
  repeat first
    [ apply pure_ret | apply pure_lift
    | apply pure_bind; [|intros ?]
    | match goal with |- pure_step (if ?c then _ else _) => destruct c end
    | match goal with |- pure_step (let '(_, _) := ?p in _) => destruct p end ].

Lemma for_loop_panics {S A} n from (body : nat -> A -> M S A) acc s j :
  (forall i acc, pure_step (body i acc)) ->
  (from <= j < from + n)%nat ->
  (forall acc s, exists msg, body j acc s = Panic msg s) ->
  exists msg, for_loop n from body acc s = Panic msg s.
Proof.
  revert from acc. induction n as [|n IH]; intros from acc Hpure Hj Hbad; [lia|].
  simpl. unfold bind. destruct (Nat.eq_dec j from) as [->|Hne].
  - destruct (Hbad acc s) as (msg & ->). eauto.
  - destruct (Hpure from acc s) as [(acc' & ->) | (msg & ->)]; [|eauto].
    apply IH; auto. lia.
Qed.

Lemma for_acc_panics {S A B} n from (body : nat -> A -> M S (B * A)) acc s j :
  (forall i acc, pure_step (body i acc)) ->
  (from <= j < from + n)%nat ->
  (forall acc s, exists msg, body j acc s = Panic msg s) ->
  exists msg, for_acc n from body acc s = Panic msg s.
Proof.
  revert from acc. induction n as [|n IH]; intros from acc Hpure Hj Hbad; [lia|].
  simpl. unfold bind. destruct (Nat.eq_dec j from) as [->|Hne].
  - destruct (Hbad acc s) as (msg & ->). eauto.
  - destruct (Hpure from acc s) as [(r & ->) | (msg & ->)]; [|eauto].
    destruct (IH (Datatypes.S from) (snd r)) as (msg & ->); eauto. lia.
Qed.

Lemma XORKeyStream_length v buf : length (fst (XORKeyStream v buf)) = length buf.
Proof.
  unfold XORKeyStream. cbn [fst]. rewrite length_zip_with, length_map, length_seq.
  lia.
Qed.

Lemma xor3_lengths v a b c :
  let '(a', b', c') := fst (xor3 v (a, b, c)) in
  length a' = length a /\ length b' = length b /\ length c' = length c.
Proof.
  unfold xor3.
  pose proof (XORKeyStream_length v a) as Ha.
  destruct (XORKeyStream v a) as [a' v1]. cbn [fst] in Ha.
  pose proof (XORKeyStream_length v1 b) as Hb.
  destruct (XORKeyStream v1 b) as [b' v2]. cbn [fst] in Hb.
  pose proof (XORKeyStream_length v2 c) as Hc.
  destruct (XORKeyStream v2 c) as [c' v3]. cbn [fst] in Hc.
  cbn [fst]. auto.
Qed.

Lemma range_streams_lengths streams a b c :
  let '(a', b', c') := fst (range_streams streams (a, b, c)) in
  length a' = length a /\ length b' = length b /\ length c' = length c.
Proof.
  revert a b c. induction streams as [|v rest IH]; intros a b c.
  - simpl. auto.
  - cbn [range_streams].
    pose proof (xor3_lengths v a b c) as H3.
    destruct (xor3 v (a, b, c)) as [[[a1 b1] c1] v1]. cbn [fst] in H3.
    specialize (IH a1 b1 c1).
    destruct (range_streams rest (a1, b1, c1)) as [[[a2 b2] c2] rest'].
    cbn [fst] in *. destruct H3 as (? & ? & ?), IH as (? & ? & ?).
    repeat split; congruence.
Qed.

(** The bit index just past the bit vector of [numTriples / 8] bytes. *)
Lemma GetBit_past (A : list Z) (n : Z) :
  0 < n -> length A = Z.to_nat (Z.quot n 8) ->
  GetBit A (Z.of_nat (Z.to_nat (8 * Z.quot n 8))) = None.
Proof.
  intros Hn HA. unfold GetBit, at_int.
  assert (Hq : 0 <= Z.quot n 8) by (apply Z.quot_pos; lia).
  rewrite Z2Nat.id by lia.
  replace (Z.quot (8 * Z.quot n 8) 8) with (Z.quot n 8)
    by (rewrite Z.mul_comm, Z.quot_mul; lia).
  destruct (Z.ltb_spec (Z.quot n 8) 0); [lia|].
  rewrite lookup_ge_None_2 by lia. reflexivity.
Qed.

Lemma past_in_range (n : Z) :
  0 < n -> n mod 8 <> 0 -> (Z.to_nat (8 * Z.quot n 8) < Z.to_nat n)%nat.
Proof.
  intros Hn Hm.
  assert (Hq : Z.quot n 8 = n / 8) by (apply Z.quot_div_nonneg; lia).
  rewrite Hq. Z.div_mod_to_equations. lia.
Qed.

Lemma use_streams_Done a b c s :
  exists a' b' c' s',
    use_streams (a, b, c) s = Done (a', b', c') s' /\
    length a' = length a /\ length b' = length b /\ length c' = length c /\
    CorrectionCh s' = CorrectionCh s.
Proof.
  unfold use_streams.
  pose proof (range_streams_lengths (RandomStreams s) a b c) as H.
  destruct (range_streams (RandomStreams s) (a, b, c)) as [[[a' b'] c'] streams'].
  cbn [fst] in H. destruct H as (? & ? & ?).
  exists a', b', c', (mkServer streams' (CorrectionCh s)). auto.
Qed.

Lemma make_Some_length {A} (zero : A) n l : make zero n = Some l -> length l = Z.to_nat n.
Proof.
  unfold make. destruct (n <? 0); [discriminate|]. intros [= <-].
  apply length_replicate.
Qed.

Lemma make_nonneg {A} (zero : A) n :
  0 <= n -> make zero n = Some (replicate (Z.to_nat n) zero).
Proof. intros H. unfold make. destruct (Z.ltb_spec n 0); [lia|reflexivity]. Qed.

Lemma MaskTripleCorrection_panics n L s :
  0 < n -> n mod 8 <> 0 ->
  exists msg s', MaskTripleCorrection n L s = Panic msg s'.
Proof.
  intros Hn Hm.
  assert (Hq : 0 <= Z.quot n 8) by (apply Z.quot_pos; lia).
  unfold MaskTripleCorrection.
  rewrite (make_nonneg 0 (Z.quot n 8)) by exact Hq.
  unfold bind at 1. cbn [lift]. unfold ret at 1.
  destruct (make 0 (int_wrap (n * L))) as [B|] eqn:HB;
    [|unfold bind, lift, panic; eauto].
  unfold bind at 1. cbn [lift]. unfold ret at 1.
  unfold bind at 1. cbn [lift]. unfold ret at 1.
  destruct (use_streams_Done (replicate (Z.to_nat (Z.quot n 8)) 0) B B s)
    as (A' & B' & C' & s1 & Hrun & HA & _).
  unfold bind at 1. rewrite Hrun. cbn iota beta.
  unfold bind at 1. cbn [lift]. unfold ret at 1.
  rewrite length_replicate in HA.
  match goal with
  | |- context [for_loop ?m ?from ?body ?acc] =>
      destruct (for_loop_panics m from body acc s1 (Z.to_nat (8 * Z.quot n 8)))
        as (msg & Hloop)
  end.
  - intros i acc. pure_steps.
  - split; [lia|]. apply past_in_range; assumption.
  - intros acc s0. unfold bind at 1.
    rewrite (GetBit_past A' n Hn HA). cbn [lift]. unfold panic. eauto.
  - unfold bind at 1. rewrite Hloop. eauto.
Qed.

Lemma client_xor_Done buf s :
  exists buf' s',
    client_xor buf s = Done buf' s' /\ length buf' = length buf /\
    ClientCorrectionCh s' = ClientCorrectionCh s.
Proof.
  unfold client_xor.
  pose proof (XORKeyStream_length (RandomStream s) buf) as H.
  destruct (XORKeyStream (RandomStream s) buf) as [buf' v]. cbn [fst] in H.
  eexists _, _. split; [reflexivity|]. auto.
Qed.

Lemma maskTriple_stops n L c :
  0 < n -> n mod 8 <> 0 -> stops (maskTriple n L c) (ClientCorrectionCh c).
Proof.
  intros Hn Hm.
  assert (Hq : 0 <= Z.quot n 8) by (apply Z.quot_pos; lia).
  unfold maskTriple.
  rewrite (make_nonneg 0 (Z.quot n 8)) by exact Hq.
  unfold bind at 1. cbn [lift]. unfold ret at 1.
  destruct (make 0 (int_wrap (n * L))) as [B|] eqn:HB; [|exact I].
  unfold bind at 1. cbn [lift]. unfold ret at 1.
  unfold bind at 1. cbn [lift]. unfold ret at 1.
  destruct (client_xor_Done (replicate (Z.to_nat (Z.quot n 8)) 0) c)
    as (a' & c1 & Hrun1 & Ha & Hch1).
  unfold bind at 1. rewrite Hrun1.
  destruct (client_xor_Done B c1) as (b' & c2 & Hrun2 & _ & Hch2).
  unfold bind at 1. rewrite Hrun2.
  destruct (client_xor_Done B c2) as (c' & c3 & Hrun3 & _ & Hch3).
  unfold bind at 1. rewrite Hrun3.
  rewrite length_replicate in Ha.
  assert (Hloop : forall cc (s : CommodityClientState), exists msg,
    (let* result := lift "makeslice: len out of range"
                      (make (mkMaskTriple 0 [] []) n) in
     for_acc (length result) 0 (fun i bc =>
       let '(b, c) := bc in
       let* g := lift "index out of range" (GetBit a' (Z.of_nat i)) in
       let* bs := lift "slice bounds out of range" (slice b 0 L) in
       let* cs := lift "slice bounds out of range" (slice c 0 L) in
       let* b := lift "slice bounds out of range"
                   (slice b L (Z.of_nat (length b))) in
       let* c := lift "slice bounds out of range"
                   (slice c L (Z.of_nat (length c))) in
       ret (mkMaskTriple g bs cs, (b, c))) (b', cc)) s = Panic msg s).
  { intros cc s. rewrite make_nonneg by lia.
    unfold bind at 1. cbn [lift]. unfold ret at 1. rewrite length_replicate.
    apply for_acc_panics with (j := Z.to_nat (8 * Z.quot n 8)).
    - intros i [b0 c0]. pure_steps.
    - split; [lia|]. apply past_in_range; assumption.
    - intros [b0 c0] s0. unfold bind at 1.
      rewrite (GetBit_past a' n Hn Ha). cbn [lift]. unfold panic. eauto. }
  unfold bind at 1, correct.
  assert (Hch : ClientCorrectionCh c3 = ClientCorrectionCh c) by congruence.
  rewrite Hch.
  destruct (ClientCorrectionCh c) as [[|x rest]|].
  - reflexivity.
  - destruct (XorBytes c' x) as [cc|]; cbn [lift]; unfold ret at 1, panic.
    + destruct (Hloop cc (mkClient (RandomStream c3) (Some rest)
          (Requested c3 ++ [RequestMaskTripleCorrection n L]))) as (msg & ->).
      exact I.
    + exact I.
  - destruct (Hloop c' c3) as (msg & ->). exact I.
Qed.

(** C10, as the code has it: for every positive [numTriples] that is not a
    multiple of 8, [MaskTripleCorrection] panics and [maskTriple] returns no
    batch: it panics too, unless it is the designated party and waits for
    a correction that is not there.  For [numTriples = 0] both return: an
    empty correction is sent and the batch is empty. *)
Theorem mask_triple_width (n L : Z) :
  (0 < n -> n mod 8 <> 0 ->
     (forall s, exists msg s', MaskTripleCorrection n L s = Panic msg s') /\
     (forall c, stops (maskTriple n L c) (ClientCorrectionCh c))) /\
  (forall s, exists s',
     MaskTripleCorrection 0 L s = Done tt s' /\
     CorrectionCh s' = CorrectionCh s ++ [[]]) /\
  (forall v reqs, exists c',
     maskTriple 0 L (mkClient v None reqs) = Done [] c').
Proof.
  split; [|split].
  - intros Hn Hm. split.
    + intros s. apply MaskTripleCorrection_panics; assumption.
    + intros c. apply maskTriple_stops; assumption.
  - intros s. unfold MaskTripleCorrection.
    change (Z.quot 0 8) with 0. change (0 * L) with 0.
    change (int_wrap 0) with 0. change (make 0 0) with (Some (@nil Z)).
    unfold bind at 1. cbn [lift]. unfold ret at 1.
    unfold bind at 1. cbn [lift]. unfold ret at 1.
    unfold bind at 1. cbn [lift]. unfold ret at 1.
    destruct (use_streams_Done [] [] [] s) as (A' & B' & C' & s1 & Hrun & _ & _ & _ & Hch).
    unfold bind at 1. rewrite Hrun. cbn iota beta.
    unfold bind at 1. cbn [lift]. unfold ret at 1.
    cbn [Z.to_nat for_loop]. unfold bind at 1, ret at 1, send_correction.
    eexists. split; [reflexivity|]. cbn [CorrectionCh]. rewrite Hch. reflexivity.
  - intros v reqs. eexists. reflexivity.
Qed.

Lemma mask_triple_width_witness :
  (exists msg s', MaskTripleCorrection 12 4 (mkServer streams0 []) = Panic msg s') /\
  stops (maskTriple 12 4 (mkClient (stream_of 1) None [])) None.
Proof.
  destruct (mask_triple_width 12 4) as [H _].
  destruct H as [Hs Hc]; [lia|discriminate|].
  split; [apply Hs|apply (Hc (mkClient (stream_of 1) None []))].
Defined.

(** C10 as stated fails at [numTriples = 0], which is not positive: the
    server sends an empty correction and the party gets an empty batch. *)
Lemma zero_triples_counterexample :
  (exists s', MaskTripleCorrection 0 4 (mkServer streams0 []) = Done tt s') /\
  (exists c', maskTriple 0 4 (mkClient (stream_of 1) None []) = Done [] c').
Proof. split; eexists; vm_compute; reflexivity. Qed.

(** ** Mask triples *)

Lemma xor3_blocks_gen v a b c :
  xor3 v (a, b, c) =
  ((zip_with Z.lxor a (block v 0 (length a)),
    zip_with Z.lxor b (block v (length a) (length b)),
    zip_with Z.lxor c (block v (length a + length b) (length c))),
   mkStream (keystream v) (consumed v + length a + length b + length c)).
Proof.
  unfold xor3.
  rewrite XORKeyStream_block. cbn iota beta.
  rewrite XORKeyStream_block. cbn iota beta.
  rewrite XORKeyStream_block. cbn iota beta.
  rewrite !block_shift. cbn [keystream consumed].
  rewrite !Nat.add_0_r. reflexivity.
Qed.

Lemma range_streams_blocks_gen streams a b c la lb lc :
  length a = la -> length b = lb -> length c = lc ->
  fst (range_streams streams (a, b, c)) =
  (xor_blocks a (map (fun v => block v 0 la) streams),
   xor_blocks b (map (fun v => block v la lb) streams),
   xor_blocks c (map (fun v => block v (la + lb) lc) streams)).
Proof.
  revert a b c. induction streams as [|v rest IH]; intros a b c Ha Hb Hc.
  - reflexivity.
  - cbn [range_streams]. rewrite xor3_blocks_gen, Ha, Hb, Hc.
    specialize (IH (zip_with Z.lxor a (block v 0 la))
                   (zip_with Z.lxor b (block v la lb))
                   (zip_with Z.lxor c (block v (la + lb) lc))).
    destruct (range_streams rest _) as [abc rest'] eqn:Hr.
    cbn [fst] in *. rewrite IH; [reflexivity| | |];
      rewrite length_zip_with, block_length; lia.
Qed.

Lemma GetBit_in_range (l : list Z) (j : nat) :
  (j / 8 < length l)%nat -> GetBit l (Z.of_nat j) = Some (bit_of l j).
Proof.
  intros Hj. unfold GetBit, at_int, bit_of.
  assert (Hq : Z.quot (Z.of_nat j) 8 = Z.of_nat (j / 8)).
  { rewrite Z.quot_div_nonneg by lia. rewrite (Nat2Z.inj_div j 8). reflexivity. }
  assert (Hr : Z.rem (Z.of_nat j) 8 = Z.of_nat (j mod 8)).
  { rewrite Z.rem_mod_nonneg by lia. rewrite (Nat2Z.inj_mod j 8). reflexivity. }
  rewrite Hq, Hr. destruct (Z.ltb_spec (Z.of_nat (j / 8)) 0); [lia|].
  rewrite Nat2Z.id.
  destruct (lookup_lt_is_Some_2 l (j / 8) Hj) as [x Hx]. rewrite Hx.
  cbn [mbind option_bind]. erewrite nth_lookup_Some by exact Hx. reflexivity.
Qed.

Lemma xor_all_bits {A} (f : A -> bool) (l : list A) :
  xor_all (map (fun x => if f x then 1 else 0) l) =
  if fold_right xorb false (map f l) then 1 else 0.
Proof.
  induction l as [|x l IH]; [reflexivity|].
  cbn [map xor_all fold_right]. fold (xor_all (map (fun x => if f x then 1 else 0) l)).
  rewrite IH. destruct (f x), (fold_right xorb false (map f l)); reflexivity.
Qed.

Lemma bit_of_xor_blocks (bufs : list (list Z)) n j :
  Forall (fun bl => length bl = n) bufs ->
  bit_of (xor_blocks (replicate n 0) bufs) j =
  xor_all (map (fun bl => bit_of bl j) bufs).
Proof.
  intros Hb. unfold bit_of at 1.
  rewrite (nth_xor_blocks _ _ n) by (auto using length_replicate).
  rewrite nth_zeros, Z.lxor_0_l, testbit_xor_all, map_map.
  unfold bit_of.
  rewrite (xor_all_bits (fun bl => Z.testbit (nth (j / 8) bl 0) (Z.of_nat (j mod 8)))).
  reflexivity.
Qed.

Lemma chunk_write_before L j k (corr x rest : list Z) :
  (k < j)%nat -> (j * L <= length corr)%nat ->
  chunk L k (take (j * L) corr ++ x ++ rest) = chunk L k corr.
Proof.
  intros Hk Hj. unfold chunk.
  assert (H1 : (k * L + L <= j * L)%nat) by nia.
  rewrite drop_app_le by (rewrite length_take_le; lia).
  rewrite take_app_le by (rewrite length_drop, length_take_le; lia).
  rewrite skipn_firstn_comm, take_take. f_equal. lia.
Qed.

Lemma chunk_write_at L j (corr x rest : list Z) :
  (j * L <= length corr)%nat -> length x = L ->
  chunk L j (take (j * L) corr ++ x ++ rest) = x.
Proof.
  intros Hj Hx. unfold chunk.
  rewrite drop_app_ge by (rewrite length_take_le; lia).
  rewrite length_take_le, Nat.sub_diag by lia.
  rewrite drop_0, take_app_le by lia. apply take_ge. lia.
Qed.

(** The bounds of chunk [j] as Go computes them. *)
Lemma chunk_bounds (n L : Z) (j : nat) :
  0 <= L -> n * L < 2 ^ 63 -> (j < Z.to_nat n)%nat ->
  int_wrap (Z.of_nat j * L) = Z.of_nat (j * Z.to_nat L) /\
  int_wrap (int_wrap (Z.of_nat j * L) + L) =
    Z.of_nat (j * Z.to_nat L) + Z.of_nat (Z.to_nat L).
Proof.
  intros HL Hn Hj.
  assert (H1 : Z.of_nat (j * Z.to_nat L) = Z.of_nat j * L)
    by (rewrite Nat2Z.inj_mul, Z2Nat.id by lia; reflexivity).
  assert (H2 : Z.of_nat j * L + L <= n * L) by nia.
  assert (H3 : 0 <= Z.of_nat j * L) by nia.
  rewrite H1, Z2Nat.id by lia.
  rewrite (int_wrap_small (Z.of_nat j * L)) by lia.
  split; [reflexivity|]. apply int_wrap_small. lia.
Qed.

Lemma slice_chunk (X : list Z) (L : nat) (j : nat) :
  (j * L + L <= length X)%nat ->
  slice X (Z.of_nat (j * L)) (Z.of_nat (j * L) + Z.of_nat L) =
  Some (chunk L j X).
Proof.
  intros H. unfold slice, chunk.
  assert (Hc : (0 <=? Z.of_nat (j * L)) &&
               (Z.of_nat (j * L) <=? Z.of_nat (j * L) + Z.of_nat L) &&
               (Z.of_nat (j * L) + Z.of_nat L <=? Z.of_nat (length X)) = true).
  { apply andb_true_intro; split; [apply andb_true_intro; split|];
      apply Z.leb_le; lia. }
  rewrite Hc, Nat2Z.id.
  replace (Z.to_nat (Z.of_nat (j * L) + Z.of_nat L - Z.of_nat (j * L))) with L by lia.
  reflexivity.
Qed.

Lemma for_loop_inv {S A} (Inv : nat -> A -> Prop) n from
    (body : nat -> A -> M S A) acc s :
  (forall i acc, (from <= i < from + n)%nat -> Inv i acc ->
     exists acc', body i acc s = Done acc' s /\ Inv (Datatypes.S i) acc') ->
  Inv from acc ->
  exists acc', for_loop n from body acc s = Done acc' s /\ Inv (from + n)%nat acc'.
Proof.
  revert from acc. induction n as [|n IH]; intros from acc Hbody Hinv.
  - exists acc. rewrite Nat.add_0_r. auto.
  - destruct (Hbody from acc ltac:(lia) Hinv) as (acc1 & Hrun & Hinv1).
    destruct (IH (Datatypes.S from) acc1) as (acc2 & Hrun2 & Hinv2); auto.
    { intros i a Hi. apply Hbody. lia. }
    exists acc2. simpl. unfold bind. rewrite Hrun, Hrun2.
    replace (from + Datatypes.S n)%nat with (Datatypes.S from + n)%nat by lia.
    auto.
Qed.

Lemma mask_correction_loop (n L : Z) (A B C corr0 : list Z)
    (s : CommodityServerState) :
  0 <= L -> n * L < 2 ^ 63 ->
  (Z.to_nat n <= 8 * length A)%nat ->
  length B = (Z.to_nat n * Z.to_nat L)%nat ->
  length C = (Z.to_nat n * Z.to_nat L)%nat ->
  length corr0 = (Z.to_nat n * Z.to_nat L)%nat ->
  exists corr,
    for_loop (Z.to_nat n) 0 (fun j correction =>
      let low := int_wrap (Z.of_nat j * L) in
      let high := int_wrap (low + L) in
      let* g := lift "index out of range" (GetBit A (Z.of_nat j)) in
      if g =? 1 then
        let* Bs := lift "slice bounds out of range" (slice B low high) in
        let* Cs := lift "slice bounds out of range" (slice C low high) in
        let* Ds := lift "slice bounds out of range" (slice correction low high) in
        let* x := lift "XorBytesTo: mismatch" (XorBytesTo Bs Cs Ds) in
        ret (write_at correction low x)
      else
        let* Ds := lift "slice bounds out of range" (slice correction low high) in
        let* Cs := lift "slice bounds out of range" (slice C low high) in
        ret (write_at correction low (copy Ds Cs))) corr0 s = Done corr s /\
    length corr = (Z.to_nat n * Z.to_nat L)%nat /\
    forall j, (j < Z.to_nat n)%nat ->
      chunk (Z.to_nat L) j corr = mask_expected (Z.to_nat L) A B C j.
Proof.
  intros HL Hn HA HB HC H0.
  set (N := Z.to_nat n) in *. set (Ln := Z.to_nat L) in *.
  match goal with
  | |- context [for_loop ?m ?f ?body ?acc ?st] =>
      destruct (for_loop_inv
        (fun i corr => length corr = (N * Ln)%nat /\
           forall j, (j < i)%nat -> chunk Ln j corr = mask_expected Ln A B C j)
        m f body acc st) as (corr & Hrun & Hlen & Hchunks)
  end.
  - intros i corr Hi [Hlen Hprev].
    destruct (chunk_bounds n L i HL Hn ltac:(lia)) as [Hlow Hhigh].
    fold Ln in Hlow, Hhigh.
    assert (Hfit : (i * Ln + Ln <= N * Ln)%nat) by nia.
    cbn zeta. rewrite Hhigh, Hlow.
    rewrite GetBit_in_range
      by (apply Nat.Div0.div_lt_upper_bound; lia).
    unfold bind at 1. cbn [lift]. unfold ret at 1.
    rewrite !slice_chunk by lia.
    assert (Hw : forall x, length x = Ln ->
      length (write_at corr (Z.of_nat (i * Ln)) x) = (N * Ln)%nat /\
      forall j, (j < Datatypes.S i)%nat ->
        chunk Ln j (write_at corr (Z.of_nat (i * Ln)) x) =
        if Nat.eq_dec j i then x else chunk Ln j corr).
    { intros x Hx. unfold write_at. rewrite Nat2Z.id. split.
      - rewrite !length_app, length_take, length_drop. lia.
      - intros j Hj. destruct (Nat.eq_dec j i) as [->|Hne].
        + apply chunk_write_at; lia.
        + apply chunk_write_before; lia. }
    unfold mask_expected in *.
    destruct (bit_of A i =? 1) eqn:Hbit.
    + unfold bind, lift, ret, XorBytesTo.
      rewrite decide_True by (rewrite !chunk_length by lia; auto).
      eexists. split; [reflexivity|].
      destruct (Hw (zip_with Z.lxor (chunk Ln i B) (chunk Ln i C))) as [Hl Hc].
      { rewrite length_zip_with, !chunk_length by lia. lia. }
      split; [exact Hl|]. intros j Hj. rewrite Hc by exact Hj.
      destruct (Nat.eq_dec j i) as [->|Hne]; [rewrite Hbit; reflexivity|].
      apply Hprev. lia.
    + unfold bind, lift, ret, copy.
      eexists. split; [reflexivity|].
      rewrite !chunk_length by lia.
      rewrite (take_ge (chunk Ln i C)) by (rewrite chunk_length; lia).
      rewrite (drop_ge (chunk Ln i corr)) by (rewrite chunk_length; lia).
      rewrite app_nil_r.
      destruct (Hw (chunk Ln i C)) as [Hl Hc].
      { apply chunk_length. lia. }
      split; [exact Hl|]. intros j Hj. rewrite Hc by exact Hj.
      destruct (Nat.eq_dec j i) as [->|Hne]; [rewrite Hbit; reflexivity|].
      apply Hprev. lia.
  - split; [exact H0|]. intros j Hj. lia.
  - exists corr. split; [exact Hrun|]. split; [exact Hlen|].
    intros j Hj. apply Hchunks. lia.
Qed.

(** The sizes of a batch of mask triples, when they fit. *)
Lemma mask_sizes (n L : Z) :
  0 <= n -> n mod 8 = 0 -> 0 <= L -> n * L < 2 ^ 63 ->
  Z.to_nat n = (8 * Z.to_nat (Z.quot n 8))%nat /\
  0 <= Z.quot n 8 /\
  int_wrap (n * L) = Z.of_nat (Z.to_nat n * Z.to_nat L).
Proof.
  intros Hn Hm HL Hfit.
  assert (Hq : Z.quot n 8 = n / 8) by (apply Z.quot_div_nonneg; lia).
  rewrite Hq. split; [|split].
  - Z.div_mod_to_equations. lia.
  - Z.div_mod_to_equations. lia.
  - rewrite int_wrap_small by nia. rewrite Nat2Z.inj_mul, !Z2Nat.id by lia.
    reflexivity.
Qed.

Lemma use_streams_run_gen streams ch a b c la lb lc :
  length a = la -> length b = lb -> length c = lc ->
  exists streams',
    use_streams (a, b, c) (mkServer streams ch) =
    Done (xor_blocks a (map (fun v => block v 0 la) streams),
          xor_blocks b (map (fun v => block v la lb) streams),
          xor_blocks c (map (fun v => block v (la + lb) lc) streams))
         (mkServer streams' ch).
Proof.
  intros Ha Hb Hc. unfold use_streams. cbn [RandomStreams CorrectionCh].
  pose proof (range_streams_blocks_gen streams a b c la lb lc Ha Hb Hc) as H.
  destruct (range_streams streams (a, b, c)) as [abc streams'].
  cbn [fst] in H. subst abc. eauto.
Qed.

Lemma MaskTripleCorrection_run (n L : Z) streams ch :
  0 <= n -> n mod 8 = 0 -> 0 <= L -> n * L < 2 ^ 63 ->
  let N := Z.to_nat n in
  let Ln := Z.to_nat L in
  let '(A, B, C) := mask_sums streams (Z.to_nat (Z.quot n 8)) (N * Ln) in
  exists streams' corr,
    MaskTripleCorrection n L (mkServer streams ch) =
      Done tt (mkServer streams' (ch ++ [corr])) /\
    length corr = (N * Ln)%nat /\
    forall j, (j < N)%nat -> chunk Ln j corr = mask_expected Ln A B C j.
Proof.
  intros Hn Hm HL Hfit. cbn zeta.
  destruct (mask_sizes n L Hn Hm HL Hfit) as (HN & Hq & Hw).
  set (N := Z.to_nat n) in *. set (Ln := Z.to_nat L) in *.
  set (la := Z.to_nat (Z.quot n 8)) in *.
  unfold mask_sums.
  destruct (use_streams_run_gen streams ch (replicate la 0) (replicate (N * Ln) 0)
              (replicate (N * Ln) 0) la (N * Ln) (N * Ln))
    as (streams' & Hrun); try apply length_replicate.
  set (A := xor_blocks (replicate la 0) (map (fun v => block v 0 la) streams)) in *.
  set (B := xor_blocks (replicate (N * Ln) 0)
              (map (fun v => block v la (N * Ln)) streams)) in *.
  set (C := xor_blocks (replicate (N * Ln) 0)
              (map (fun v => block v (la + N * Ln) (N * Ln)) streams)) in *.
  assert (HA : length A = la)
    by (apply xor_blocks_length; auto using length_replicate, Forall_blocks).
  assert (HB : length B = (N * Ln)%nat)
    by (apply xor_blocks_length; auto using length_replicate, Forall_blocks).
  assert (HC : length C = (N * Ln)%nat)
    by (apply xor_blocks_length; auto using length_replicate, Forall_blocks).
  destruct (mask_correction_loop n L A B C (replicate (N * Ln) 0)
              (mkServer streams' ch) HL Hfit)
    as (corr & Hloop & Hlen & Hchunks);
    try (fold N; fold Ln); try lia; try apply length_replicate.
  exists streams', corr. split; [|split; [exact Hlen|exact Hchunks]].
  unfold MaskTripleCorrection. rewrite Hw.
  rewrite !make_nonneg by lia. rewrite Nat2Z.id. fold la.
  unfold bind at 1. cbn [lift]. unfold ret at 1.
  unfold bind at 1. cbn [lift]. unfold ret at 1.
  unfold bind at 1. cbn [lift]. unfold ret at 1.
  unfold bind at 1. rewrite Hrun. cbn iota beta.
  unfold bind at 1. cbn [lift]. unfold ret at 1.
  unfold bind at 1. cbn zeta in Hloop |- *. fold N in Hloop |- *.
  rewrite Hloop. reflexivity.
Qed.

Lemma maskTriple_loop (L : Z) m from (a b c : list Z) (s : CommodityClientState) :
  0 <= L -> (from + m <= 8 * length a)%nat ->
  length b = (m * Z.to_nat L)%nat -> length c = (m * Z.to_nat L)%nat ->
  for_acc m from (fun i bc =>
    let '(b, c) := bc in
    let* g := lift "index out of range" (GetBit a (Z.of_nat i)) in
    let* bs := lift "slice bounds out of range" (slice b 0 L) in
    let* cs := lift "slice bounds out of range" (slice c 0 L) in
    let* b := lift "slice bounds out of range"
                (slice b L (Z.of_nat (length b))) in
    let* c := lift "slice bounds out of range"
                (slice c L (Z.of_nat (length c))) in
    ret (mkMaskTriple g bs cs, (b, c))) (b, c) s =
  Done (map (fun k => mkMaskTriple (bit_of a (from + k)) (chunk (Z.to_nat L) k b)
                                   (chunk (Z.to_nat L) k c)) (seq 0 m)) s.
Proof.
  intros HL. revert from b c. induction m as [|m IH]; intros from b c Ha Hb Hc.
  - reflexivity.
  - cbn [for_acc]. unfold bind at 1. cbn beta iota.
    rewrite GetBit_in_range by (apply Nat.Div0.div_lt_upper_bound; lia).
    rewrite (slice_prefix b L), (slice_prefix c L) by lia.
    rewrite (slice_suffix b L), (slice_suffix c L) by lia.
    unfold bind at 1. cbn [lift]. unfold ret at 1.
    unfold bind at 1. cbn [lift]. unfold ret at 1.
    unfold bind at 1. cbn [lift]. unfold ret at 1.
    unfold bind at 1. cbn [lift]. unfold ret at 1.
    unfold bind at 1. cbn [lift]. unfold ret at 1.
    unfold ret at 1. cbn [fst snd]. unfold bind.
    rewrite IH by (rewrite ?length_drop; lia).
    unfold ret. cbn [seq map]. rewrite Nat.add_0_r. f_equal. f_equal.
    rewrite <- seq_shift, map_map.
    apply map_ext. intros k. rewrite !chunk_drop.
    replace (Datatypes.S from + k)%nat with (from + Datatypes.S k)%nat by lia.
    reflexivity.
Qed.

Lemma maskTriple_run (n L : Z) v ch :
  0 <= n -> n mod 8 = 0 -> 0 <= L -> n * L < 2 ^ 63 ->
  match ch with
  | Some (x :: _) => length x = (Z.to_nat n * Z.to_nat L)%nat
  | Some [] => False
  | None => True
  end ->
  maskTriple n L (mkClient v ch []) =
  Done (party_masks (Z.to_nat n) (Z.to_nat L)
          (mask_bufs (correction_for ch) (Z.to_nat (Z.quot n 8))
             (Z.to_nat n * Z.to_nat L) v))
       (client_after (RequestMaskTripleCorrection n L) ch v
          (Z.to_nat (Z.quot n 8) + 2 * (Z.to_nat n * Z.to_nat L))).
Proof.
  intros Hn Hm HL Hfit Hch.
  destruct (mask_sizes n L Hn Hm HL Hfit) as (HN & Hq & Hw).
  set (N := Z.to_nat n) in *. set (Ln := Z.to_nat L) in *.
  set (la := Z.to_nat (Z.quot n 8)) in *.
  unfold maskTriple. rewrite Hw.
  rewrite !(make_nonneg 0) by lia. rewrite Nat2Z.id. fold la.
  unfold bind at 1. cbn [lift]. unfold ret at 1.
  unfold bind at 1. cbn [lift]. unfold ret at 1.
  unfold bind at 1. cbn [lift]. unfold ret at 1.
  unfold bind at 1. rewrite client_xor_run.
  unfold bind at 1. rewrite client_xor_run, block_shift.
  unfold bind at 1. rewrite client_xor_run, !block_shift.
  cbn [keystream consumed]. rewrite !Nat.add_0_r.
  replace (consumed v + la + N * Ln + N * Ln)%nat
    with (consumed v + (la + 2 * (N * Ln)))%nat by lia.
  assert (Hres : make (mkMaskTriple 0 [] []) n =
                 Some (replicate N (mkMaskTriple 0 [] []))).
  { apply make_nonneg. lia. }
  unfold bind at 1, correct. cbn [ClientCorrectionCh RandomStream Requested].
  destruct ch as [[|x rest]|]; [contradiction| |].
  - unfold XorBytes. rewrite decide_True by (rewrite block_length; lia).
    cbn [lift]. unfold ret at 1.
    unfold bind at 1. rewrite Hres. cbn [lift]. unfold ret at 1.
    rewrite length_replicate.
    rewrite maskTriple_loop;
      rewrite ?length_zip_with, ?block_length; try lia.
    reflexivity.
  - unfold bind at 1. rewrite Hres. cbn [lift]. unfold ret at 1.
    rewrite length_replicate.
    rewrite maskTriple_loop; rewrite ?block_length; try lia.
    reflexivity.
Qed.

(** *** When a batch is returned *)

Lemma slice_Some {A} (s : list A) lo hi r :
  slice s lo hi = Some r ->
  0 <= lo /\ lo <= hi /\ hi <= Z.of_nat (length s) /\
  r = take (Z.to_nat (hi - lo)) (drop (Z.to_nat lo) s).
Proof.
  unfold slice.
  destruct (Z.leb_spec 0 lo), (Z.leb_spec lo hi),
    (Z.leb_spec hi (Z.of_nat (length s))); simpl; try discriminate.
  intros [= <-]. auto.
Qed.

Lemma for_acc_length {S A B} n from (body : nat -> A -> M S (B * A)) acc s rs s' :
  for_acc n from body acc s = Done rs s' -> length rs = n.
Proof.
  revert from acc s rs s'. induction n as [|n IH]; intros from acc s rs s' H.
  - simpl in H. apply ret_Done in H. destruct H as [-> _]. reflexivity.
  - simpl in H. apply bind_Done in H. destruct H as (r & s1 & _ & H).
    apply bind_Done in H. destruct H as (rs1 & s2 & H1 & H).
    apply ret_Done in H. destruct H as [-> _]. simpl. f_equal. eauto.
Qed.

(** A loop that returned had room for every entry. *)
Lemma maskTriple_loop_room (L : Z) m from (a b c : list Z)
    (s : CommodityClientState) ts s' :
  for_acc m from (fun i bc =>
    let '(b, c) := bc in
    let* g := lift "index out of range" (GetBit a (Z.of_nat i)) in
    let* bs := lift "slice bounds out of range" (slice b 0 L) in
    let* cs := lift "slice bounds out of range" (slice c 0 L) in
    let* b := lift "slice bounds out of range"
                (slice b L (Z.of_nat (length b))) in
    let* c := lift "slice bounds out of range"
                (slice c L (Z.of_nat (length c))) in
    ret (mkMaskTriple g bs cs, (b, c))) (b, c) s = Done ts s' ->
  (0 < m)%nat -> 0 <= L /\ Z.of_nat m * L <= Z.of_nat (length b).
Proof.
  revert from b c s ts s'.
  induction m as [|m IH]; intros from b c s ts s' H Hm; [lia|].
  cbn [for_acc] in H. apply bind_Done in H. destruct H as (r & s1 & Hb & H).
  cbn beta iota in Hb. peel Hb.
  apply slice_Some in Hrun0. destruct Hrun0 as (_ & HL & HLb & _).
  apply slice_Some in Hrun2. destruct Hrun2 as (_ & _ & _ & ->).
  split; [exact HL|].
  apply bind_Done in H. destruct H as (rs & s2 & H & _). cbn [snd] in H.
  destruct m as [|m]; [lia|].
  apply IH in H; [|lia]. destruct H as [_ H].
  rewrite length_take, length_drop in H. lia.
Qed.

(** The numbers for which a party gets a batch. *)
Lemma maskTriple_Done_domain n L c ts c' :
  maskTriple n L c = Done ts c' ->
  length ts = Z.to_nat n /\ 0 <= n /\
  (n = 0 \/ (n mod 8 = 0 /\ 0 <= L /\ n * L < 2 ^ 63)).
Proof.
  intros H.
  assert (Hmod : 0 < n -> n mod 8 = 0).
  { intros Hn. destruct (Z.eq_dec (n mod 8) 0) as [|Hne]; [assumption|].
    pose proof (maskTriple_stops n L c Hn Hne) as Hs. rewrite H in Hs.
    contradiction. }
  unfold maskTriple in H.
  apply bind_Done in H. destruct H as (a0 & s0 & Ha0 & H).
  apply lift_Done in Ha0. destruct Ha0 as [Ha0 ->].
  apply bind_Done in H. destruct H as (b0 & s0 & Hb0 & H).
  apply lift_Done in Hb0. destruct Hb0 as [Hb0 ->].
  apply bind_Done in H. destruct H as (c0 & s0 & Hc0 & H).
  apply lift_Done in Hc0. destruct Hc0 as [Hc0 ->].
  apply bind_Done in H. destruct H as (a1 & s1 & Ha1 & H).
  apply bind_Done in H. destruct H as (b1 & s2 & Hb1 & H).
  apply bind_Done in H. destruct H as (c1 & s3 & Hc1 & H).
  apply bind_Done in H. destruct H as (c2 & s4 & Hc2 & H).
  apply bind_Done in H. destruct H as (result & s5 & Hres & H).
  apply lift_Done in Hres. destruct Hres as [Hres ->].
  destruct (client_xor_Done b0 s1) as (b' & s2' & Hx & Hlen & _).
  rewrite Hb1 in Hx. injection Hx as <- <-.
  apply make_Some_length in Hb0 as Hlb.
  assert (Hw : 0 <= int_wrap (n * L)).
  { unfold make in Hb0. destruct (Z.ltb_spec (int_wrap (n * L)) 0);
      [discriminate|assumption]. }
  assert (Hn : 0 <= n).
  { unfold make in Hres. destruct (Z.ltb_spec n 0); [discriminate|assumption]. }
  apply make_Some_length in Hres as Hlr.
  pose proof (for_acc_length _ _ _ _ _ _ _ H) as Hts.
  split; [congruence|]. split; [exact Hn|].
  destruct (Z.eq_dec n 0) as [|Hne]; [left; assumption|right].
  split; [apply Hmod; lia|].
  apply maskTriple_loop_room in H; [|lia].
  destruct H as [HL Hroom]. split; [exact HL|].
  assert (Hww : int_wrap (n * L) < 2 ^ 63).
  { unfold int_wrap. pose proof (Z.mod_pos_bound (n * L + 2 ^ 63) (2 ^ 64)). lia. }
  lia.
Qed.

(** *** The XOR of the shares *)

Lemma xor_strings_length n (l : list (list Z)) :
  Forall (fun x => length x = n) l -> length (xor_strings n l) = n.
Proof.
  induction 1 as [|x l Hx _ IH]; simpl.
  - apply length_replicate.
  - rewrite length_zip_with. lia.
Qed.

Lemma nth_xor_strings n (l : list (list Z)) p :
  Forall (fun x => length x = n) l ->
  nth p (xor_strings n l) 0 = xor_all (map (fun x => nth p x 0) l).
Proof.
  induction 1 as [|x l Hx Hl IH]; simpl.
  - apply nth_zeros.
  - rewrite nth_zip_lxor by (rewrite (xor_strings_length n l Hl); exact Hx).
    rewrite IH. reflexivity.
Qed.

Lemma lxor_cancel0 x r : Z.lxor (Z.lxor x (Z.lxor x r)) r = 0.
Proof.
  apply Z.bits_inj'. intros k _. rewrite !Z.lxor_spec, Z.testbit_0_l.
  destruct (Z.testbit x k), (Z.testbit r k); reflexivity.
Qed.

Lemma bit_of_bit l j : bit_of l j = 0 \/ bit_of l j = 1.
Proof. unfold bit_of. destruct (Z.testbit _ _); auto. Qed.

Lemma Forall_chunks (bufs : list (list Z)) L j m :
  (j * L + L <= m)%nat ->
  Forall (fun x => length x = m) bufs ->
  Forall (fun x => length x = L) (map (chunk L j) bufs).
Proof.
  intros Hj Hb. apply Forall_map. eapply list.Forall_impl; [exact Hb|].
  intros x Hx. cbn beta in Hx. apply chunk_length. lia.
Qed.

(** The batches that are returned: the XOR of the [C] shares is the XOR
    of the [B] shares or the string of zeros, by the XOR of the [a]
    shares. *)
Lemma mask_triple_shares (streams : list Stream) (n L : Z)
    (srv' : CommodityServerState) (shares : list (list MaskTriple)) :
  streams <> [] ->
  MaskTripleCorrection n L (mkServer streams []) = Done tt srv' ->
  Forall2 (fun c ts => exists c', maskTriple n L c = Done ts c')
          (clients_of (CorrectionCh srv') streams) shares ->
  Forall (fun ts => length ts = Z.to_nat n) shares /\
  forall j, (j < Z.to_nat n)%nat ->
    let dflt := mkMaskTriple 0 [] [] in
    let a := xor_all (column dflt m_a j shares) in
    (a = 0 \/ a = 1) /\
    xor_strings (Z.to_nat L) (column dflt m_C j shares) =
    if a =? 1 then xor_strings (Z.to_nat L) (column dflt m_B j shares)
    else replicate (Z.to_nat L) 0.
Proof.
  intros Hne Hsrv Hcl.
  assert (Hlens : Forall (fun ts => length ts = Z.to_nat n) shares).
  { clear -Hcl. induction Hcl as [|c ts cs tss (c' & Hc) _ IH]; constructor; auto.
    apply (maskTriple_Done_domain _ _ _ _ _ Hc). }
  split; [exact Hlens|]. intros j Hj.
  destruct streams as [|v0 rest]; [contradiction|]. clear Hne.
  cbn [clients_of] in Hcl. inversion Hcl as [|c0 ts0 cs tss (c0' & Hc0) Hrest]; subst.
  destruct (maskTriple_Done_domain _ _ _ _ _ Hc0) as (_ & Hn & [->|(Hm & HL & Hfit)]);
    [simpl in Hj; lia|].
  set (N := Z.to_nat n) in *. set (Ln := Z.to_nat L) in *.
  set (la := Z.to_nat (Z.quot n 8)) in *. set (m := (N * Ln)%nat).
  pose proof (MaskTripleCorrection_run n L (v0 :: rest) [] Hn Hm HL Hfit) as Hrun.
  cbn zeta in Hrun. fold N Ln la m in Hrun. unfold mask_sums in Hrun.
  destruct Hrun as (streams' & corr & Hrun & Hlc & Hchunks).
  rewrite Hrun in Hsrv. injection Hsrv as <-. cbn [CorrectionCh app] in *.
  (* the batches *)
  rewrite (maskTriple_run n L v0 (Some [corr]) Hn Hm HL Hfit Hlc) in Hc0.
  assert (ts0 = party_masks N Ln (mask_bufs (Some corr) la m v0)) as ->
    by (injection Hc0 as Hc0 _; rewrite <- Hc0; reflexivity).
  clear Hc0 Hcl.
  assert (Htss : tss = map (fun v => party_masks N Ln (mask_bufs None la m v)) rest).
  { clear -Hrest Hn Hm HL Hfit. revert tss Hrest.
    induction rest as [|v rest IH]; intros tss H; inversion H as [|? ts ? tss' (c' & Hc) Hr];
      subst; [reflexivity|].
    rewrite (maskTriple_run n L v None Hn Hm HL Hfit I) in Hc.
    cbn [map correction_for] in Hc |- *.
    f_equal; [injection Hc as Hc _; rewrite <- Hc; reflexivity|]. apply IH, Hr. }
  subst tss. clear Hrest Hlens.
  assert (Hfitj : (j * Ln + Ln <= m)%nat) by (unfold m; nia).
  assert (Hla : (N <= 8 * la)%nat).
  { destruct (mask_sizes n L Hn Hm HL Hfit) as (H8 & _). fold N la in H8. lia. }
  set (A := xor_blocks (replicate la 0) (map (fun v => block v 0 la) (v0 :: rest))) in *.
  set (B := xor_blocks (replicate m 0) (map (fun v => block v la m) (v0 :: rest))) in *.
  set (C := xor_blocks (replicate m 0) (map (fun v => block v (la + m) m) (v0 :: rest))) in *.
  cbn zeta.
  (* the columns *)
  assert (Hnth : forall abc, nth j (party_masks N Ln abc) (mkMaskTriple 0 [] []) =
            mkMaskTriple (bit_of (fst (fst abc)) j) (chunk Ln j (snd (fst abc)))
                         (chunk Ln j (snd abc))).
  { intros [[a b] c]. unfold party_masks. rewrite nth_map_seq by exact Hj.
    reflexivity. }
  unfold column. cbn [map]. rewrite !map_map, !Hnth.
  cbn [mask_bufs fst snd m_a m_B m_C].
  rewrite (map_ext _ (fun v => bit_of (block v 0 la) j))
    by (intros v; rewrite Hnth; reflexivity).
  rewrite (map_ext (fun v => m_C _) (fun v => chunk Ln j (block v (la + m) m)))
    by (intros v; rewrite Hnth; reflexivity).
  rewrite (map_ext (fun v => m_B _) (fun v => chunk Ln j (block v la m)))
    by (intros v; rewrite Hnth; reflexivity).
  (* the bit *)
  assert (Hbit : xor_all (bit_of (block v0 0 la) j ::
                          map (fun v => bit_of (block v 0 la) j) rest) = bit_of A j).
  { unfold A. rewrite bit_of_xor_blocks by apply Forall_blocks.
    cbn [map]. rewrite map_map. reflexivity. }
  rewrite Hbit. split; [apply bit_of_bit|].
  specialize (Hchunks j Hj). unfold mask_expected in Hchunks.
  (* byte by byte *)
  assert (HFB : Forall (fun x => length x = Ln)
                  (chunk Ln j (block v0 la m) ::
                   map (fun v => chunk Ln j (block v la m)) rest)).
  { apply (Forall_chunks (block v0 la m :: map (fun v => block v la m) rest) Ln j m Hfitj
             (Forall_blocks (v0 :: rest) la m)) || idtac.
    constructor; [apply chunk_length; rewrite block_length; lia|].
    apply Forall_map, list.Forall_forall. intros v _.
    apply chunk_length. rewrite block_length. lia. }
  assert (HFC : Forall (fun x => length x = Ln)
                  (chunk Ln j (zip_with Z.lxor (block v0 (la + m) m) corr) ::
                   map (fun v => chunk Ln j (block v (la + m) m)) rest)).
  { constructor.
    - apply chunk_length. rewrite length_zip_with, block_length. lia.
    - apply Forall_map, list.Forall_forall. intros v _.
      apply chunk_length. rewrite block_length. lia. }
  apply (nth_ext _ _ 0 0).
  { rewrite (xor_strings_length Ln _ HFC).
    destruct (bit_of A j =? 1);
      [rewrite (xor_strings_length Ln _ HFB)|rewrite length_replicate];
      reflexivity. }
  rewrite (xor_strings_length Ln _ HFC). intros p Hp.
  rewrite (nth_xor_strings Ln _ p HFC). cbn [map xor_all fold_right].
  rewrite map_map.
  rewrite (map_ext _ (fun v => nth (j * Ln + p) (block v (la + m) m) 0))
    by (intros v; apply nth_chunk; exact Hp).
  rewrite nth_chunk by exact Hp.
  rewrite nth_zip_lxor by (rewrite block_length; lia).
  rewrite <- (nth_chunk Ln j p corr Hp), Hchunks.
  assert (HCp : nth (j * Ln + p) C 0 =
                Z.lxor (nth (j * Ln + p) (block v0 (la + m) m) 0)
                  (fold_right Z.lxor 0
                     (map (fun v => nth (j * Ln + p) (block v (la + m) m) 0) rest))).
  { unfold C. rewrite (nth_xor_blocks _ _ m)
      by (auto using length_replicate, Forall_blocks).
    rewrite nth_zeros, Z.lxor_0_l. cbn [map xor_all fold_right].
    rewrite map_map. reflexivity. }
  assert (HBp : nth (j * Ln + p) B 0 =
                xor_all (map (fun x => nth p x 0)
                  (chunk Ln j (block v0 la m) ::
                   map (fun v => chunk Ln j (block v la m)) rest))).
  { unfold B. rewrite (nth_xor_blocks _ _ m)
      by (auto using length_replicate, Forall_blocks).
    rewrite nth_zeros, Z.lxor_0_l. cbn [map xor_all fold_right].
    rewrite !map_map. rewrite nth_chunk by exact Hp. f_equal.
    f_equal. apply map_ext. intros v. symmetry. apply nth_chunk. exact Hp. }
  assert (HlB : length B = m)
    by (apply xor_blocks_length; auto using length_replicate, Forall_blocks).
  assert (HlC : length C = m)
    by (apply xor_blocks_length; auto using length_replicate, Forall_blocks).
  destruct (bit_of A j =? 1).
  - rewrite (nth_xor_strings Ln _ p HFB), <- HBp.
    rewrite nth_zip_lxor by (rewrite !chunk_length by lia; reflexivity).
    rewrite !nth_chunk by exact Hp. rewrite HCp. apply lxor_cancel.
  - rewrite nth_zeros, nth_chunk by exact Hp. rewrite HCp.
    apply lxor_cancel0.
Qed.

(** The runs return on the widths the buffers are made for. *)
Lemma mask_triple_returns (streams : list Stream) (n L : Z) :
  streams <> [] ->
  0 <= n -> n mod 8 = 0 -> 0 <= L -> n * L < 2 ^ 63 ->
  exists srv' shares,
    MaskTripleCorrection n L (mkServer streams []) = Done tt srv' /\
    Forall2 (fun c ts => exists c', maskTriple n L c = Done ts c')
            (clients_of (CorrectionCh srv') streams) shares.
Proof.
  intros Hne Hn Hm HL Hfit.
  destruct streams as [|v0 rest]; [contradiction|]. clear Hne.
  pose proof (MaskTripleCorrection_run n L (v0 :: rest) [] Hn Hm HL Hfit) as Hrun.
  cbn zeta in Hrun. unfold mask_sums in Hrun.
  destruct Hrun as (streams' & corr & Hrun & Hlc & _).
  exists (mkServer streams' [corr]).
  eexists (_ :: map (fun v => party_masks (Z.to_nat n) (Z.to_nat L)
                       (mask_bufs None (Z.to_nat (Z.quot n 8))
                          (Z.to_nat n * Z.to_nat L) v)) rest).
  split; [exact Hrun|]. cbn [CorrectionCh clients_of]. constructor.
  - eexists. apply (maskTriple_run n L v0 (Some [corr]) Hn Hm HL Hfit Hlc).
  - clear -Hn Hm HL Hfit. induction rest as [|v rest IH]; simpl; constructor;
      [|exact IH].
    eexists. apply (maskTriple_run n L v None Hn Hm HL Hfit I).
Qed.

(** C4: with one stream per party, shared with the server, one run of
    [MaskTripleCorrection] and one run of [maskTriple] by every party, the
    designated party reading the correction, return when [numTriples] is a
    multiple of 8 and the sizes are those of buffers; and whenever they
    return, every party holds [numTriples] mask triples and for every index
    the XOR of the [C] shares of all parties is the XOR of the [B] shares if
    the XOR of the [a] shares is 1, and the string of [numBytesTriple] zeros
    if it is 0. *)
Theorem mask_triple_sound (streams : list Stream) (n L : Z) :
  streams <> [] ->
  (0 <= n -> n mod 8 = 0 -> 0 <= L -> n * L < 2 ^ 63 ->
   exists srv' shares,
     MaskTripleCorrection n L (mkServer streams []) = Done tt srv' /\
     Forall2 (fun c ts => exists c', maskTriple n L c = Done ts c')
             (clients_of (CorrectionCh srv') streams) shares) /\
  (forall srv' shares,
     MaskTripleCorrection n L (mkServer streams []) = Done tt srv' ->
     Forall2 (fun c ts => exists c', maskTriple n L c = Done ts c')
             (clients_of (CorrectionCh srv') streams) shares ->
     Forall (fun ts => length ts = Z.to_nat n) shares /\
     forall j, (j < Z.to_nat n)%nat ->
       let dflt := mkMaskTriple 0 [] [] in
       let a := xor_all (column dflt m_a j shares) in
       (a = 0 \/ a = 1) /\
       xor_strings (Z.to_nat L) (column dflt m_C j shares) =
       if a =? 1 then xor_strings (Z.to_nat L) (column dflt m_B j shares)
       else replicate (Z.to_nat L) 0).
Proof.
  intros Hne. split.
  - apply mask_triple_returns, Hne.
  - intros srv' shares Hs Hc.
    exact (mask_triple_shares streams n L srv' shares Hne Hs Hc).
Qed.

Lemma mask_triple_sound_witness :
  exists srv' shares,
    MaskTripleCorrection 64 4 (mkServer streams0 []) = Done tt srv' /\
    Forall2 (fun c ts => exists c', maskTriple 64 4 c = Done ts c')
            (clients_of (CorrectionCh srv') streams0) shares /\
    Forall (fun ts => length ts = Z.to_nat 64) shares /\
    forall j, (j < Z.to_nat 64)%nat ->
      let dflt := mkMaskTriple 0 [] [] in
      let a := xor_all (column dflt m_a j shares) in
      (a = 0 \/ a = 1) /\
      xor_strings (Z.to_nat 4) (column dflt m_C j shares) =
      if a =? 1 then xor_strings (Z.to_nat 4) (column dflt m_B j shares)
      else replicate (Z.to_nat 4) 0.
Proof.
  destruct (mask_triple_sound streams0 64 4) as [Hret Hsound]; [discriminate|].
  destruct Hret as (srv' & shares & Hs & Hc);
    [lia | reflexivity | lia | reflexivity |].
  exists srv', shares. split; [exact Hs|]. split; [exact Hc|].
  exact (Hsound srv' shares Hs Hc).
Defined.

(* ===================================================================== *)
(** * Part III: further properties of the code                            *)
(* ===================================================================== *)

(** ** The slot of a list of keys *)

Lemma slot_from_value (keys : list Key) (bs : list Z) (r : Z) :
  Forall2 (fun k b => lsb k = Some b) keys bs ->
  0 <= r -> (r + 1) * 2 ^ Z.of_nat (length keys) <= 2 ^ 63 ->
  slot_from r keys = Some (fold_left (fun r b => 2 * r + b) bs r) /\
  r * 2 ^ Z.of_nat (length keys) <= fold_left (fun r b => 2 * r + b) bs r
    < (r + 1) * 2 ^ Z.of_nat (length keys).
Proof.
  intros H. revert r. induction H as [|k b keys bs Hk _ IH]; intros r Hr Hfit.
  - simpl. split; [reflexivity|]. lia.
  - cbn [slot_from fold_left]. rewrite Hk. cbn [mbind option_bind].
    destruct (lsb_bit k b Hk) as [-> | ->].
    + cbn [length] in Hfit |- *. rewrite Nat2Z.inj_succ, Z.pow_succ_r in Hfit |- * by lia.
      assert (Hp : 0 < 2 ^ Z.of_nat (length keys)) by (apply Z.pow_pos_nonneg; lia).
      rewrite (int_wrap_small (r * 2)) by nia.
      rewrite int_wrap_small by nia.
      replace (r * 2 + 0) with (2 * r + 0) by lia.
      destruct (IH (2 * r + 0)) as [-> Hb]; [lia|nia|]. split; [reflexivity|nia].
    + cbn [length] in Hfit |- *. rewrite Nat2Z.inj_succ, Z.pow_succ_r in Hfit |- * by lia.
      assert (Hp : 0 < 2 ^ Z.of_nat (length keys)) by (apply Z.pow_pos_nonneg; lia).
      rewrite (int_wrap_small (r * 2)) by nia.
      rewrite int_wrap_small by nia.
      replace (r * 2 + 1) with (2 * r + 1) by lia.
      destruct (IH (2 * r + 1)) as [-> Hb]; [lia|nia|]. split; [reflexivity|nia].
Qed.

Lemma bits_value_inj (bs bs' : list Z) (r r' : Z) :
  Forall (fun b => b = 0 \/ b = 1) bs -> Forall (fun b => b = 0 \/ b = 1) bs' ->
  length bs = length bs' ->
  fold_left (fun r b => 2 * r + b) bs r = fold_left (fun r b => 2 * r + b) bs' r' ->
  r = r' /\ bs = bs'.
Proof.
  intros H. revert bs' r r'. induction H as [|b bs Hb _ IH];
    intros [|b' bs'] r r' H' Hlen Heq; try discriminate.
  - auto.
  - inversion H' as [|? ? Hb' H'']; subst. cbn [fold_left] in Heq.
    destruct (IH bs' _ _ H'' ltac:(simpl in Hlen; lia) Heq) as [Hr ->].
    assert (r = r' /\ b = b') as [-> ->] by lia. auto.
Qed.

Lemma slot_from_empty (keys : list Key) (r : Z) :
  In [] keys -> slot_from r keys = None.
Proof.
  revert r. induction keys as [|k keys IH]; intros r; [contradiction|].
  intros [-> | Hin]; [reflexivity|].
  cbn [slot_from]. destruct (lsb k); [|reflexivity].
  cbn [mbind option_bind]. apply IH, Hin.
Qed.

(** X1 ([slot]): for up to 63 non-empty keys, [slot] is the number that
    the low bits of byte 0 of the keys spell, first key first; it is below
    [2^len(keys)], so it indexes a table of that size; and two lists of
    keys of one length have the same slot exactly when they have the same
    low bits.  With an empty key in the list, [slot] panics. *)
Theorem slot_selectors (keys keys' : list Key) (bs bs' : list Z) :
  (Forall2 (fun k b => lsb k = Some b) keys bs ->
   Forall2 (fun k b => lsb k = Some b) keys' bs' ->
   length keys = length keys' -> (length keys <= 63)%nat ->
   slot keys = Some (bits_value bs) /\ slot keys' = Some (bits_value bs') /\
   0 <= bits_value bs < 2 ^ Z.of_nat (length keys) /\
   (bits_value bs = bits_value bs' <-> bs = bs')) /\
  (In [] keys -> slot keys = None).
Proof.
  split; [|apply slot_from_empty].
  intros H H' Hlen Hn.
  assert (Hfit : (0 + 1) * 2 ^ Z.of_nat (length keys) <= 2 ^ 63).
  { rewrite Z.mul_1_l. apply Z.pow_le_mono_r; lia. }
  destruct (slot_from_value keys bs 0 H ltac:(lia) Hfit) as [Hs Hb].
  rewrite Hlen in Hfit.
  destruct (slot_from_value keys' bs' 0 H' ltac:(lia) Hfit) as [Hs' _].
  split; [exact Hs|]. split; [exact Hs'|]. split; [unfold bits_value; lia|].
  split; [|intros ->; reflexivity].
  intros Heq. eapply (bits_value_inj bs bs' 0 0); [| | |exact Heq].
  - clear -H. induction H as [|k b ? ? Hk]; constructor; [|assumption].
    eapply lsb_bit, Hk.
  - clear -H'. induction H' as [|k b ? ? Hk]; constructor; [|assumption].
    eapply lsb_bit, Hk.
  - apply Forall2_length in H, H'. congruence.
Qed.

Lemma slot_selectors_witness :
  slot [key_a; key_b; key_a'] = Some (bits_value [0; 1; 1]) /\
  slot [key_b; key_a; key_c] = Some (bits_value [1; 0; 0]) /\
  0 <= bits_value [0; 1; 1] < 2 ^ Z.of_nat (length [key_a; key_b; key_a']) /\
  (bits_value [0; 1; 1] = bits_value [1; 0; 0] <-> [0; 1; 1] = [1; 0; 0]).
Proof.
  apply (slot_selectors [key_a; key_b; key_a'] [key_b; key_a; key_c]).
  - repeat constructor.
  - repeat constructor.
  - reflexivity.
  - simpl. lia.
Defined.

(** ** Loops that make one wire per iteration *)

Lemma genWire_cursor w wi w' :
  genWire w = Done wi w' ->
  cursor (rng w') = (cursor (rng w) + tape_used w 1)%nat /\ key0 w' <> None.
Proof.
  unfold genWire, bind, init_key0, GenKey, tape_used.
  destruct (key0 w) as [d|] eqn:Hd.
  - unfold rng_read. cbn [key0]. rewrite Hd.
    intros H. apply lift_Done in H. destruct H as [_ ->].
    cbn [rng cursor key0]. split; [lia|congruence].
  - unfold rng_read.
    change (map (tape (rng w)) (seq (cursor (rng w)) KEY_SIZE) !! 0%nat)
      with (Some (tape (rng w) (cursor (rng w)))).
    cbn [key0 rng tape cursor].
    intros H. apply lift_Done in H. destruct H as [_ ->].
    cbn [rng cursor key0]. split; [lia|discriminate].
Qed.

Lemma tape_used_set w n :
  key0 w <> None -> tape_used w n = (n * KEY_SIZE)%nat.
Proof. unfold tape_used. destruct n; [reflexivity|]. destruct (key0 w); [lia|contradiction]. Qed.

Lemma tape_used_succ w w1 n :
  key0 w1 <> None ->
  (tape_used w 1 + tape_used w1 n = tape_used w (Datatypes.S n))%nat.
Proof.
  intros H. rewrite (tape_used_set w1 n H). unfold tape_used. lia.
Qed.

Lemma world_ok_add_events evs w : world_ok w -> world_ok (add_events evs w).
Proof. intros H. exact H. Qed.

Lemma later_add_events evs w : later w (add_events evs w).
Proof. repeat split; simpl; auto. exists evs. reflexivity. Qed.

Lemma delta_ok_add_events evs w wire :
  delta_ok w wire -> delta_ok (add_events evs w) wire.
Proof. intros H. exact H. Qed.

(** A loop whose iteration [i] makes a wire [wi] with [genWire], performs
    the IO [evs i wi] and stores [wi]. *)
Lemma wire_loop (evs : nat -> Wire -> list Event) n from
    (body : nat -> M World Wire) w :
  world_ok w ->
  (forall i s wi s1, (from <= i < from + n)%nat ->
     genWire s = Done wi s1 -> is_wire wi ->
     body i s = Done wi (add_events (evs i wi) s1)) ->
  exists ws w',
    for_range n from body w = Done ws w' /\ length ws = n /\
    world_ok w' /\ later w w' /\ Forall (delta_ok w') ws /\ Forall is_wire ws /\
    trace w' = trace w ++ concat (imap (fun j wi => evs (from + j)%nat wi) ws) /\
    inbox w' = inbox w /\ const0 w' = const0 w /\ const1 w' = const1 w /\
    cursor (rng w') = (cursor (rng w) + tape_used w n)%nat.
Proof.
  intros Hok Hbody. revert from w Hok Hbody.
  induction n as [|n IH]; intros from w Hok Hbody.
  - exists [], w. cbn [for_range]. unfold ret.
    split; [reflexivity|]. split; [reflexivity|]. split; [exact Hok|].
    split; [apply later_refl|]. split; [constructor|]. split; [constructor|].
    split; [simpl; rewrite app_nil_r; reflexivity|].
    split; [reflexivity|]. split; [reflexivity|]. split; [reflexivity|].
    simpl. lia.
  - destruct (genWire_ok w Hok)
      as (wi & s1 & Hgen & Hok1 & Hl1 & Hd1 & Hw1 & Htr1 & Hin1 & Hc0 & Hc1).
    destruct (genWire_cursor _ _ _ Hgen) as [Hcur Hkey].
    pose proof (Hbody from w wi s1 ltac:(lia) Hgen Hw1) as Hrun.
    destruct (IH (Datatypes.S from) (add_events (evs from wi) s1)
                (world_ok_add_events _ _ Hok1))
      as (ws & w' & Hrest & Hlen & Hok' & Hl' & Hd' & Hw' & Htr' & Hin' & Hc0' & Hc1' & Hcur').
    { intros i s wi' s1' Hi. apply Hbody. lia. }
    exists (wi :: ws), w'. cbn [for_range]. unfold bind at 1. rewrite Hrun.
    unfold bind at 1. rewrite Hrest. unfold ret.
    split; [reflexivity|]. split; [simpl; lia|]. split; [exact Hok'|].
    assert (Hl : later w w').
    { eapply later_trans; [exact Hl1|].
      eapply later_trans; [apply later_add_events|exact Hl']. }
    split; [exact Hl|]. split.
    { constructor; [|exact Hd']. eapply delta_ok_later; [|exact Hl'].
      apply delta_ok_add_events, Hd1. }
    split; [constructor; assumption|]. split.
    { rewrite Htr'. cbn [trace add_events]. rewrite Htr1, <- app_assoc.
      f_equal. rewrite imap_cons. cbn [concat].
      replace (from + 0)%nat with from by lia. f_equal. f_equal.
      apply imap_ext. intros j x _. simpl. f_equal. lia. }
    split; [rewrite Hin'; exact Hin1|].
    split; [rewrite Hc0'; exact Hc0|]. split; [rewrite Hc1'; exact Hc1|].
    rewrite Hcur'. cbn [rng add_events]. rewrite Hcur.
    rewrite <- (tape_used_succ w (add_events (evs from wi) s1) n Hkey). lia.
Qed.

Lemma is_wire_inv (wi : Wire) :
  is_wire wi -> exists k0 k1, wi = [k0; k1] /\ is_key k0 /\ is_key k1.
Proof.
  destruct wi as [|k0 [|k1 [|? ?]]]; simpl; try contradiction. eauto.
Qed.

Lemma concat_imap_nil {A B} (l : list A) :
  concat (imap (fun _ _ => @nil B) l) = [].
Proof.
  induction l as [|x l IH]; [reflexivity|]. rewrite imap_cons. simpl.
  erewrite imap_ext; [exact IH|]. reflexivity.
Qed.

Lemma concat_imap_single {A B} (f : nat -> A -> B) (l : list A) :
  concat (imap (fun i x => [f i x]) l) = imap f l.
Proof.
  revert f. induction l as [|x l IH]; intros f; [reflexivity|].
  rewrite !imap_cons. simpl. f_equal. apply (IH (f ∘ Datatypes.S)).
Qed.

Lemma imap_const {A B} (f : A -> B) (l : list A) :
  imap (fun _ x => f x) l = map f l.
Proof.
  induction l as [|x l IH]; [reflexivity|]. rewrite imap_cons. simpl.
  f_equal. exact IH.
Qed.

(** ** [genWires] *)

(** X2 ([genWires]): a request for no wire or for a negative number of
    wires panics before anything is read or sent; a request for [size > 0]
    wires returns [size] wires of the session, performs no IO, and reads 16
    bytes of randomness per wire, and 16 more when [key0] was not set. *)
Theorem genWires_batch (size : Z) (w : World) :
  (size <= 0 -> genWires size w = Panic "genWires with request <= 0" w) /\
  (0 < size -> world_ok w ->
   exists ws w',
     genWires size w = Done ws w' /\ length ws = Z.to_nat size /\
     Forall (delta_ok w') ws /\ Forall is_wire ws /\
     trace w' = trace w /\ inbox w' = inbox w /\
     cursor (rng w') = (cursor (rng w) + tape_used w (Z.to_nat size))%nat).
Proof.
  unfold genWires. split.
  - intros H. apply Z.leb_le in H. rewrite H. reflexivity.
  - intros H Hok. apply Z.leb_gt in H. rewrite H.
    destruct (wire_loop (fun _ _ => []) (Z.to_nat size) 0 (fun _ => genWire) w Hok)
      as (ws & w' & Hrun & Hlen & _ & _ & Hd & Hw & Htr & Hin & _ & _ & Hcur).
    { intros i s wi s1 _ Hgen _. rewrite Hgen. f_equal.
      destruct s1. unfold add_events. simpl. rewrite app_nil_r. reflexivity. }
    exists ws, w'. rewrite concat_imap_nil, app_nil_r in Htr. auto 10.
Qed.

Lemma genWires_batch_witness :
  genWires 0 (fresh_world rng0 []) =
    Panic "genWires with request <= 0" (fresh_world rng0 []) /\
  exists ws w',
    genWires 3 (fresh_world rng0 []) = Done ws w' /\ length ws = Z.to_nat 3 /\
    Forall (delta_ok w') ws /\ Forall is_wire ws /\
    trace w' = trace (fresh_world rng0 []) /\ inbox w' = inbox (fresh_world rng0 []) /\
    cursor (rng w') =
      (cursor (rng (fresh_world rng0 [])) + tape_used (fresh_world rng0 []) (Z.to_nat 3))%nat.
Proof.
  split.
  - apply (genWires_batch 0 (fresh_world rng0 [])). lia.
  - apply (genWires_batch 3 (fresh_world rng0 [])); [lia|apply world_ok_fresh].
Defined.

(** ** Inputs of the two parties *)

(** X3 ([ShareTo0]): for [bits >= 0] the call returns [bits] wires of the
    session and hands both labels of each wire to the oblivious transfer,
    the label of 0 first, one [Send] per wire in the order of the wires;
    nothing else is sent or received. *)
Theorem share_to_evaluator (bits : Z) (w : World) :
  world_ok w -> 0 <= bits ->
  exists ws w',
    vm_ShareTo0 bits w = Done ws w' /\ length ws = Z.to_nat bits /\
    Forall (delta_ok w') ws /\ Forall is_wire ws /\
    trace w' = trace w ++
               map (fun wi => EvSend (label wi false) (label wi true)) ws /\
    inbox w' = inbox w.
Proof.
  intros Hok Hb. unfold vm_ShareTo0. rewrite make_nonneg by exact Hb.
  unfold bind at 1. cbn [lift]. unfold ret at 1. rewrite length_replicate.
  destruct (wire_loop (fun _ wi => [EvSend (label wi false) (label wi true)])
              (Z.to_nat bits) 0
              (fun _ : nat =>
                 let* w := genWire in
                 let* m0 := index w 0 in
                 let* m1 := index w 1 in
                 let* _ := Send m0 m1 in
                 ret w) w Hok)
    as (ws & w' & Hrun & Hlen & _ & _ & Hd & Hw & Htr & Hin & _).
  { intros i s wi s1 _ Hgen Hwi.
    destruct (is_wire_inv wi Hwi) as (k0 & k1 & -> & _).
    unfold bind at 1. rewrite Hgen. reflexivity. }
  exists ws, w'. rewrite concat_imap_single, imap_const in Htr. auto 10.
Qed.

Lemma share_to_evaluator_witness :
  exists ws w',
    vm_ShareTo0 2 (fresh_world rng0 []) = Done ws w' /\ length ws = Z.to_nat 2 /\
    Forall (delta_ok w') ws /\ Forall is_wire ws /\
    trace w' = trace (fresh_world rng0 []) ++
               map (fun wi => EvSend (label wi false) (label wi true)) ws /\
    inbox w' = inbox (fresh_world rng0 []).
Proof.
  apply (share_to_evaluator 2 (fresh_world rng0 [])); [apply world_ok_fresh|lia].
Defined.

Lemma shiftr_bit (a : Z) (i : nat) :
  (Z.shiftr a (Z.of_nat i) mod 2 =? 0) = negb (Z.testbit a (Z.of_nat i)).
Proof.
  rewrite mod2_odd, Z.testbit_odd. destruct (Z.odd _); reflexivity.
Qed.

Lemma vm_ShareTo1_run (a bits : Z) (w : World) :
  world_ok w -> 0 <= bits <= 64 ->
  exists ws w',
    vm_ShareTo1 a bits w = Done ws w' /\ length ws = Z.to_nat bits /\
    Forall (delta_ok w') ws /\ Forall is_wire ws /\
    trace w' = trace w ++
               imap (fun i wi => EvSendK (label wi (Z.testbit a (Z.of_nat i)))) ws /\
    inbox w' = inbox w.
Proof.
  intros Hok Hb. unfold vm_ShareTo1.
  destruct (64 <? bits) eqn:H64; [apply Z.ltb_lt in H64; lia|].
  rewrite make_nonneg by lia.
  unfold bind at 1. cbn [lift]. unfold ret at 1.
  destruct (wire_loop (fun i wi => [EvSendK (label wi (Z.testbit a (Z.of_nat i)))])
              (Z.to_nat bits) 0
              (fun i : nat =>
                 let* w := genWire in
                 let* k := index w (if (Z.shiftr a (Z.of_nat i)) mod 2 =? 0
                                    then 0%nat else 1%nat) in
                 let* _ := SendK k in
                 ret w) w Hok)
    as (ws & w' & Hrun & Hlen & _ & _ & Hd & Hw & Htr & Hin & _).
  { intros i s wi s1 _ Hgen Hwi.
    destruct (is_wire_inv wi Hwi) as (k0 & k1 & -> & _).
    unfold bind at 1. rewrite Hgen. rewrite shiftr_bit.
    destruct (Z.testbit a (Z.of_nat i)); reflexivity. }
  exists ws, w'. rewrite concat_imap_single in Htr. auto 10.
Qed.

(** X4 ([ShareTo1]): for [0 <= bits <= 64] the call returns [bits] wires of
    the session and sends, for the wire [i], the one label that stands for
    bit [i] of the generator's input [a], with [SendK]; nothing else is sent
    or received. *)
Theorem share_to_generator (a bits : Z) (w : World) :
  world_ok w -> 0 <= bits <= 64 ->
  exists ws w',
    vm_ShareTo1 a bits w = Done ws w' /\ length ws = Z.to_nat bits /\
    Forall (delta_ok w') ws /\ Forall is_wire ws /\
    trace w' = trace w ++
               imap (fun i wi => EvSendK (label wi (Z.testbit a (Z.of_nat i)))) ws /\
    inbox w' = inbox w.
Proof. apply vm_ShareTo1_run. Qed.

Lemma share_to_generator_witness :
  exists ws w',
    vm_ShareTo1 5 3 (fresh_world rng0 []) = Done ws w' /\ length ws = Z.to_nat 3 /\
    Forall (delta_ok w') ws /\ Forall is_wire ws /\
    trace w' = trace (fresh_world rng0 []) ++
               imap (fun i wi => EvSendK (label wi (Z.testbit 5 (Z.of_nat i)))) ws /\
    inbox w' = inbox (fresh_world rng0 []).
Proof.
  apply (share_to_generator 5 3 (fresh_world rng0 [])); [apply world_ok_fresh|lia].
Defined.

(** ** [Random] *)

Lemma random_bytes (bits : Z) :
  1 <= bits ->
  (if negb (Z.rem bits 8 =? 0) then Z.quot bits 8 + 1 else Z.quot bits 8) =
  (bits + 7) / 8.
Proof.
  intros H. rewrite Z.rem_mod_nonneg, Z.quot_div_nonneg by lia.
  destruct (Z.eqb_spec (bits mod 8) 0); simpl; Z.div_mod_to_equations; lia.
Qed.

(** X5 ([Random]): for every [bits >= 1] the call returns: it reads
    [ceil(bits / 8)] random bytes, so that each of the [bits] bit lookups is
    inside the buffer, then makes [bits] wires of the session and hands both
    labels of wire [i] to the oblivious transfer, in the order (label of 0,
    label of 1) when bit [i] of the random bytes is 0 and in the other order
    when it is 1; nothing else is sent or received. *)
Theorem random_wires (bits : Z) (w : World) :
  world_ok w -> 1 <= bits ->
  let nb := Z.to_nat ((bits + 7) / 8) in
  let random := map (tape (rng w)) (seq (cursor (rng w)) nb) in
  exists ws w',
    vm_Random bits w = Done ws w' /\ length ws = Z.to_nat bits /\
    Forall (delta_ok w') ws /\ Forall is_wire ws /\
    trace w' = trace w ++
      imap (fun i wi =>
              let g := Z.testbit (nth (i / 8) random 0) (Z.of_nat (i mod 8)) in
              EvSend (label wi g) (label wi (negb g))) ws /\
    inbox w' = inbox w /\
    cursor (rng w') = (cursor (rng w) + nb + tape_used w (Z.to_nat bits))%nat.
Proof.
  intros Hok Hb nb random. unfold vm_Random.
  destruct (bits <? 1) eqn:H1; [apply Z.ltb_lt in H1; lia|].
  cbn zeta. rewrite random_bytes by exact Hb. fold nb.
  unfold bind at 1, GenKey, rng_read. fold random.
  set (w1 := mkWorld (key0 w) (const0 w) (const1 w)
               (mkRNG (tape (rng w)) (cursor (rng w) + nb)) (trace w) (inbox w)).
  assert (Hnb : (Z.to_nat bits <= 8 * nb)%nat).
  { unfold nb. assert (bits <= 8 * ((bits + 7) / 8)) by (Z.div_mod_to_equations; lia).
    lia. }
  destruct (wire_loop
              (fun i wi =>
                 let g := Z.testbit (nth (i / 8) random 0) (Z.of_nat (i mod 8)) in
                 [EvSend (label wi g) (label wi (negb g))])
              (Z.to_nat bits) 0
              (fun i : nat =>
                 let* w := genWire in
                 let* g := lift "index out of range" (GetBit random (Z.of_nat i)) in
                 let* m0 := index w 0 in
                 let* m1 := index w 1 in
                 let* _ := (if g =? 0 then Send m0 m1 else Send m1 m0) in
                 ret w) w1 Hok)
    as (ws & w' & Hrun & Hlen & _ & _ & Hd & Hw & Htr & Hin & _ & _ & Hcur).
  { intros i s wi s1 Hi Hgen Hwi.
    destruct (is_wire_inv wi Hwi) as (k0 & k1 & -> & _).
    unfold bind at 1. rewrite Hgen.
    rewrite GetBit_in_range.
    2:{ unfold random. rewrite length_map, length_seq.
        apply Nat.Div0.div_lt_upper_bound. lia. }
    unfold bit_of.
    destruct (Z.testbit (nth (i / 8) random 0) (Z.of_nat (i mod 8))); reflexivity. }
  exists ws, w'. rewrite concat_imap_single in Htr.
  split; [exact Hrun|]. split; [exact Hlen|]. split; [exact Hd|].
  split; [exact Hw|]. split; [exact Htr|]. split; [exact Hin|].
  rewrite Hcur. unfold w1, tape_used. cbn [rng cursor key0]. lia.
Qed.

Lemma random_wires_witness :
  exists ws w',
    vm_Random 11 (fresh_world rng0 []) = Done ws w' /\ length ws = Z.to_nat 11 /\
    Forall (delta_ok w') ws /\ Forall is_wire ws /\
    trace w' = trace (fresh_world rng0 []) ++
      imap (fun i wi =>
              let g := Z.testbit (nth (i / 8) (map tape0 (seq 0 2)) 0)
                                 (Z.of_nat (i mod 8)) in
              EvSend (label wi g) (label wi (negb g))) ws /\
    inbox w' = inbox (fresh_world rng0 []) /\
    cursor (rng w') = (0 + 2 + tape_used (fresh_world rng0 []) (Z.to_nat 11))%nat.
Proof.
  apply (random_wires 11 (fresh_world rng0 [])); [apply world_ok_fresh|lia].
Defined.

(** ** What the evaluator computes *)

Lemma lxor_swap (x d y : Z) : Z.lxor (Z.lxor x d) y = Z.lxor x (Z.lxor y d).
Proof. rewrite Z.lxor_assoc. f_equal. apply Z.lxor_comm. Qed.

Lemma lxor_both (x d y : Z) : Z.lxor (Z.lxor x d) (Z.lxor y d) = Z.lxor x y.
Proof.
  rewrite Z.lxor_assoc. f_equal. rewrite (Z.lxor_comm y d), <- Z.lxor_assoc.
  rewrite Z.lxor_nilpotent. apply Z.lxor_0_l.
Qed.

Lemma xor_key_swap (a d b : list Z) :
  zip_with Z.lxor (zip_with Z.lxor a d) b =
  zip_with Z.lxor a (zip_with Z.lxor b d).
Proof.
  revert d b. induction a as [|x a IH]; intros [|y d] [|z b]; simpl; try reflexivity.
  f_equal; [apply lxor_swap|apply IH].
Qed.

Lemma xor_key_both (a d b : list Z) :
  length a = length d -> length b = length d ->
  zip_with Z.lxor (zip_with Z.lxor a d) (zip_with Z.lxor b d) =
  zip_with Z.lxor a b.
Proof.
  revert d b. induction a as [|x a IH]; intros [|y d] [|z b]; simpl;
    try discriminate; try reflexivity.
  intros Ha Hb. f_equal; [apply lxor_both|apply IH; lia].
Qed.

Lemma free_xor_inv d (wire : Wire) :
  free_xor d wire ->
  exists k0, wire = [k0; zip_with Z.lxor k0 d] /\ is_key k0 /\ length d = KEY_SIZE.
Proof.
  destruct wire as [|k0 [|k1 [|? ?]]]; simpl; try contradiction.
  intros [Hk Hx]. apply XorBytes_Some in Hx. destruct Hx as [Hlen ->].
  exists k0. split; [reflexivity|]. split; [exact Hk|].
  unfold is_key in Hk. congruence.
Qed.

(** X6 ([Xor]): on wires of the session, the output wire of [Xor] is again
    a wire of the session, and whatever values [x], [y] the two input wires
    carry, the XOR of the two labels the evaluator holds is the label of the
    output wire for [x XOR y]; so the evaluator needs no table. *)
Theorem xor_evaluation (a b : list Wire) (w : World) :
  length a = length b -> Forall (delta_ok w) a -> Forall (delta_ok w) b ->
  exists res,
    vm_Xor a b w = Done res w /\ length res = length a /\
    forall i ai bi (x y : bool),
      a !! i = Some ai -> b !! i = Some bi ->
      exists ri, res !! i = Some ri /\ delta_ok w ri /\
        label ri (xorb x y) = zip_with Z.lxor (label ai x) (label bi y).
Proof.
  intros Hlen Ha Hb.
  assert (Hshape : forall i ai bi, a !! i = Some ai -> b !! i = Some bi ->
    exists d a0 b0, key0 w = Some d /\ lsb d = Some 1 /\ length d = KEY_SIZE /\
      is_key a0 /\ is_key b0 /\
      ai = [a0; zip_with Z.lxor a0 d] /\ bi = [b0; zip_with Z.lxor b0 d]).
  { intros i ai bi Hai Hbi.
    rewrite list.Forall_lookup in Ha, Hb.
    destruct (Ha i ai Hai) as (d & Hd & Hl & Hfa).
    destruct (Hb i bi Hbi) as (d' & Hd' & _ & Hfb).
    assert (d' = d) as -> by congruence.
    destruct (free_xor_inv _ _ Hfa) as (a0 & -> & Ha0 & Hdl).
    destruct (free_xor_inv _ _ Hfb) as (b0 & -> & Hb0 & _).
    exists d, a0, b0. auto 10. }
  exists (map (xor_wire a b) (seq 0 (length a))).
  split; [|split].
  - unfold vm_Xor. rewrite Hlen, Nat.eqb_refl. simpl. rewrite <- Hlen.
    apply for_range_pure. intros i Hi.
    destruct (lookup_lt_is_Some_2 a i ltac:(lia)) as [ai Hai].
    destruct (lookup_lt_is_Some_2 b i ltac:(lia)) as [bi Hbi].
    destruct (Hshape i ai bi Hai Hbi)
      as (d & a0 & b0 & _ & _ & Hdl & Ha0 & Hb0 & -> & ->).
    unfold xor_wire, bind, index, XorKey. rewrite Hai, Hbi. simpl.
    unfold is_key in *.
    rewrite !XorBytes_same_length
      by (rewrite ?length_zip_with; lia).
    reflexivity.
  - rewrite length_map, length_seq. reflexivity.
  - intros i ai bi x y Hai Hbi.
    destruct (Hshape i ai bi Hai Hbi)
      as (d & a0 & b0 & Hd & Hl & Hdl & Ha0 & Hb0 & -> & ->).
    eexists. split.
    { rewrite list_lookup_fmap, lookup_seq_lt by (eapply lookup_lt_Some, Hai).
      simpl. unfold xor_wire. rewrite Hai, Hbi. reflexivity. }
    unfold is_key in *. split.
    + exists d. split; [exact Hd|]. split; [exact Hl|]. simpl. split.
      * unfold is_key. rewrite length_zip_with. lia.
      * unfold XorKey. rewrite XorBytes_same_length
          by (rewrite length_zip_with; lia).
        f_equal. rewrite zip_lxor_assoc. reflexivity.
    + destruct x, y; unfold label; cbn [Nat.b2n nth xorb].
      * rewrite xor_key_both by lia. reflexivity.
      * rewrite xor_key_swap. reflexivity.
      * reflexivity.
      * reflexivity.
Qed.

Lemma world_ok_world_d : world_ok world_d.
Proof.
  split.
  - intros d [= <-]. split; reflexivity.
  - intros c [=].
Qed.

Lemma delta_ok_wire_a : delta_ok world_d wire_a.
Proof. exists key_d. repeat split. Qed.

Lemma delta_ok_wire_b : delta_ok world_d wire_b.
Proof. exists key_d. repeat split. Qed.

Lemma xor_evaluation_witness :
  exists res,
    vm_Xor [wire_a] [wire_b] world_d = Done res world_d /\
    length res = length [wire_a] /\
    forall i ai bi (x y : bool),
      [wire_a] !! i = Some ai -> [wire_b] !! i = Some bi ->
      exists ri, res !! i = Some ri /\ delta_ok world_d ri /\
        label ri (xorb x y) = zip_with Z.lxor (label ai x) (label bi y).
Proof.
  apply (xor_evaluation [wire_a] [wire_b] world_d).
  - reflexivity.
  - repeat constructor. apply delta_ok_wire_a.
  - repeat constructor. apply delta_ok_wire_b.
Defined.

Lemma label_lookup (wi : Wire) (v : bool) k :
  wi !! Nat.b2n v = Some k -> label wi v = k.
Proof. intros H. unfold label. rewrite nth_lookup, H. reflexivity. Qed.

Lemma is_wire_label (wi : Wire) (v : bool) : is_wire wi -> is_key (label wi v).
Proof.
  intros H. destruct (is_wire_inv wi H) as (k0 & k1 & -> & H0 & H1).
  destruct v; assumption.
Qed.

(** The tables of a gate, read by the evaluator. *)
Lemma table_ok_Decrypt Enc Dec g (ai bi wi : Wire) (t : GarbledTable) (x y : bool) :
  (forall k p, length p = KEY_SIZE -> length (Enc k p) = KEY_SIZE) ->
  (forall k p, length p = KEY_SIZE -> Dec k (Enc k p) = p) ->
  is_wire wi -> table_ok Enc g ai bi wi t ->
  Decrypt Dec t [label ai x; label bi y] = Some (label wi (truth g x y)).
Proof.
  intros Hlen Hrt Hw (_ & Hrows & _).
  destruct (Hrows x y) as (ka & kb & p & s & Hka & Hkb & Hp & Hs & Hat).
  rewrite (label_lookup _ _ _ Hka), (label_lookup _ _ _ Hkb), (label_lookup _ _ _ Hp).
  unfold Decrypt. rewrite Hs. cbn [mbind option_bind]. rewrite Hat.
  cbn [mbind option_bind]. f_equal. unfold decrypt. cbn [rev app fold_left].
  assert (Hpl : length p = KEY_SIZE).
  { rewrite <- (label_lookup _ _ _ Hp). apply is_wire_label, Hw. }
  rewrite Hrt by (apply Hlen, Hpl). apply Hrt, Hpl.
Qed.

(** The run of a gate and what the evaluator reads from its tables. *)
Lemma vm_gate_eval (Enc Dec : Key -> list Z -> list Z) (g : gate)
    (a b : list Wire) (w : World) :
  (forall k p, length p = KEY_SIZE -> length (Enc k p) = KEY_SIZE) ->
  (forall k p, length p = KEY_SIZE -> Dec k (Enc k p) = p) ->
  world_ok w -> length a = length b ->
  Forall pp_distinct a -> Forall pp_distinct b ->
  exists res tables w',
    vm_gate Enc g a b w = Done res w' /\
    trace w' = trace w ++ map EvSendT tables /\
    length res = length a /\ length tables = length a /\
    forall i ai bi wi t (x y : bool),
      a !! i = Some ai -> b !! i = Some bi ->
      res !! i = Some wi -> tables !! i = Some t ->
      Decrypt Dec t [label ai x; label bi y] = Some (label wi (truth g x y)).
Proof.
  intros HEl Hrt Hok Hlen Ha Hb. rewrite vm_gate_unfold by exact Hlen.
  destruct (for_range_total
    (fun i s => world_ok s /\
       exists tables, trace s = trace w ++ map EvSendT tables /\
                      length tables = i)
    later
    (fun i r s => is_wire r /\
       exists t, trace s !! (length (trace w) + i)%nat = Some (EvSendT t) /\
         forall ai bi, a !! i = Some ai -> b !! i = Some bi ->
                       table_ok Enc g ai bi r t)
    later_refl later_trans) with (n := length a) (from := 0%nat)
    (body := gate_body Enc g a b) (s := w)
    as (res & w' & Hrun & Hinv & _ & Hres & Hpost).
  - intros i r s s' (Hw & t & Ht & Htab) Hl.
    split; [exact Hw|]. exists t. split; [|exact Htab].
    destruct Hl as (_ & _ & _ & ext & ->). apply lookup_app_l_Some, Ht.
  - intros i s Hi (Hs & tables & Htr & Htl).
    destruct (lookup_lt_is_Some_2 a i ltac:(lia)) as [ai Hai].
    destruct (lookup_lt_is_Some_2 b i ltac:(lia)) as [bi Hbi].
    destruct (gate_body_total Enc g a b i ai bi s Hs Hai Hbi)
      as (wi & s1 & t & Hgen & Hbody & Htab).
    { rewrite list.Forall_lookup in Ha. eauto. }
    { rewrite list.Forall_lookup in Hb. eauto. }
    destruct (genWire_Done _ _ _ Hs Hgen)
      as (Hs1 & Hl1 & _ & Hw1 & Htr1 & _).
    exists wi, (add_event (EvSendT t) s1).
    split; [exact Hbody|]. split; [|split].
    + split; [exact Hs1|].
      exists (tables ++ [t]). simpl. rewrite Htr1, Htr, map_app, length_app.
      simpl. rewrite <- app_assoc. split; [reflexivity|lia].
    + eapply later_trans; [exact Hl1|apply later_add_event].
    + split; [exact Hw1|]. exists t. split.
      * simpl. rewrite Htr1, Htr. rewrite lookup_app_r; rewrite length_app, length_map; [|lia].
        replace (length (trace w) + i - (length (trace w) + length tables))%nat
          with 0%nat by lia. reflexivity.
      * intros ai' bi' Hai' Hbi'. congruence.
  - split; [exact Hok|]. exists []. simpl. rewrite app_nil_r. auto.
  - destruct Hinv as (Hok' & tables & Htr' & Htl').
    exists res, tables, w'. split; [exact Hrun|]. split; [exact Htr'|].
    split; [exact Hres|]. split; [exact Htl'|].
    intros i ai bi wi t x y Hai Hbi Hwi Ht.
    destruct (Hpost i wi Hwi) as (Hw & t' & Ht' & Htab).
    simpl in Ht'. rewrite Htr' in Ht'. apply lookup_map_EvSendT in Ht'.
    assert (t' = t) as -> by congruence.
    eapply table_ok_Decrypt; eauto.
Qed.

(** X7 ([And], [Or], [Decrypt]): the tables that [And] and [Or] send are
    the ones the evaluator needs.  With a cipher that keeps the block size
    and whose [Decrypt] undoes [Encrypt], on input wires whose labels differ
    in their low bit: whatever values [x], [y] the input wires carry,
    [Decrypt] of the table with the two labels for [x] and [y] is the label
    of the output wire for [x AND y] (respectively [x OR y]). *)
Theorem gate_evaluation (Enc Dec : Key -> list Z -> list Z) (g : gate)
    (a b : list Wire) (w : World) :
  (forall k p, length p = KEY_SIZE -> length (Enc k p) = KEY_SIZE) ->
  (forall k p, length p = KEY_SIZE -> Dec k (Enc k p) = p) ->
  world_ok w -> length a = length b ->
  Forall pp_distinct a -> Forall pp_distinct b ->
  exists res tables w',
    vm_gate Enc g a b w = Done res w' /\
    trace w' = trace w ++ map EvSendT tables /\
    length res = length a /\ length tables = length a /\
    forall i ai bi wi t (x y : bool),
      a !! i = Some ai -> b !! i = Some bi ->
      res !! i = Some wi -> tables !! i = Some t ->
      Decrypt Dec t [label ai x; label bi y] = Some (label wi (truth g x y)).
Proof. apply vm_gate_eval. Qed.

Lemma gate_evaluation_witness :
  exists res tables w',
    vm_gate toy_cipher GOr [wire_a] [wire_b] (fresh_world rng0 []) = Done res w' /\
    trace w' = trace (fresh_world rng0 []) ++ map EvSendT tables /\
    length res = length [wire_a] /\ length tables = length [wire_a] /\
    forall i ai bi wi t (x y : bool),
      [wire_a] !! i = Some ai -> [wire_b] !! i = Some bi ->
      res !! i = Some wi -> tables !! i = Some t ->
      Decrypt toy_cipher t [label ai x; label bi y] =
        Some (label wi (truth GOr x y)).
Proof.
  apply (gate_evaluation toy_cipher toy_cipher GOr [wire_a] [wire_b]
           (fresh_world rng0 [])).
  - intros k p Hp. rewrite toy_cipher_length. exact Hp.
  - intros k p _. apply toy_cipher_involutive.
  - apply world_ok_fresh.
  - reflexivity.
  - repeat constructor. apply pp_distinct_wire_a.
  - repeat constructor. apply pp_distinct_wire_b.
Defined.

(** ** The constant wires *)

(** The first use of the constants. *)
Lemma init_constants_first (w : World) :
  world_ok w -> const0 w = None ->
  exists c0 c1 s2,
    init_constants w =
      Done tt (add_events [EvSendK (label c0 false); EvSendK (label c1 true)]
                 (mkWorld (key0 s2) (Some c0) (Some c1) (rng s2) (trace s2)
                    (inbox s2))) /\
    world_ok s2 /\ delta_ok s2 c0 /\ delta_ok s2 c1 /\
    trace s2 = trace w /\ inbox s2 = inbox w /\
    cursor (rng s2) = (cursor (rng w) + tape_used w 2)%nat.
Proof.
  intros Hok Hnone.
  destruct (genWire_ok w Hok)
    as (c0 & s1 & Hgen1 & Hok1 & Hl1 & Hd1 & Hw1 & Htr1 & Hin1 & _).
  destruct (genWire_ok s1 Hok1)
    as (c1 & s2 & Hgen2 & Hok2 & Hl2 & Hd2 & Hw2 & Htr2 & Hin2 & _).
  destruct (genWire_cursor _ _ _ Hgen1) as [Hcur1 Hkey1].
  destruct (genWire_cursor _ _ _ Hgen2) as [Hcur2 _].
  exists c0, c1, s2. split; [|split; [exact Hok2|split; [|split; [exact Hd2|]]]].
  - unfold init_constants. rewrite Hnone.
    unfold bind at 1. rewrite Hgen1. unfold bind at 1. rewrite Hgen2.
    destruct (is_wire_inv c0 Hw1) as (k00 & k01 & -> & _).
    destruct (is_wire_inv c1 Hw2) as (k10 & k11 & -> & _).
    unfold add_events, label. cbn. unfold SendK, emit, add_event. cbn.
    rewrite <- app_assoc. reflexivity.
  - eapply delta_ok_later; eauto.
  - split; [congruence|]. split; [congruence|].
    rewrite Hcur2, Hcur1, <- (tape_used_succ w s1 1 Hkey1). lia.
Qed.

(** X8 ([True], [False], [init_constants]): the first use of a constant
    makes both constant wires, as wires of the session, and sends the label
    of 0 of [const0] and then the label of 1 of [const1], and nothing else;
    [True] and [False] lead to the same state.  From then on [True] returns
    the same [const1] and [False] the same [const0], and neither changes
    anything: the constants are made and sent once. *)
Theorem constants_once (w : World) :
  world_ok w -> const0 w = None ->
  exists c0 c1 w',
    vm_True w = Done [c1] w' /\ vm_False w = Done [c0] w' /\
    delta_ok w' c0 /\ delta_ok w' c1 /\
    trace w' = trace w ++ [EvSendK (label c0 false); EvSendK (label c1 true)] /\
    inbox w' = inbox w /\
    cursor (rng w') = (cursor (rng w) + tape_used w 2)%nat /\
    vm_True w' = Done [c1] w' /\ vm_False w' = Done [c0] w'.
Proof.
  intros Hok Hnone.
  destruct (init_constants_first w Hok Hnone)
    as (c0 & c1 & s2 & Hrun & Hok2 & Hd0 & Hd1 & Htr & Hin & Hcur).
  eexists c0, c1, _.
  split; [unfold vm_True, bind at 1; rewrite Hrun; reflexivity|].
  split; [unfold vm_False, bind at 1; rewrite Hrun; reflexivity|].
  split; [exact Hd0|]. split; [exact Hd1|].
  split; [cbn [trace add_events]; rewrite Htr; reflexivity|].
  split; [exact Hin|]. split; [exact Hcur|].
  split; reflexivity.
Qed.

Lemma constants_once_witness :
  exists c0 c1 w',
    vm_True (fresh_world rng0 []) = Done [c1] w' /\
    vm_False (fresh_world rng0 []) = Done [c0] w' /\
    delta_ok w' c0 /\ delta_ok w' c1 /\
    trace w' = trace (fresh_world rng0 []) ++
               [EvSendK (label c0 false); EvSendK (label c1 true)] /\
    inbox w' = inbox (fresh_world rng0 []) /\
    cursor (rng w') =
      (cursor (rng (fresh_world rng0 [])) + tape_used (fresh_world rng0 []) 2)%nat /\
    vm_True w' = Done [c1] w' /\ vm_False w' = Done [c0] w'.
Proof.
  apply (constants_once (fresh_world rng0 [])); [apply world_ok_fresh|reflexivity].
Defined.

(** ** The generator's input, sent and revealed *)

(** [RevealTo0] on wires with two different labels, when the keys that
    arrive are the labels for the bits [bs]. *)
Lemma reveal0_loop (a : list Wire) (bs : list bool) :
  forall from (keys rest : list Key) s,
  length keys = length bs ->
  (forall j b, bs !! j = Some b ->
     exists wi, a !! (from + j)%nat = Some wi /\ is_wire wi /\
                label wi false <> label wi true /\
                keys !! j = Some (label wi b)) ->
  inbox s = keys ++ rest ->
  exists s',
    for_range (length bs) from (fun i =>
      let* ai := index a i in
      let* k := RecvK2 in
      let* bit := resolveKey ai k in
      if bit =? 0 then ret false else ret true) s = Done bs s' /\
    inbox s' = rest /\ trace s' = trace s ++ map EvRecvK2 keys.
Proof.
  induction bs as [|b bs IH]; intros from keys rest s Hlen Hkeys Hin.
  - destruct keys; [|discriminate]. exists s. cbn [for_range length].
    split; [reflexivity|]. split; [exact Hin|]. simpl. rewrite app_nil_r. reflexivity.
  - destruct keys as [|k keys]; [discriminate|].
    destruct (Hkeys 0%nat b eq_refl) as (wi & Hwi & Hw & Hne & Hk).
    destruct (is_wire_inv wi Hw) as (k0 & k1 & -> & _).
    rewrite Nat.add_0_r in Hwi. injection Hk as Hk.
    destruct (IH (Datatypes.S from) keys rest (received k (keys ++ rest) s))
      as (s' & Hrun & Hin' & Htr'); [simpl in Hlen; lia| |reflexivity|].
    { intros j b' Hb'. destruct (Hkeys (Datatypes.S j) b' Hb') as (wj & Hwj & H).
      exists wj. split; [|exact H]. rewrite <- Hwj. f_equal. lia. }
    exists s'. cbn [for_range length]. unfold bind at 1.
    rewrite (reveal0_body a from k0 k1 k (keys ++ rest) s Hwi Hin).
    unfold label in Hne, Hk. cbn [Nat.b2n nth] in Hne.
    assert (Hres : (if bool_decide (k = k0) then Done false (received k (keys ++ rest) s)
                    else if bool_decide (k = k1) then Done true (received k (keys ++ rest) s)
                    else Panic "resolveKey(): key and wire mismatch"
                           (received k (keys ++ rest) s)) =
                   Done b (received k (keys ++ rest) s)).
    { destruct b; cbn [Nat.b2n nth] in Hk; subst k.
      - rewrite bool_decide_false by congruence.
        rewrite bool_decide_true by reflexivity. reflexivity.
      - rewrite bool_decide_true by reflexivity. reflexivity. }
    rewrite Hres. unfold bind at 1. rewrite Hrun. unfold ret.
    split; [reflexivity|]. split; [exact Hin'|].
    rewrite Htr'. cbn [trace received map]. rewrite <- app_assoc. reflexivity.
Qed.

Lemma pp_distinct_labels (wi : Wire) :
  pp_distinct wi -> label wi false <> label wi true.
Proof.
  intros H. destruct (pp_distinct_inv wi H) as (k0 & k1 & l0 & -> & H0 & H1 & Hl).
  unfold label. cbn [Nat.b2n nth]. intros ->. rewrite H0 in H1.
  injection H1 as H1. lia.
Qed.

(** X9 ([ShareTo1], [RevealTo0]): a round trip of the generator's own
    input.  For [0 <= bits <= 64], the wires that [ShareTo1(a, bits)]
    returns and the keys it sends are such that, when the evaluator sends
    these keys back, in order, [RevealTo0] on these wires returns bit [i] of
    [a] at index [i] and consumes exactly these keys. *)
Theorem share_reveal_roundtrip (a bits : Z) (w : World) :
  world_ok w -> 0 <= bits <= 64 ->
  exists ws keys w1,
    vm_ShareTo1 a bits w = Done ws w1 /\
    trace w1 = trace w ++ map EvSendK keys /\
    length keys = Z.to_nat bits /\
    forall (w2 : World) (rest : list Key),
      inbox w2 = keys ++ rest ->
      exists w3,
        vm_RevealTo0 ws w2 =
          Done (map (fun i => Z.testbit a (Z.of_nat i)) (seq 0 (Z.to_nat bits))) w3 /\
        inbox w3 = rest /\
        trace w3 = trace w2 ++ map EvRecvK2 keys.
Proof.
  intros Hok Hb.
  destruct (vm_ShareTo1_run a bits w Hok Hb)
    as (ws & w1 & Hrun & Hlen & Hd & Hw & Htr & _).
  set (keys := imap (fun i wi => label wi (Z.testbit a (Z.of_nat i))) ws).
  exists ws, keys, w1. split; [exact Hrun|]. split.
  { rewrite Htr. f_equal. unfold keys. rewrite fmap_imap. reflexivity. }
  split; [unfold keys; rewrite length_imap; exact Hlen|].
  intros w2 rest Hin.
  set (bs := map (fun i => Z.testbit a (Z.of_nat i)) (seq 0 (Z.to_nat bits))).
  assert (Hbl : length bs = length ws).
  { unfold bs. rewrite length_map, length_seq. symmetry. exact Hlen. }
  destruct (reveal0_loop ws bs 0 keys rest w2) as (w3 & Hrev & Hin3 & Htr3).
  - unfold keys. rewrite length_imap. symmetry. exact Hbl.
  - intros j b Hb'. unfold bs in Hb'.
    rewrite list_lookup_fmap in Hb'.
    destruct (seq 0 (Z.to_nat bits) !! j) as [i|] eqn:Hi; [|discriminate].
    apply lookup_seq in Hi. destruct Hi as [-> Hj]. simpl in Hb'.
    injection Hb' as <-.
    destruct (lookup_lt_is_Some_2 ws j ltac:(lia)) as [wi Hwi].
    exists wi. simpl. split; [exact Hwi|].
    rewrite list.Forall_lookup in Hw, Hd.
    split; [eapply Hw, Hwi|]. split.
    + apply pp_distinct_labels. eapply delta_ok_pp, Hd, Hwi.
    + unfold keys. rewrite list_lookup_imap, Hwi. reflexivity.
  - exact Hin.
  - exists w3. unfold vm_RevealTo0. rewrite <- Hbl. auto.
Qed.

Lemma share_reveal_roundtrip_witness :
  exists ws keys w1,
    vm_ShareTo1 5 3 (fresh_world rng0 []) = Done ws w1 /\
    trace w1 = trace (fresh_world rng0 []) ++ map EvSendK keys /\
    length keys = Z.to_nat 3 /\
    forall (w2 : World) (rest : list Key),
      inbox w2 = keys ++ rest ->
      exists w3,
        vm_RevealTo0 ws w2 =
          Done (map (fun i => Z.testbit 5 (Z.of_nat i)) (seq 0 (Z.to_nat 3))) w3 /\
        inbox w3 = rest /\
        trace w3 = trace w2 ++ map EvRecvK2 keys.
Proof.
  apply (share_reveal_roundtrip 5 3 (fresh_world rng0 [])); [apply world_ok_fresh|lia].
Defined.

(** ** [RevealTo0] with too few keys *)

Lemma reveal0_wait (a : list Wire) :
  forall (keys : list Key) from s,
  inbox s = keys -> (from + length keys < length a)%nat ->
  (forall j k, keys !! j = Some k ->
     exists wi, a !! (from + j)%nat = Some wi /\ is_wire wi /\
                (k = label wi false \/ k = label wi true)) ->
  exists s',
    for_range (length a - from) from (fun i =>
      let* ai := index a i in
      let* k := RecvK2 in
      let* bit := resolveKey ai k in
      if bit =? 0 then ret false else ret true) s = Blocked s' /\
    inbox s' = [] /\ trace s' = trace s ++ map EvRecvK2 keys.
Proof.
  induction keys as [|k keys IH]; intros from s Hin Hlt Hkeys.
  - simpl in Hlt. exists s.
    destruct (length a - from)%nat as [|m] eqn:Hm; [lia|].
    destruct (lookup_lt_is_Some_2 a from ltac:(lia)) as [ai Hai].
    cbn [for_range]. unfold bind at 1, bind at 1, index. rewrite Hai.
    cbn [lift]. unfold ret at 1. unfold bind at 1, RecvK2. rewrite Hin.
    split; [reflexivity|]. split; [reflexivity|]. simpl. rewrite app_nil_r. reflexivity.
  - simpl in Hlt.
    destruct (Hkeys 0%nat k eq_refl) as (wi & Hwi & Hw & Hk).
    destruct (is_wire_inv wi Hw) as (k0 & k1 & -> & _).
    rewrite Nat.add_0_r in Hwi.
    destruct (IH (Datatypes.S from) (received k keys s)) as (s' & Hrun & Hin' & Htr');
      [reflexivity|lia| |].
    { intros j k' Hk'. destruct (Hkeys (Datatypes.S j) k' Hk') as (wj & Hwj & H).
      exists wj. split; [|exact H]. rewrite <- Hwj. f_equal. lia. }
    exists s'.
    replace (length a - from)%nat with (Datatypes.S (length a - Datatypes.S from)) by lia.
    cbn [for_range]. unfold bind at 1.
    rewrite (reveal0_body a from k0 k1 k keys s Hwi Hin).
    unfold label in Hk. cbn [Nat.b2n nth] in Hk.
    assert (Hres : exists b,
      (if bool_decide (k = k0) then Done false (received k keys s)
       else if bool_decide (k = k1) then Done true (received k keys s)
       else Panic "resolveKey(): key and wire mismatch" (received k keys s)) =
      Done b (received k keys s)).
    { destruct (decide (k = k0)) as [->|Hne].
      - exists false. rewrite bool_decide_true by reflexivity. reflexivity.
      - exists true. rewrite bool_decide_false by exact Hne.
        destruct Hk as [Hk|Hk]; [contradiction|].
        rewrite bool_decide_true by exact Hk. reflexivity. }
    destruct Hres as [b ->]. unfold bind at 1. rewrite Hrun.
    split; [reflexivity|]. split; [exact Hin'|].
    rewrite Htr'. cbn [trace received map]. rewrite <- app_assoc. reflexivity.
Qed.

(** X10 ([RevealTo0], [RecvK2]): when fewer keys than wires have arrived,
    each of them a label of its wire, [RevealTo0] returns no partial result
    and does not panic: it receives all the keys that are there and then
    waits for the next one. *)
Theorem reveal_waits (a : list Wire) (w : World) :
  (length (inbox w) < length a)%nat ->
  (forall j k, inbox w !! j = Some k ->
     exists wi, a !! j = Some wi /\ is_wire wi /\
                (k = label wi false \/ k = label wi true)) ->
  exists w',
    vm_RevealTo0 a w = Blocked w' /\ inbox w' = [] /\
    trace w' = trace w ++ map EvRecvK2 (inbox w).
Proof.
  intros Hlt Hkeys.
  destruct (reveal0_wait a (inbox w) 0 w eq_refl) as (w' & Hrun & H);
    [simpl; exact Hlt|exact Hkeys|].
  exists w'. split; [|exact H]. unfold vm_RevealTo0.
  rewrite Nat.sub_0_r in Hrun. exact Hrun.
Qed.

Lemma reveal_waits_witness :
  exists w',
    vm_RevealTo0 [wire_a; wire_b] (fresh_world rng0 [key_a']) = Blocked w' /\
    inbox w' = [] /\
    trace w' = trace (fresh_world rng0 [key_a']) ++
               map EvRecvK2 (inbox (fresh_world rng0 [key_a'])).
Proof.
  apply (reveal_waits [wire_a; wire_b] (fresh_world rng0 [key_a'])).
  - simpl. lia.
  - intros [|j] k Hk; [|discriminate]. injection Hk as <-.
    exists wire_a. split; [reflexivity|]. split; [apply is_wire_wire_a|].
    right. reflexivity.
Defined.

(** ** The streams of the server and of the parties stay in step *)

Lemma range_streams_snd streams a b c :
  snd (range_streams streams (a, b, c)) =
  map (advance (length a + length b + length c)) streams.
Proof.
  revert a b c. induction streams as [|v streams IH]; intros a b c; [reflexivity|].
  cbn [range_streams]. rewrite xor3_blocks_gen.
  specialize (IH (zip_with Z.lxor a (block v 0 (length a)))
                 (zip_with Z.lxor b (block v (length a) (length b)))
                 (zip_with Z.lxor c (block v (length a + length b) (length c)))).
  destruct (range_streams streams _) as [abc rest]. cbn [snd] in IH |- *.
  rewrite IH, !length_zip_with, !block_length, !Nat.min_id.
  cbn [map]. f_equal. unfold advance. f_equal. lia.
Qed.

Lemma use_streams_streams a b c s abc s' :
  use_streams (a, b, c) s = Done abc s' ->
  RandomStreams s' = map (advance (length a + length b + length c)) (RandomStreams s) /\
  CorrectionCh s' = CorrectionCh s.
Proof.
  unfold use_streams. pose proof (range_streams_snd (RandomStreams s) a b c) as H.
  destruct (range_streams (RandomStreams s) (a, b, c)) as [abc' streams'].
  cbn [snd] in H. intros [= _ <-]. split; [exact H|reflexivity].
Qed.

Lemma TripleCorrection_streams NUM s s' :
  TripleCorrection NUM s = Done tt s' ->
  RandomStreams s' = map (advance (3 * Z.to_nat (NUM * 4))) (RandomStreams s).
Proof.
  unfold TripleCorrection. cbn zeta. intros H.
  apply bind_Done in H. destruct H as (a & s0 & Ha & H).
  apply lift_Done in Ha. destruct Ha as [Ha ->].
  apply bind_Done in H. destruct H as (b & s0 & Hb & H).
  apply lift_Done in Hb. destruct Hb as [Hb ->].
  apply bind_Done in H. destruct H as (c & s0 & Hc & H).
  apply lift_Done in Hc. destruct Hc as [Hc ->].
  apply bind_Done in H. destruct H as ([[a' b'] c'] & s1 & Hu & H).
  apply use_streams_streams in Hu. destruct Hu as [Hu _].
  apply bind_Done in H. destruct H as (d & s2 & Hd & H).
  apply lift_Done in Hd. destruct Hd as [_ ->].
  apply bind_Done in H. destruct H as (x & s2 & Hx & H).
  apply lift_Done in Hx. destruct Hx as [_ ->].
  unfold send_correction in H. injection H as <-. cbn [RandomStreams].
  rewrite Hu. apply make_Some_length in Ha, Hb, Hc. rewrite Ha, Hb, Hc.
  f_equal. f_equal. lia.
Qed.

(** X11 ([TripleCorrection], [triple32]): a batch of multiplication
    triples leaves the server and the parties in step.  After one run of the
    server and one run of every party, the designated one reading the
    correction, every party's stream is again equal to the server's stream
    for that party (each has advanced by [12 * NUM_TRIPLES] bytes); the
    designated party has made exactly one request and taken the one
    correction from its channel; the other parties have made no request. *)
Theorem triple_streams_in_step (NUM : Z) (combine : list Z -> Z)
    (streams : list Stream) :
  0 <= NUM -> streams <> [] ->
  exists srv' clients',
    TripleCorrection NUM (mkServer streams []) = Done tt srv' /\
    Forall2 (fun c c' => exists ts, triple32 NUM combine c = Done ts c')
            (clients_of (CorrectionCh srv') streams) clients' /\
    RandomStreams srv' = map (advance (12 * Z.to_nat NUM)) streams /\
    map RandomStream clients' = RandomStreams srv' /\
    map Requested clients' =
      [RequestTripleCorrection] :: replicate (length streams - 1) [] /\
    map ClientCorrectionCh clients' =
      Some [] :: replicate (length streams - 1) None.
Proof.
  intros HN Hne. destruct streams as [|v0 rest]; [contradiction|]. clear Hne.
  set (n := Z.to_nat (NUM * 4)).
  destruct (TripleCorrection_run NUM (v0 :: rest) [] HN) as (streams' & Hsrv).
  pose proof (TripleCorrection_streams _ _ _ Hsrv) as Hst.
  cbn [RandomStreams] in Hst. fold n in Hsrv, Hst. simpl app in Hsrv.
  set (corr := triple_correction_of (v0 :: rest) n) in *.
  exists (mkServer streams' [corr]),
         (client_after RequestTripleCorrection (Some [corr]) v0 (3 * n) ::
          map (fun v => client_after RequestTripleCorrection None v (3 * n)) rest).
  assert (H12 : (3 * n = 12 * Z.to_nat NUM)%nat) by (unfold n; lia).
  split; [exact Hsrv|]. split; [|split; [|split; [|split]]].
  - cbn [CorrectionCh clients_of]. constructor.
    + eexists. apply (triple32_run NUM combine v0 (Some [corr]) HN).
      apply triple_correction_length.
    + clear -HN. induction rest as [|v rest IH]; simpl; constructor; [|exact IH].
      eexists. apply (triple32_run NUM combine v None HN). exact I.
  - cbn [RandomStreams]. rewrite Hst, H12. reflexivity.
  - cbn [RandomStreams]. rewrite Hst. cbn [map client_after RandomStream].
    f_equal. rewrite map_map. reflexivity.
  - replace (length (v0 :: rest) - 1)%nat with (length rest) by (simpl; lia).
    cbn [map client_after Requested]. f_equal.
    rewrite map_map. cbn [client_after Requested].
    clear. induction rest; simpl; f_equal; assumption.
  - replace (length (v0 :: rest) - 1)%nat with (length rest) by (simpl; lia).
    cbn [map client_after ClientCorrectionCh]. f_equal.
    rewrite map_map. cbn [client_after ClientCorrectionCh].
    clear. induction rest; simpl; f_equal; assumption.
Qed.

Lemma triple_streams_in_step_witness :
  exists srv' clients',
    TripleCorrection 2 (mkServer streams0 []) = Done tt srv' /\
    Forall2 (fun c c' => exists ts, triple32 2 combine_le c = Done ts c')
            (clients_of (CorrectionCh srv') streams0) clients' /\
    RandomStreams srv' = map (advance (12 * Z.to_nat 2)) streams0 /\
    map RandomStream clients' = RandomStreams srv' /\
    map Requested clients' =
      [RequestTripleCorrection] :: replicate (length streams0 - 1) [] /\
    map ClientCorrectionCh clients' =
      Some [] :: replicate (length streams0 - 1) None.
Proof.
  apply (triple_streams_in_step 2 combine_le streams0); [lia|discriminate].
Defined.

Lemma for_loop_state {S A} n from (body : nat -> A -> M S A) acc s acc' s' :
  (forall i acc, pure_step (body i acc)) ->
  for_loop n from body acc s = Done acc' s' -> s' = s.
Proof.
  intros Hpure. revert from acc. induction n as [|n IH]; intros from acc H.
  - cbn [for_loop] in H. unfold ret in H. congruence.
  - cbn [for_loop] in H. unfold bind in H.
    destruct (Hpure from acc s) as [[x Hx]|[msg Hx]]; rewrite Hx in H.
    + eapply IH, H.
    + discriminate.
Qed.

Lemma MaskTripleCorrection_streams n L s s' :
  MaskTripleCorrection n L s = Done tt s' ->
  RandomStreams s' =
  map (advance (Z.to_nat (Z.quot n 8) + 2 * Z.to_nat (int_wrap (n * L))))
      (RandomStreams s).
Proof.
  unfold MaskTripleCorrection. intros H.
  apply bind_Done in H. destruct H as (a & s0 & Ha & H).
  apply lift_Done in Ha. destruct Ha as [Ha ->].
  apply bind_Done in H. destruct H as (b & s0 & Hb & H).
  apply lift_Done in Hb. destruct Hb as [Hb ->].
  apply bind_Done in H. destruct H as (c & s0 & Hc & H).
  apply lift_Done in Hc. destruct Hc as [Hc ->].
  apply bind_Done in H. destruct H as ([[a' b'] c'] & s1 & Hu & H).
  apply use_streams_streams in Hu. destruct Hu as [Hu _].
  apply bind_Done in H. destruct H as (d & s2 & Hd & H).
  apply lift_Done in Hd. destruct Hd as [_ ->].
  apply bind_Done in H. destruct H as (x & s2 & Hx & H).
  apply for_loop_state in Hx; [|intros i acc; pure_steps]. subst s2.
  unfold send_correction in H. injection H as <-. cbn [RandomStreams].
  rewrite Hu. apply make_Some_length in Ha, Hb, Hc. rewrite Ha, Hb, Hc.
  f_equal. f_equal. lia.
Qed.

(** X12 ([MaskTripleCorrection], [maskTriple]): a batch of mask triples
    leaves the server and the parties in step.  For [numTriples] a multiple
    of 8 and sizes that fit, after one run of the server and one run of
    every party, the designated one reading the correction, every party's
    stream is again equal to the server's stream for that party (each has
    advanced by [numTriples/8 + 2 * numTriples * numBytesTriple] bytes); the
    designated party has made exactly one request, with the two sizes, and
    taken the one correction from its channel; the others made none. *)
Theorem mask_streams_in_step (n L : Z) (streams : list Stream) :
  0 <= n -> n mod 8 = 0 -> 0 <= L -> n * L < 2 ^ 63 -> streams <> [] ->
  exists srv' clients',
    MaskTripleCorrection n L (mkServer streams []) = Done tt srv' /\
    Forall2 (fun c c' => exists ts, maskTriple n L c = Done ts c')
            (clients_of (CorrectionCh srv') streams) clients' /\
    RandomStreams srv' =
      map (advance (Z.to_nat (n / 8) + 2 * (Z.to_nat n * Z.to_nat L))) streams /\
    map RandomStream clients' = RandomStreams srv' /\
    map Requested clients' =
      [RequestMaskTripleCorrection n L] :: replicate (length streams - 1) [] /\
    map ClientCorrectionCh clients' =
      Some [] :: replicate (length streams - 1) None.
Proof.
  intros Hn Hm HL Hfit Hne. destruct streams as [|v0 rest]; [contradiction|]. clear Hne.
  destruct (mask_sizes n L Hn Hm HL Hfit) as (HN & Hq & Hw).
  pose proof (MaskTripleCorrection_run n L (v0 :: rest) [] Hn Hm HL Hfit) as Hrun.
  cbn zeta in Hrun. unfold mask_sums in Hrun.
  destruct Hrun as (streams' & corr & Hsrv & Hlc & _). simpl app in Hsrv.
  pose proof (MaskTripleCorrection_streams _ _ _ _ Hsrv) as Hst.
  cbn [RandomStreams] in Hst. rewrite Hw, Nat2Z.id in Hst.
  set (m := (Z.to_nat (Z.quot n 8) + 2 * (Z.to_nat n * Z.to_nat L))%nat) in *.
  assert (Hdiv : Z.to_nat (n / 8) = Z.to_nat (Z.quot n 8))
    by (rewrite Z.quot_div_nonneg by lia; reflexivity).
  exists (mkServer streams' [corr]),
         (client_after (RequestMaskTripleCorrection n L) (Some [corr]) v0 m ::
          map (fun v => client_after (RequestMaskTripleCorrection n L) None v m) rest).
  split; [exact Hsrv|]. split; [|split; [|split; [|split]]].
  - cbn [CorrectionCh clients_of]. constructor.
    + eexists. apply (maskTriple_run n L v0 (Some [corr]) Hn Hm HL Hfit Hlc).
    + clear -Hn Hm HL Hfit. induction rest as [|v rest IH]; simpl; constructor;
        [|exact IH].
      eexists. apply (maskTriple_run n L v None Hn Hm HL Hfit I).
  - cbn [RandomStreams]. rewrite Hst, Hdiv. reflexivity.
  - cbn [RandomStreams]. rewrite Hst. cbn [map client_after RandomStream].
    f_equal. rewrite map_map. reflexivity.
  - replace (length (v0 :: rest) - 1)%nat with (length rest) by (simpl; lia).
    cbn [map client_after Requested]. f_equal.
    rewrite map_map. cbn [client_after Requested].
    clear. induction rest; simpl; f_equal; assumption.
  - replace (length (v0 :: rest) - 1)%nat with (length rest) by (simpl; lia).
    cbn [map client_after ClientCorrectionCh]. f_equal.
    rewrite map_map. cbn [client_after ClientCorrectionCh].
    clear. induction rest; simpl; f_equal; assumption.
Qed.

Lemma mask_streams_in_step_witness :
  exists srv' clients',
    MaskTripleCorrection 16 3 (mkServer streams0 []) = Done tt srv' /\
    Forall2 (fun c c' => exists ts, maskTriple 16 3 c = Done ts c')
            (clients_of (CorrectionCh srv') streams0) clients' /\
    RandomStreams srv' =
      map (advance (Z.to_nat (16 / 8) + 2 * (Z.to_nat 16 * Z.to_nat 3))) streams0 /\
    map RandomStream clients' = RandomStreams srv' /\
    map Requested clients' =
      [RequestMaskTripleCorrection 16 3] :: replicate (length streams0 - 1) [] /\
    map ClientCorrectionCh clients' =
      Some [] :: replicate (length streams0 - 1) None.
Proof.
  apply (mask_streams_in_step 16 3 streams0);
    [lia|reflexivity|lia|reflexivity|discriminate].
Defined.

(** ** A designated party without its correction *)

(** X13 ([triple32], [maskTriple]): the designated party whose correction
    has not arrived yet returns no batch: it has then already taken its
    bytes from its stream and made its request, and it waits on the
    channel. *)
Theorem designated_waits (NUM n L : Z) (combine : list Z -> Z) (v : Stream)
    (reqs : list CommodityRequest) :
  (0 <= NUM ->
   triple32 NUM combine (mkClient v (Some []) reqs) =
     Blocked (mkClient (advance (12 * Z.to_nat NUM) v) (Some [])
                (reqs ++ [RequestTripleCorrection]))) /\
  (0 <= n -> 0 <= L -> n * L < 2 ^ 63 ->
   maskTriple n L (mkClient v (Some []) reqs) =
     Blocked (mkClient (advance (Z.to_nat (n / 8) + 2 * (Z.to_nat n * Z.to_nat L)) v)
                (Some []) (reqs ++ [RequestMaskTripleCorrection n L]))).
Proof.
  split.
  - intros HN. unfold triple32. cbn zeta.
    rewrite make_zeros by lia.
    unfold bind at 1. cbn [lift]. unfold ret at 1.
    unfold bind at 1. cbn [lift]. unfold ret at 1.
    unfold bind at 1. cbn [lift]. unfold ret at 1.
    unfold bind at 1. rewrite client_xor_run.
    unfold bind at 1. rewrite client_xor_run.
    unfold bind at 1. rewrite client_xor_run.
    unfold bind at 1, correct. cbn [ClientCorrectionCh RandomStream Requested].
    unfold advance. cbn [keystream consumed]. do 3 f_equal. lia.
  - intros Hn HL Hfit. unfold maskTriple.
    assert (Hw : int_wrap (n * L) = Z.of_nat (Z.to_nat n * Z.to_nat L)).
    { rewrite int_wrap_small by nia. nia. }
    rewrite Hw. rewrite !(make_nonneg 0) by (try apply Z.quot_pos; lia).
    rewrite Nat2Z.id.
    unfold bind at 1. cbn [lift]. unfold ret at 1.
    unfold bind at 1. cbn [lift]. unfold ret at 1.
    unfold bind at 1. cbn [lift]. unfold ret at 1.
    unfold bind at 1. rewrite client_xor_run.
    unfold bind at 1. rewrite client_xor_run.
    unfold bind at 1. rewrite client_xor_run.
    unfold bind at 1, correct. cbn [ClientCorrectionCh RandomStream Requested].
    unfold advance. cbn [keystream consumed]. do 3 f_equal.
    rewrite Z.quot_div_nonneg by lia. lia.
Qed.

Lemma designated_waits_witness :
  triple32 2 combine_le (mkClient (stream_of 0) (Some []) []) =
    Blocked (mkClient (advance (12 * Z.to_nat 2) (stream_of 0)) (Some [])
               ([] ++ [RequestTripleCorrection])) /\
  maskTriple 12 4 (mkClient (stream_of 0) (Some []) []) =
    Blocked (mkClient (advance (Z.to_nat (12 / 8) + 2 * (Z.to_nat 12 * Z.to_nat 4))
                         (stream_of 0))
               (Some []) ([] ++ [RequestMaskTripleCorrection 12 4])).
Proof.
  split.
  - apply (designated_waits 2 12 4 combine_le (stream_of 0) []). lia.
  - apply (designated_waits 2 12 4 combine_le (stream_of 0) []); [lia|lia|reflexivity].
Defined.

(** ** Setting up the server and the parties *)

Section SetupFacts.

Variable SeedBytes : nat.
Variable NewPRG : list Z -> Stream.

Lemma seed_step (tp : nat -> Z) (c : nat) (pre post : list Chan) (x : Chan) :
  closed x = false ->
  (let* seed := RandomBytes SeedBytes in
   let stream := NewPRG seed in
   let* _ := chan_send (length pre) seed in
   ret stream) (mkNet (mkRNG tp c) (pre ++ x :: post)) =
  Done (NewPRG (map tp (seq c SeedBytes)))
       (mkNet (mkRNG tp (c + SeedBytes))
          (pre ++ mkChan (queue x ++ [map tp (seq c SeedBytes)]) false :: post)).
Proof.
  intros Hx. unfold bind at 1, RandomBytes, rng_read.
  cbn [net_rng net_chans tape cursor]. cbv zeta.
  unfold bind at 1, chan_send. cbn [net_chans net_rng].
  rewrite list_lookup_middle by reflexivity. rewrite Hx.
  rewrite insert_app_r_alt by lia. rewrite Nat.sub_diag. reflexivity.
Qed.

Lemma seed_loop (tp : nat -> Z) (c0 : nat) :
  forall m pre k,
  for_range m (length pre) (fun i =>
      let* seed := RandomBytes SeedBytes in
      let stream := NewPRG seed in
      let* _ := chan_send i seed in
      ret stream)
    (mkNet (mkRNG tp (c0 + k * SeedBytes))
           (pre ++ replicate m (mkChan [] false))) =
  Done (map (fun j => NewPRG (seed_at SeedBytes (mkRNG tp c0) (k + j))) (seq 0 m))
       (mkNet (mkRNG tp (c0 + (k + m) * SeedBytes))
          (pre ++ map (fun j => mkChan [seed_at SeedBytes (mkRNG tp c0) (k + j)] false)
                      (seq 0 m))).
Proof.
  induction m as [|m IH]; intros pre k.
  - cbn [for_range replicate seq map]. unfold ret.
    replace (k + 0)%nat with k by lia. reflexivity.
  - cbn [for_range replicate]. unfold bind at 1.
    rewrite seed_step by reflexivity. cbn [queue app].
    change (map tp (seq (c0 + k * SeedBytes) SeedBytes))
      with (seed_at SeedBytes (mkRNG tp c0) k).
    specialize (IH (pre ++ [mkChan [seed_at SeedBytes (mkRNG tp c0) k] false])
                   (Datatypes.S k)).
    rewrite length_app, Nat.add_1_r in IH. rewrite <- !app_assoc in IH.
    cbn [app] in IH.
    replace (c0 + k * SeedBytes + SeedBytes)%nat
      with (c0 + Datatypes.S k * SeedBytes)%nat by lia.
    unfold bind at 1. rewrite IH. unfold ret.
    cbn [seq map]. rewrite <- !seq_shift, !map_map.
    replace (k + 0)%nat with k by lia.
    f_equal.
    + f_equal. apply map_ext. intros j. do 2 f_equal. lia.
    + f_equal; [f_equal; lia|]. f_equal. f_equal.
      apply map_ext. intros j. do 3 f_equal. lia.
Qed.

Lemma close_loop (r : RNG) :
  forall (mid pre : list Chan),
  Forall (fun c => closed c = false) mid ->
  for_range (length mid) (length pre) (fun i => chan_close i)
    (mkNet r (pre ++ mid)) =
  Done (replicate (length mid) tt)
       (mkNet r (pre ++ map (fun c => mkChan (queue c) true) mid)).
Proof.
  induction mid as [|x mid IH]; intros pre Hmid.
  - reflexivity.
  - inversion Hmid as [|? ? Hx Hrest]; subst.
    cbn [for_range length]. unfold bind at 1, chan_close at 1.
    cbn [net_chans net_rng]. rewrite list_lookup_middle by reflexivity.
    rewrite Hx. rewrite insert_app_r_alt by lia. rewrite Nat.sub_diag.
    cbn [insert list_insert].
    specialize (IH (pre ++ [mkChan (queue x) true]) Hrest).
    rewrite length_app, Nat.add_1_r in IH. rewrite <- !app_assoc in IH.
    cbn [app] in IH. unfold bind at 1. rewrite IH. reflexivity.
Qed.

Lemma init_loop (r : RNG) :
  forall (seeds : list (list Z)) (flags : list bool) (pre : list Chan),
  length flags = length seeds ->
  for_range (length seeds) (length pre) (fun i =>
      InitCommodityClientState NewPRG (NewCommodityClientState i) (i =? 0)%nat)
    (mkNet r (pre ++ zip_with (fun s f => mkChan [s] f) seeds flags)) =
  Done (imap (fun j s => mkClientSetup (Some (NewPRG s))
                           (if (length pre + j =? 0)%nat
                            then Some (length pre + j)%nat else None)) seeds)
       (mkNet r (pre ++ map (fun f => mkChan [] f) flags)).
Proof.
  induction seeds as [|s seeds IH]; intros [|f flags] pre Hlen; try discriminate.
  - reflexivity.
  - cbn [for_range length zip_with]. unfold bind at 1.
    unfold InitCommodityClientState at 1, NewCommodityClientState at 1.
    cbn [cs_ch cs_stream]. unfold bind at 1, chan_recv at 1.
    cbn [net_chans net_rng]. rewrite list_lookup_middle by reflexivity.
    cbn [queue closed]. rewrite insert_app_r_alt by lia. rewrite Nat.sub_diag.
    cbn [insert list_insert].
    specialize (IH flags (pre ++ [mkChan [] f]) ltac:(simpl in Hlen; lia)).
    rewrite length_app, Nat.add_1_r in IH. rewrite <- !app_assoc in IH.
    cbn [app] in IH.
    rewrite imap_cons. cbn [map]. rewrite Nat.add_0_r.
    destruct (length pre =? 0)%nat eqn:Hp; cbn [negb]; unfold ret at 1;
      unfold bind at 1; rewrite IH; unfold ret; f_equal; f_equal;
      apply imap_ext; intros j x _; simpl;
      (destruct (Nat.eqb_spec (length pre + Datatypes.S j) 0); [lia|reflexivity]).
Qed.

End SetupFacts.

Lemma zip_with_map_replicate {A B C D} (f : B -> C -> D) (g : A -> B) (l : list A)
    (n : nat) (c : C) :
  n = length l ->
  zip_with f (map g l) (replicate n c) = map (fun x => f (g x) c) l.
Proof.
  intros ->. induction l as [|x l IH]; simpl; [reflexivity|]. f_equal. exact IH.
Qed.

Lemma Forall2_imap_map {A B C} (R : B -> C -> Prop) (f : nat -> A -> B) (g : A -> C)
    (l : list A) :
  (forall j x, l !! j = Some x -> R (f j x) (g x)) ->
  Forall2 R (imap f l) (map g l).
Proof.
  revert f. induction l as [|x l IH]; intros f H; [constructor|].
  rewrite imap_cons. cbn [map]. constructor.
  - apply (H 0%nat x). reflexivity.
  - apply IH. intros j y Hy. apply (H (Datatypes.S j) y). exact Hy.
Qed.

(** X14 ([NewCommodityServerState], [NewCommodityClientState],
    [InitCommodityClientState]): the set-up gives every party the stream
    the server holds for it.  With no party the server is [nil] and nothing
    happens.  With [n >= 1] parties whose channels are open and empty, the
    server reads [n] seeds, keeps the stream of each and sends seed [i] to
    party [i]; once every party has initialised itself, the first as the
    distinguished one, party [i] holds the stream of seed [i], the first
    party holds the server's correction channel, open and empty, and every
    other party holds no channel, its own being closed and empty. *)
Theorem setup_agreement (SeedBytes : nat) (NewPRG : list Z -> Stream)
    (r : RNG) (n : nat) :
  NewCommodityServerState SeedBytes NewPRG (mkNet r []) = Done None (mkNet r []) /\
  ((0 < n)%nat ->
   let net := mkNet r (replicate n (mkChan [] false)) in
   let streams := map (fun j => NewPRG (seed_at SeedBytes r j)) (seq 0 n) in
   exists net1 clients net2,
     NewCommodityServerState SeedBytes NewPRG net =
       Done (Some (mkSetup streams 0)) net1 /\
     init_parties NewPRG n net1 = Done clients net2 /\
     net_chans net2 = mkChan [] false :: replicate (n - 1) (mkChan [] true) /\
     Forall2 (fun c st => client_state net2 c = Some st)
             clients (clients_of [] streams) /\
     server_state net2 (mkSetup streams 0) = mkServer streams []).
Proof.
  split; [reflexivity|].
  intros Hn net streams. destruct n as [|n]; [lia|]. clear Hn.
  destruct r as [tp c0].
  set (seed := seed_at SeedBytes (mkRNG tp c0)) in *.
  pose proof (seed_loop SeedBytes NewPRG tp c0 (Datatypes.S n) [] 0) as Hseed.
  change (0 * SeedBytes)%nat with 0%nat in Hseed.
  cbn [length app Nat.add] in Hseed. rewrite Nat.add_0_r in Hseed.
  fold seed in Hseed. fold streams in Hseed.
  set (r1 := mkRNG tp (c0 + (Datatypes.S n) * SeedBytes)) in *.
  cbn [seq map] in Hseed. rewrite <- seq_shift, map_map in Hseed.
  set (first := mkChan [seed 0%nat] false) in *.
  set (mid := map (fun j => mkChan [seed (Datatypes.S j)] false) (seq 0 n)) in *.
  pose proof (close_loop r1 mid [first]) as Hclose.
  cbn [length app] in Hclose.
  assert (Hmidlen : length mid = n) by (unfold mid; rewrite length_map, length_seq; reflexivity).
  rewrite Hmidlen in Hclose.
  specialize (Hclose ltac:(unfold mid; apply Forall_map, Forall_forall; reflexivity)).
  set (seeds := map seed (seq 0 (Datatypes.S n))).
  pose proof (init_loop NewPRG r1 seeds (false :: replicate n true) [])
    as Hinit.
  assert (Hsl : length seeds = Datatypes.S n)
    by (unfold seeds; rewrite length_map, length_seq; reflexivity).
  rewrite Hsl in Hinit. cbn [length app] in Hinit.
  specialize (Hinit ltac:(rewrite length_replicate; reflexivity)).
  assert (Hchans : first :: map (fun c => mkChan (queue c) true) mid =
                   zip_with (fun s f => mkChan [s] f) seeds (false :: replicate n true)).
  { unfold seeds, first, mid. cbn [seq map zip_with]. f_equal.
    rewrite <- seq_shift, !map_map.
    rewrite zip_with_map_replicate by (rewrite length_seq; reflexivity).
    reflexivity. }
  rewrite <- Hchans in Hinit.
  eexists _, _, _. split; [|split; [|split; [|split]]].
  - unfold NewCommodityServerState, net. cbn [net_chans].
    rewrite length_replicate. cbn [Nat.eqb].
    unfold bind at 1. rewrite Hseed.
    replace (Datatypes.S n - 1)%nat with n by lia.
    unfold bind at 1. rewrite Hclose. reflexivity.
  - unfold init_parties. exact Hinit.
  - cbn [net_chans map]. rewrite Nat.sub_succ, Nat.sub_0_r.
    f_equal. clear. induction n; simpl; f_equal; assumption.
  - unfold streams. rewrite <- (map_map seed NewPRG). fold seeds.
    destruct seeds as [|s0 seeds']; [discriminate|].
    rewrite imap_cons. cbn [map clients_of]. constructor; [reflexivity|].
    rewrite map_map. apply Forall2_imap_map. intros j x _. reflexivity.
  - reflexivity.
Qed.

Lemma setup_agreement_witness :
  exists net1 clients net2,
    NewCommodityServerState 4 (fun seed => mkStream (fun k => nth (k mod 4) seed 0) 0)
      (mkNet rng0 (replicate 3 (mkChan [] false))) =
      Done (Some (mkSetup
                    (map (fun j => (fun seed => mkStream (fun k => nth (k mod 4) seed 0) 0)
                                     (seed_at 4 rng0 j)) (seq 0 3)) 0)) net1 /\
    init_parties (fun seed => mkStream (fun k => nth (k mod 4) seed 0) 0) 3 net1 =
      Done clients net2 /\
    net_chans net2 = mkChan [] false :: replicate (3 - 1) (mkChan [] true) /\
    Forall2 (fun c st => client_state net2 c = Some st) clients
      (clients_of []
         (map (fun j => (fun seed => mkStream (fun k => nth (k mod 4) seed 0) 0)
                          (seed_at 4 rng0 j)) (seq 0 3))) /\
    server_state net2
      (mkSetup (map (fun j => (fun seed => mkStream (fun k => nth (k mod 4) seed 0) 0)
                                (seed_at 4 rng0 j)) (seq 0 3)) 0) =
    mkServer (map (fun j => (fun seed => mkStream (fun k => nth (k mod 4) seed 0) 0)
                              (seed_at 4 rng0 j)) (seq 0 3)) [].
Proof.
  apply (setup_agreement 4 (fun seed => mkStream (fun k => nth (k mod 4) seed 0) 0)
           rng0 3).
  lia.
Defined.

(** ** The chat client: what goes to the terminal *)

Lemma escape_fold (s : list Z) (out : list Z) :
  fold_left (fun out b =>
    if b =? 9 then out ++ [32]
    else if b =? 13 then out
    else if b =? 10 then out ++ [10]
    else if b <? 32 then out ++ [63]
    else out ++ [b]) s out = out ++ flat_map escape1 s.
Proof.
  revert out. induction s as [|b s IH]; intros out.
  - simpl. rewrite app_nil_r. reflexivity.
  - cbn [fold_left flat_map]. rewrite IH. unfold escape1 at 2.
    destruct (b =? 9); [rewrite <- app_assoc; reflexivity|].
    destruct (b =? 13); [reflexivity|].
    destruct (b =? 10); [rewrite <- app_assoc; reflexivity|].
    destruct (b <? 32); rewrite <- app_assoc; reflexivity.
Qed.

Lemma escape_flat (s : list Z) : escape s = flat_map escape1 s.
Proof. unfold escape. rewrite escape_fold. reflexivity. Qed.

Lemma escape_cons (b : Z) (s : list Z) : escape (b :: s) = escape1 b ++ escape s.
Proof. rewrite !escape_flat. reflexivity. Qed.

Lemma escape1_printable (b : Z) : Forall printable (escape1 b).
Proof.
  unfold escape1, printable.
  destruct (Z.eqb_spec b 9); [repeat constructor; lia|].
  destruct (Z.eqb_spec b 13); [constructor|].
  destruct (Z.eqb_spec b 10); [repeat constructor; lia|].
  destruct (Z.ltb_spec b 32); repeat constructor; lia.
Qed.

Lemma escape1_fixed (b : Z) : printable b -> escape1 b = [b].
Proof.
  unfold escape1, printable. intros H.
  destruct (Z.eqb_spec b 9); [lia|].
  destruct (Z.eqb_spec b 13); [lia|].
  destruct (Z.eqb_spec b 10); [congruence|].
  destruct (Z.ltb_spec b 32); [lia|reflexivity].
Qed.

Lemma escape_length_le (s : list Z) : (length (escape s) <= length s)%nat.
Proof.
  induction s as [|b s IH]; [reflexivity|]. rewrite escape_cons, length_app.
  assert (length (escape1 b) <= 1)%nat.
  { unfold escape1. repeat match goal with |- context [if ?c then _ else _] => destruct c end;
      simpl; lia. }
  simpl. lia.
Qed.

Lemma escape_fixed (s : list Z) : Forall printable s -> escape s = s.
Proof.
  induction 1 as [|b s Hb _ IH]; [reflexivity|].
  rewrite escape_cons, escape1_fixed, IH by exact Hb. reflexivity.
Qed.

Lemma escape_printable (s : list Z) : Forall printable (escape s).
Proof.
  induction s as [|b s IH]; [constructor|].
  rewrite escape_cons. apply Forall_app. split; [apply escape1_printable|exact IH].
Qed.

(** X15 ([escape]): what [escape] returns holds no control character
    other than the newline; a string without such characters is returned
    as it is, and only such a string is, so that [escape] applied twice is
    [escape] applied once; and nothing but carriage returns is dropped: the
    length shrinks by their number. *)
Theorem escape_clean (s : list Z) :
  Forall printable (escape s) /\
  (escape s = s <-> Forall printable s) /\
  escape (escape s) = escape s /\
  (length (escape s) + length (filter (fun b : Z => b = 13%Z) s) = length s)%nat.
Proof.
  split; [apply escape_printable|]. split; [|split].
  - split; [|apply escape_fixed].
    intros H. rewrite <- H. apply escape_printable.
  - apply escape_fixed, escape_printable.
  - induction s as [|b s IH]; [reflexivity|].
    rewrite escape_cons, length_app, filter_cons. cbn [length].
    unfold escape1.
    destruct (decide (b = 13)) as [->|Hne].
    + simpl. lia.
    + destruct (Z.eqb_spec b 9); [simpl; lia|].
      destruct (Z.eqb_spec b 13); [contradiction|].
      destruct (Z.eqb_spec b 10); [simpl; lia|].
      destruct (Z.ltb_spec b 32); simpl; lia.
Qed.

(** ** The chat client: public keys *)

Lemma hex_check_loop (s : list Z) :
  forall (l pre : list Z), s = pre ++ l ->
  for_range (length l) (length pre) (fun i =>
      let* v := index s i in
      if existsb (Z.eqb v) lower_hex then ret tt
      else panic "Malformed public key (not lowercase hexidecimal)") tt =
  if forallb (fun v => existsb (Z.eqb v) lower_hex) l
  then Done (replicate (length l) tt) tt
  else Panic "Malformed public key (not lowercase hexidecimal)" tt.
Proof.
  induction l as [|v l IH]; intros pre Hs; [reflexivity|].
  cbn [for_range length forallb].
  assert (Hv : s !! length pre = Some v)
    by (rewrite Hs; apply list_lookup_middle; reflexivity).
  unfold bind at 1, bind at 1, index at 1. rewrite Hv.
  cbn [lift]. unfold ret at 1.
  destruct (existsb (Z.eqb v) lower_hex); [|reflexivity].
  unfold ret at 1. cbn [andb].
  specialize (IH (pre ++ [v])). rewrite length_app, Nat.add_1_r in IH.
  unfold bind at 1. rewrite IH by (rewrite <- app_assoc; exact Hs).
  destruct (forallb _ l); reflexivity.
Qed.

Lemma existsb_lower_hex (v : Z) :
  existsb (Z.eqb v) lower_hex = true <-> In v lower_hex.
Proof.
  rewrite existsb_exists. split.
  - intros (x & Hx & Heq). apply Z.eqb_eq in Heq. subst. exact Hx.
  - intros H. exists v. split; [exact H|apply Z.eqb_refl].
Qed.

Lemma hex_digit_lower (d : Z) : 0 <= d < 16 -> In (hex_digit d) lower_hex.
Proof.
  intros H. unfold hex_digit. apply nth_In. simpl. lia.
Qed.

Lemma MarshalPublicKey_length (c : list Z) :
  length (MarshalPublicKey c) = (2 * length c)%nat.
Proof.
  unfold MarshalPublicKey. induction c as [|b c IH]; [reflexivity|].
  cbn [flat_map length app]. rewrite IH. lia.
Qed.

Lemma MarshalPublicKey_lower (c : list Z) :
  Forall (fun b => 0 <= b < 256) c ->
  Forall (fun v => In v lower_hex) (MarshalPublicKey c).
Proof.
  unfold MarshalPublicKey. induction 1 as [|b c Hb _ IH]; [constructor|].
  cbn [flat_map app]. constructor; [|constructor; [|exact IH]].
  - apply hex_digit_lower. split; [apply Z.div_pos; lia|].
    apply Z.div_lt_upper_bound; lia.
  - apply hex_digit_lower. apply Z.mod_pos_bound. lia.
Qed.

(** X16 ([UnmarshalPublicKey], [MarshalPublicKey]): [UnmarshalPublicKey]
    accepts exactly the strings of 64 characters that are all digits or
    lower-case letters [a] to [f].  A string of another length panics with
    the message about the length, whatever its characters; a string of 64
    characters with another character (an upper-case hexadecimal digit, for
    one) panics with the message about the characters.  Every string that
    [MarshalPublicKey] makes from a key of 32 bytes is accepted. *)
Theorem unmarshal_validation (Sscanf_x : list Z -> list Z) (s c : list Z) :
  (length s <> 64%nat ->
   UnmarshalPublicKey Sscanf_x s tt =
     Panic "Malformed public key (wrong length)" tt) /\
  (length s = 64%nat -> Forall (fun v => In v lower_hex) s ->
   UnmarshalPublicKey Sscanf_x s tt = Done (Sscanf_x s) tt) /\
  (length s = 64%nat -> Exists (fun v => ~ In v lower_hex) s ->
   UnmarshalPublicKey Sscanf_x s tt =
     Panic "Malformed public key (not lowercase hexidecimal)" tt) /\
  (length c = 32%nat -> Forall (fun b => 0 <= b < 256) c ->
   UnmarshalPublicKey Sscanf_x (MarshalPublicKey c) tt =
     Done (Sscanf_x (MarshalPublicKey c)) tt).
Proof.
  assert (Hok : forall s, length s = 64%nat -> Forall (fun v => In v lower_hex) s ->
            UnmarshalPublicKey Sscanf_x s tt = Done (Sscanf_x s) tt).
  { intros s0 Hlen Hall. unfold UnmarshalPublicKey.
    destruct (Nat.eqb_spec (length s0) 64); [|contradiction]. cbn [negb].
    unfold bind at 1. pose proof (hex_check_loop s0 s0 [] eq_refl) as Hloop.
    cbn [length] in Hloop. rewrite Hloop.
    replace (forallb (fun v => existsb (Z.eqb v) lower_hex) s0) with true; [reflexivity|].
    symmetry. apply forallb_forall. intros v Hv. apply existsb_lower_hex.
    rewrite Forall_forall in Hall. apply Hall, Hv. }
  split; [|split; [|split]].
  - intros Hlen. unfold UnmarshalPublicKey.
    apply Nat.eqb_neq in Hlen. rewrite Hlen. reflexivity.
  - apply Hok.
  - intros Hlen Hex. unfold UnmarshalPublicKey.
    destruct (Nat.eqb_spec (length s) 64); [|contradiction]. cbn [negb].
    unfold bind at 1. pose proof (hex_check_loop s s [] eq_refl) as Hloop.
    cbn [length] in Hloop. rewrite Hloop.
    replace (forallb (fun v => existsb (Z.eqb v) lower_hex) s) with false; [reflexivity|].
    symmetry. apply not_true_is_false. intros Hall.
    rewrite forallb_forall in Hall. apply Exists_exists in Hex.
    destruct Hex as (v & Hv & Hbad). apply Hbad, existsb_lower_hex, Hall, Hv.
  - intros Hlen Hb. apply Hok.
    + rewrite MarshalPublicKey_length, Hlen. reflexivity.
    + apply MarshalPublicKey_lower, Hb.
Qed.

Lemma unmarshal_validation_witness :
  UnmarshalPublicKey (fun _ => replicate 32 0) [48; 49] tt =
    Panic "Malformed public key (wrong length)" tt /\
  UnmarshalPublicKey (fun _ => replicate 32 0) upper_key_string tt =
    Panic "Malformed public key (not lowercase hexidecimal)" tt /\
  UnmarshalPublicKey (fun _ => replicate 32 0) (MarshalPublicKey key32) tt =
    Done ((fun _ => replicate 32 0) (MarshalPublicKey key32)) tt.
Proof.
  split; [|split].
  - apply (unmarshal_validation (fun _ => replicate 32 0) [48; 49] key32).
    simpl. lia.
  - apply (unmarshal_validation (fun _ => replicate 32 0) upper_key_string key32).
    + reflexivity.
    + apply Exists_cons_hd. intros H. simpl in H.
      repeat (destruct H as [H|H]; [discriminate|]). exact H.
  - apply (unmarshal_validation (fun _ => replicate 32 0) [] key32).
    + reflexivity.
    + unfold key32. repeat (constructor; [lia|]). constructor.
Defined.

(** ** The chat client: the members of a room *)

Lemma party_eqb_eq (v p : Party) : party_eqb v p = true <-> v = p.
Proof.
  unfold party_eqb. rewrite andb_true_iff, !bool_decide_eq_true.
  destruct v, p; simpl. split; [intros [-> ->]; reflexivity|intros [= -> ->]; auto].
Qed.

Lemma indexOfParty_from_spec (members : list Party) (p : Party) :
  forall i,
  snd (indexOfParty_from i members p) = None /\
  (~ In p members -> fst (indexOfParty_from i members p) = 0) /\
  (forall k, members !! k = Some p ->
     (forall j, (j < k)%nat -> members !! j <> Some p) ->
     fst (indexOfParty_from i members p) = i + Z.of_nat k).
Proof.
  induction members as [|v members IH]; intros i.
  - split; [reflexivity|]. split; [reflexivity|]. intros k Hk. discriminate.
  - cbn [indexOfParty_from]. destruct (party_eqb v p) eqn:Hv.
    + apply party_eqb_eq in Hv. subst v. split; [reflexivity|]. split.
      * intros Hn. exfalso. apply Hn. left. reflexivity.
      * intros [|k] _ Hfirst; [simpl; lia|].
        exfalso. apply (Hfirst 0%nat); [lia|reflexivity].
    + assert (Hne : v <> p).
      { intros ->. rewrite (proj2 (party_eqb_eq p p) eq_refl) in Hv. discriminate. }
      destruct (IH (i + 1)) as (He & Habs & Hfound).
      split; [exact He|]. split.
      * intros Hn. apply Habs. intros Hin. apply Hn. right. exact Hin.
      * intros [|k] Hk Hfirst; [simpl in Hk; congruence|].
        rewrite (Hfound k Hk); [lia|].
        intros j Hj. apply (Hfirst (Datatypes.S j)). lia.
Qed.

(** X17 ([indexOfParty]): the error that [indexOfParty] returns is [nil] on
    every path.  For a member of the room the index is that of its first
    occurrence; for a party that is not a member the index is 0, so the
    answer is the one for the first member of the room. *)
Theorem indexOfParty_absent (Members : list Party) (p : Party) :
  snd (indexOfParty Members p) = None /\
  (forall k, Members !! k = Some p ->
     (forall j, (j < k)%nat -> Members !! j <> Some p) ->
     fst (indexOfParty Members p) = Z.of_nat k) /\
  (~ In p Members -> fst (indexOfParty Members p) = 0) /\
  (forall q, Members !! 0%nat = Some q -> ~ In p Members ->
     indexOfParty Members p = indexOfParty Members q).
Proof.
  unfold indexOfParty.
  destruct (indexOfParty_from_spec Members p 0) as (He & Habs & Hfound).
  split; [exact He|]. split; [exact Hfound|]. split; [exact Habs|].
  intros q Hq Hn.
  destruct (indexOfParty_from_spec Members q 0) as (Heq & _ & Hfq).
  specialize (Hfq 0%nat Hq ltac:(intros j Hj; lia)).
  specialize (Habs Hn).
  apply injective_projections; [|congruence].
  rewrite Habs, Hfq. reflexivity.
Qed.

Lemma indexOfParty_absent_witness :
  fst (indexOfParty [party_ann; party_bob] party_bob) = Z.of_nat 1 /\
  fst (indexOfParty [party_ann; party_bob] party_eve) = 0 /\
  indexOfParty [party_ann; party_bob] party_eve =
    indexOfParty [party_ann; party_bob] party_ann.
Proof.
  split; [|split].
  - apply (indexOfParty_absent [party_ann; party_bob] party_bob); [reflexivity|].
    intros [|j] Hj; [discriminate|lia].
  - apply (indexOfParty_absent [party_ann; party_bob] party_eve).
    intros [H|[H|[]]]; discriminate.
  - apply (indexOfParty_absent [party_ann; party_bob] party_eve); [reflexivity|].
    intros [H|[H|[]]]; discriminate.
Defined.

(** ** Gates in a session *)

Lemma fetch_total (pool : list Wire) (ids : list nat) (w : World) :
  Forall (fun i => (i < length pool)%nat) ids ->
  exists a, fetch pool ids w = Done a w /\ length a = length ids.
Proof.
  intros H. unfold fetch.
  destruct (mapM (fun i => pool !! i) ids) as [a|] eqn:Ha.
  - exists a. split; [reflexivity|]. apply length_mapM in Ha. congruence.
  - exfalso. assert (Hs : is_Some (mapM (fun i => pool !! i) ids)).
    { apply mapM_is_Some. eapply list.Forall_impl; [exact H|].
      intros i Hi. apply lookup_lt_is_Some_2, Hi. }
    rewrite Ha in Hs. destruct Hs as [? [=]].
Qed.

(** X18 ([And], [Or] in a session): a gate on wires of the session always
    goes through.  After any session from the reset state, with a cipher
    that keeps the block size and whose [Decrypt] undoes [Encrypt], [And]
    and [Or] on two equally long vectors of wires returned earlier in the
    session return, and for all values [x], [y] of the input wires [Decrypt]
    of the table that was sent, with the labels for [x] and [y], is the label
    of the output wire for the value of the gate: no two rows of a table
    ever share a slot. *)
Theorem session_gates (Enc Dec : Key -> list Z -> list Z) (g : gate)
    (prog : list Call) (r : RNG) (keys : list Key) (pool : list Wire)
    (w : World) (ia ib : list nat) :
  (forall k p, length p = KEY_SIZE -> length (Enc k p) = KEY_SIZE) ->
  (forall k p, length p = KEY_SIZE -> Dec k (Enc k p) = p) ->
  session Enc prog [] (fresh_world r keys) = Done pool w ->
  length ia = length ib ->
  Forall (fun i => (i < length pool)%nat) ia ->
  Forall (fun i => (i < length pool)%nat) ib ->
  exists a b res tables w',
    fetch pool ia w = Done a w /\ fetch pool ib w = Done b w /\
    vm_gate Enc g a b w = Done res w' /\
    trace w' = trace w ++ map EvSendT tables /\
    length res = length ia /\
    forall i ai bi wi t (x y : bool),
      a !! i = Some ai -> b !! i = Some bi ->
      res !! i = Some wi -> tables !! i = Some t ->
      Decrypt Dec t [label ai x; label bi y] = Some (label wi (truth g x y)).
Proof.
  intros HEl Hrt Hrun Hlen Hia Hib.
  destruct (session_inv Enc prog [] _ pool w (world_ok_fresh r keys)
              (Forall_nil _) Hrun) as (Hok & _ & Hpool).
  destruct (fetch_total pool ia w Hia) as (a & Ha & Hla).
  destruct (fetch_total pool ib w Hib) as (b & Hb & Hlb).
  destruct (fetch_session _ _ _ _ _ Hpool Ha) as [_ Hda].
  destruct (fetch_session _ _ _ _ _ Hpool Hb) as [_ Hdb].
  destruct (vm_gate_eval Enc Dec g a b w HEl Hrt Hok)
    as (res & tables & w' & Hgate & Htr & Hres & _ & Heval).
  - congruence.
  - eapply list.Forall_impl; [exact Hda|]. intros wi. apply delta_ok_pp.
  - eapply list.Forall_impl; [exact Hdb|]. intros wi. apply delta_ok_pp.
  - exists a, b, res, tables, w'. split; [exact Ha|]. split; [exact Hb|].
    split; [exact Hgate|]. split; [exact Htr|]. split; [congruence|exact Heval].
Qed.

Lemma session_gates_witness :
  exists pool w a b res tables w',
    session toy_cipher prog0 [] (fresh_world rng0 []) = Done pool w /\
    fetch pool [0%nat; 5%nat] w = Done a w /\
    fetch pool [11%nat; 2%nat] w = Done b w /\
    vm_gate toy_cipher GAnd a b w = Done res w' /\
    trace w' = trace w ++ map EvSendT tables /\
    length res = length [0%nat; 5%nat] /\
    forall i ai bi wi t (x y : bool),
      a !! i = Some ai -> b !! i = Some bi ->
      res !! i = Some wi -> tables !! i = Some t ->
      Decrypt toy_cipher t [label ai x; label bi y] =
        Some (label wi (truth GAnd x y)).
Proof.
  eexists. eexists.
  assert (Hrun : session toy_cipher prog0 [] (fresh_world rng0 []) =
                 Done ?[pool] ?[w]) by (vm_compute; reflexivity).
  destruct (session_gates toy_cipher toy_cipher GAnd prog0 rng0 [] _ _
              [0%nat; 5%nat] [11%nat; 2%nat]
              ltac:(intros k p Hp; rewrite toy_cipher_length; exact Hp)
              ltac:(intros k p _; apply toy_cipher_involutive)
              Hrun eq_refl)
    as (a & b & res & tables & w' & H).
  - repeat constructor; simpl; lia.
  - repeat constructor; simpl; lia.
  - exists a, b, res, tables, w'. split; [exact Hrun|exact H].
Defined.

(** ** The secretary: when a computation is started *)

Lemma pm_set_In (p : Party) (v : bool) (m : list (Party * bool)) k b :
  In (k, b) (pm_set p v m) -> (k = p /\ b = v) \/ In (k, b) m.
Proof.
  induction m as [|[q w] m IH]; simpl.
  - intros [[= <- <-]|[]]. left. auto.
  - destruct (party_eqb q p) eqn:Hq.
    + apply party_eqb_eq in Hq. subst q. simpl.
      intros [[= <- <-]|H]; [left; auto|right; right; exact H].
    + simpl. intros [H|H]; [right; left; exact H|].
      destruct (IH H) as [H'|H']; [left; exact H'|right; right; exact H'].
Qed.

Lemma pm_set_keys (p : Party) (v : bool) (m : list (Party * bool)) k :
  In k (map fst m) -> In k (map fst (pm_set p v m)).
Proof.
  induction m as [|[q w] m IH]; simpl; [contradiction|].
  destruct (party_eqb q p); simpl; intros [H|H]; auto.
Qed.

Lemma pm_set_key (p : Party) (v : bool) (m : list (Party * bool)) :
  In p (map fst (pm_set p v m)).
Proof.
  induction m as [|[q w] m IH]; simpl; [auto|].
  destruct (party_eqb q p) eqn:Hq; simpl; [|auto].
  apply party_eqb_eq in Hq. auto.
Qed.

Lemma pm_set_all_true (p : Party) (m : list (Party * bool)) :
  forallb snd m = true -> forallb snd (pm_set p true m) = true.
Proof.
  induction m as [|[q w] m IH]; simpl; [reflexivity|].
  intros H. apply andb_true_iff in H. destruct H as [Hw Hm].
  destruct (party_eqb q p); simpl; [exact Hm|].
  rewrite Hw. apply IH, Hm.
Qed.

Lemma all_true_In (m : list (Party * bool)) k :
  forallb snd m = true -> In k (map fst m) -> In (k, true) m.
Proof.
  induction m as [|[q w] m IH]; simpl; [contradiction|].
  intros H. apply andb_true_iff in H. destruct H as [Hw Hm]. simpl in Hw. subst w.
  intros [->|H]; [left; reflexivity|right; apply IH; assumption].
Qed.

Lemma starters_fresh (ms st : list (Party * bool)) :
  (forall k, In k (map fst ms) ->
     In k (map fst (fold_left (fun st e => pm_set (fst e) false st) ms st))) /\
  (forall k, In k (map fst st) ->
     In k (map fst (fold_left (fun st e => pm_set (fst e) false st) ms st))) /\
  (forall k, In (k, true) (fold_left (fun st e => pm_set (fst e) false st) ms st) ->
     In (k, true) st).
Proof.
  revert st. induction ms as [|[q w] ms IH]; intros st; simpl.
  - split; [contradiction|]. split; auto.
  - destruct (IH (pm_set q false st)) as (H1 & H2 & H3). split; [|split].
    + intros k [<-|H]; [apply H2, pm_set_key|apply H1, H].
    + intros k H. apply H2, pm_set_keys, H.
    + intros k H. apply H3 in H. apply pm_set_In in H.
      destruct H as [[_ [=]]|H]; exact H.
Qed.

(** What is true of the secretary after the messages [reqs]. *)
Lemma handle_fields (admin : Party) (room : list Z) (req : Request) (s : Secretary) :
  let s1 := if rooms s room then s
            else mkSecretary (rm_set (rooms s) room true) (members s)
                             (starters s) (published s) in
  members s1 = members s /\ starters s1 = starters s /\ published s1 = published s.
Proof. simpl. destruct (rooms s room); auto. Qed.

Lemma rm_set_same {V} (f : list Z -> V) room v : rm_set f room v room = v.
Proof. unfold rm_set. rewrite bool_decide_true by reflexivity. reflexivity. Qed.

Lemma rm_set_other {V} (f : list Z -> V) room v r :
  r <> room -> rm_set f room v r = f r.
Proof. intros H. unfold rm_set. rewrite bool_decide_false by exact H. reflexivity. Qed.

(** One message: the fields afterwards, case by case. *)
Lemma handle_start (admin : Party) (room : list Z) (p : Party) (s : Secretary) ms :
  members s room = Some ms ->
  let st := pm_set p true
              (match starters s room with
               | Some st => st
               | None => fold_left (fun st e => pm_set (fst e) false st) ms []
               end) in
  members (handle admin room (StartRequest p) s) = members s /\
  starters (handle admin room (StartRequest p) s) = rm_set (starters s) room (Some st) /\
  published (handle admin room (StartRequest p) s) =
    published s ++ (if forallb snd st then [OkStart room] else []).
Proof.
  intros Hms. cbv zeta. unfold handle.
  destruct (handle_fields admin room (StartRequest p) s) as (Hm & Hst & Hp).
  cbv zeta in Hm, Hst, Hp.
  destruct (rooms s room); cbn [members starters published rooms]; rewrite Hms;
    destruct (forallb snd _); cbn [members starters published];
    rewrite ?app_nil_r; auto.
Qed.

Lemma handle_start_none (admin : Party) (room : list Z) (p : Party) (s : Secretary) :
  members s room = None ->
  members (handle admin room (StartRequest p) s) = members s /\
  starters (handle admin room (StartRequest p) s) = starters s /\
  published (handle admin room (StartRequest p) s) = published s.
Proof.
  intros Hms. unfold handle.
  destruct (rooms s room); cbn [members starters published rooms]; rewrite Hms; auto.
Qed.

Lemma handle_other (admin : Party) (room : list Z) (req : Request) (s : Secretary) :
  (forall p, req <> StartRequest p) ->
  starters (handle admin room req s) = starters s /\
  (forall r, members s r <> None -> members (handle admin room req s) r <> None) /\
  (forall r, In (OkStart r) (published (handle admin room req s)) ->
             In (OkStart r) (published s)).
Proof.
  intros Hreq. unfold handle.
  destruct req as [p|p|p|p text]; [| |exfalso; eapply Hreq; reflexivity|].
  - destruct (rooms s room); cbn [members starters published rooms];
      (split; [reflexivity|]); (split;
        [intros r Hr; unfold rm_set; destruct (bool_decide (r = room)); [discriminate|exact Hr]
        |intros r Hin; apply in_app_or in Hin; destruct Hin as [Hin|Hin]; [exact Hin|];
         simpl in Hin; destruct Hin as [Hin|[Hin|[]]]; discriminate]).
  - destruct (rooms s room); cbn [members starters published rooms];
      (split; [reflexivity|]); (split;
        [intros r Hr; destruct (members s room); [|exact Hr];
         unfold rm_set; destruct (bool_decide (r = room)); [discriminate|exact Hr]
        |intros r Hin; apply in_app_or in Hin; destruct Hin as [Hin|Hin]; [exact Hin|];
         simpl in Hin; destruct Hin as [Hin|[]]; discriminate]).
  - destruct (rooms s room); cbn [members starters published rooms]; auto.
Qed.

Lemma classic_start (req : Request) :
  (exists p, req = StartRequest p) \/ (forall p, req <> StartRequest p).
Proof. destruct req; try (right; discriminate). left. eauto. Qed.

Lemma serve_snoc (admin : Party) reqs room req s :
  serve admin (reqs ++ [(room, req)]) s = handle admin room req (serve admin reqs s).
Proof. unfold serve. rewrite fold_left_app. reflexivity. Qed.

Lemma serve_app (admin : Party) reqs more s :
  serve admin (reqs ++ more) s = serve admin more (serve admin reqs s).
Proof. unfold serve. apply fold_left_app. Qed.

Lemma serve_inv (admin : Party) (reqs : list (list Z * Request)) :
  let s := serve admin reqs secretary_init in
  (forall room st, starters s room = Some st -> members s room <> None) /\
  (forall room st k, starters s room = Some st -> In (k, true) st ->
     In (room, StartRequest k) reqs) /\
  (forall room, In (OkStart room) (published s) ->
     exists st, starters s room = Some st /\ forallb snd st = true).
Proof.
  cbv zeta. induction reqs as [|[room req] reqs IH] using rev_ind.
  - simpl. split; [discriminate|]. split; [discriminate|contradiction].
  - rewrite serve_snoc. set (s := serve admin reqs secretary_init) in *.
    destruct IH as (I4 & I2 & I1).
    destruct (classic_start req) as [[p ->]|Hreq].
    + destruct (members s room) as [ms|] eqn:Hms.
      * destruct (handle_start admin room p s ms Hms) as (Hm & Hst & Hp).
        cbv zeta in Hst, Hp. rewrite Hm, Hst, Hp.
        set (st0 := match starters s room with
                    | Some st => st
                    | None => fold_left (fun st e => pm_set (fst e) false st) ms []
                    end) in *.
        split; [|split].
        { intros r st Hr. destruct (decide (r = room)) as [->|Hne]; [congruence|].
          rewrite rm_set_other in Hr by exact Hne. eapply I4, Hr. }
        { intros r st k Hr Hk. apply in_or_app.
          destruct (decide (r = room)) as [->|Hne].
          - rewrite rm_set_same in Hr. injection Hr as <-.
            apply pm_set_In in Hk. destruct Hk as [[-> _]|Hk]; [right; left; reflexivity|].
            left. unfold st0 in Hk. destruct (starters s room) as [st1|] eqn:Hs1.
            + eapply I2; eauto.
            + apply (starters_fresh ms []) in Hk. contradiction.
          - rewrite rm_set_other in Hr by exact Hne. left. eapply I2; eauto. }
        { intros r Hin. apply in_app_or in Hin.
          destruct (decide (r = room)) as [->|Hne].
          - rewrite rm_set_same. destruct Hin as [Hin|Hin].
            + destruct (I1 room Hin) as (st1 & Hs1 & Ht1).
              eexists. split; [reflexivity|]. unfold st0. rewrite Hs1.
              apply pm_set_all_true, Ht1.
            + destruct (forallb snd (pm_set p true st0)) eqn:Hall; [|contradiction].
              eexists. split; [reflexivity|exact Hall].
          - rewrite rm_set_other by exact Hne. destruct Hin as [Hin|Hin]; [apply I1, Hin|].
            destruct (forallb snd (pm_set p true st0)); [|contradiction].
            destruct Hin as [[= ->]|[]]. contradiction. }
      * destruct (handle_start_none admin room p s Hms) as (Hm & Hst & Hp).
        rewrite Hm, Hst, Hp. split; [exact I4|]. split; [|exact I1].
        intros r st k Hr Hk. apply in_or_app. left. eapply I2; eauto.
    + destruct (handle_other admin room req s Hreq) as (Hst & Hm & Hp).
      rewrite Hst. split; [|split].
      * intros r st Hr. apply Hm. eapply I4, Hr.
      * intros r st k Hr Hk. apply in_or_app. left. eapply I2; eauto.
      * intros r Hin. apply I1, Hp, Hin.
Qed.

Lemma handle_starters_grow (admin : Party) (room r : list Z) (req : Request)
    (s : Secretary) st :
  starters s room = Some st ->
  exists st', starters (handle admin r req s) room = Some st' /\
              forall k, In k (map fst st) -> In k (map fst st').
Proof.
  intros Hst. destruct (classic_start req) as [[p ->]|Hreq].
  - destruct (members s r) as [ms|] eqn:Hms.
    + destruct (handle_start admin r p s ms Hms) as (_ & Hs & _).
      cbv zeta in Hs. rewrite Hs.
      destruct (decide (room = r)) as [<-|Hne].
      * rewrite rm_set_same, Hst. eexists. split; [reflexivity|].
        intros k. apply pm_set_keys.
      * rewrite rm_set_other by exact Hne. eauto.
    + destruct (handle_start_none admin r p s Hms) as (_ & Hs & _).
      rewrite Hs. eauto.
  - destruct (handle_other admin r req s Hreq) as (Hs & _). rewrite Hs. eauto.
Qed.

Lemma serve_starters_grow (admin : Party) (room : list Z)
    (reqs : list (list Z * Request)) :
  forall s st, starters s room = Some st ->
  exists st', starters (serve admin reqs s) room = Some st' /\
              forall k, In k (map fst st) -> In k (map fst st').
Proof.
  induction reqs as [|[r req] reqs IH]; intros s st Hst.
  - exists st. auto.
  - destruct (handle_starters_grow admin room r req s st Hst) as (st1 & Hs1 & Hk1).
    destruct (IH _ _ Hs1) as (st2 & Hs2 & Hk2).
    exists st2. split; [exact Hs2|]. auto.
Qed.

(** X19 ([secretary], start requests): the start of a computation waits
    for the members of the room.  Take the first start request for a room
    that has members and no list of starters yet.  If, after it and any
    further messages, the secretary has signalled [okStart] for the room,
    then every party that was a member of the room at that first start
    request has sent a start request for the room. *)
Theorem start_waits_for_members (admin : Party)
    (pre post : list (list Z * Request)) (room : list Z) (p0 k : Party)
    (ms0 : list (Party * bool)) :
  starters (serve admin pre secretary_init) room = None ->
  members (serve admin pre secretary_init) room = Some ms0 ->
  In k (map fst ms0) ->
  In (OkStart room)
     (published (serve admin (pre ++ (room, StartRequest p0) :: post)
                   secretary_init)) ->
  In (room, StartRequest k) (pre ++ (room, StartRequest p0) :: post).
Proof.
  intros Hnone Hms Hk Hok.
  destruct (serve_inv admin (pre ++ (room, StartRequest p0) :: post))
    as (_ & I2 & I1).
  cbv zeta in I2, I1. destruct (I1 room Hok) as (st & Hst & Hall).
  apply (I2 room st k Hst). apply all_true_In; [exact Hall|].
  rewrite serve_app in Hst. cbn [serve fold_left fst snd] in Hst.
  fold (serve admin post
          (handle admin room (StartRequest p0) (serve admin pre secretary_init)))
    in Hst.
  destruct (handle_start admin room p0 _ ms0 Hms) as (_ & Hs1 & _).
  cbv zeta in Hs1. rewrite Hnone in Hs1.
  destruct (serve_starters_grow admin room post _ _
              ltac:(rewrite Hs1; apply rm_set_same)) as (st2 & Hs2 & Hgrow).
  rewrite Hs2 in Hst. injection Hst as <-.
  apply Hgrow, pm_set_keys.
  destruct (starters_fresh ms0 []) as (Hkeys & _ & _). apply Hkeys, Hk.
Qed.

Lemma start_waits_for_members_witness :
  In (room_a, StartRequest party_bob)
     (requests0 ++ (room_a, StartRequest party_ann) ::
      [(room_a, StartRequest party_bob)]).
Proof.
  apply (start_waits_for_members party_eve requests0
           [(room_a, StartRequest party_bob)] room_a party_ann party_bob
           [(party_ann, true); (party_bob, true)]).
  - reflexivity.
  - reflexivity.
  - simpl. auto.
  - vm_compute. do 4 right. left. reflexivity.
Defined.

(** X20 ([secretary], start requests): the list of starters of a room is
    never reset.  Once the secretary has signalled [okStart] for a room,
    every further start request for that room, from any party, signals
    [okStart] again at once. *)
Theorem start_again (admin : Party) (reqs : list (list Z * Request))
    (room : list Z) (q : Party) :
  In (OkStart room) (published (serve admin reqs secretary_init)) ->
  published (handle admin room (StartRequest q) (serve admin reqs secretary_init)) =
  published (serve admin reqs secretary_init) ++ [OkStart room].
Proof.
  intros Hok. destruct (serve_inv admin reqs) as (I4 & _ & I1).
  cbv zeta in I4, I1. destruct (I1 room Hok) as (st & Hst & Hall).
  destruct (members (serve admin reqs secretary_init) room) as [ms|] eqn:Hms;
    [|exfalso; eapply I4; eauto].
  destruct (handle_start admin room q _ ms Hms) as (_ & _ & Hp).
  cbv zeta in Hp. rewrite Hp, Hst, pm_set_all_true by exact Hall. reflexivity.
Qed.

Lemma start_again_witness :
  published (handle party_eve room_a (StartRequest party_eve)
               (serve party_eve
                  (requests0 ++ [(room_a, StartRequest party_ann);
                                 (room_a, StartRequest party_bob)])
                  secretary_init)) =
  published (serve party_eve
               (requests0 ++ [(room_a, StartRequest party_ann);
                              (room_a, StartRequest party_bob)])
               secretary_init) ++ [OkStart room_a].
Proof.
  apply (start_again party_eve
           (requests0 ++ [(room_a, StartRequest party_ann);
                          (room_a, StartRequest party_bob)]) room_a party_eve).
  vm_compute. do 4 right. left. reflexivity.
Defined.

(** ** [reset] *)

(** X21 ([reset], [init_key0]): [reset] starts the session over, whatever
    the state was.  It keeps the IO performed so far, the keys that wait
    and the position in the random source, and forgets [key0] and the
    constants: the next wire draws a new [key0], the next 16 random bytes
    with the low bit of byte 0 set, before its own label, and the next use
    of a constant makes both constants again and sends their two keys
    again. *)
Theorem reset_starts_over (w : World) :
  exists w0,
    reset w = Done tt w0 /\
    trace w0 = trace w /\ inbox w0 = inbox w /\ rng w0 = rng w /\
    (exists wire w1,
       genWire w0 = Done wire w1 /\
       key0 w1 = Some (<[0%nat := Z.lor (tape (rng w) (cursor (rng w))) 1]>
                         (map (tape (rng w)) (seq (cursor (rng w)) KEY_SIZE))) /\
       label wire false =
         map (tape (rng w)) (seq (cursor (rng w) + KEY_SIZE) KEY_SIZE) /\
       delta_ok w1 wire) /\
    (exists c0 c1 w2,
       vm_True w0 = Done [c1] w2 /\
       delta_ok w2 c0 /\ delta_ok w2 c1 /\
       trace w2 = trace w ++ [EvSendK (label c0 false); EvSendK (label c1 true)]).
Proof.
  eexists. split; [reflexivity|]. cbn [trace inbox rng].
  split; [reflexivity|]. split; [reflexivity|]. split; [reflexivity|].
  set (w0 := mkWorld None None None (rng w) (trace w) (inbox w)).
  assert (Hok : world_ok w0) by (split; intros ? [=]).
  split.
  - destruct (genWire_ok w0 Hok) as (wire & w1 & Hgen & _ & _ & Hd & _).
    exists wire, w1. split; [exact Hgen|].
    revert Hgen. unfold genWire, bind, init_key0, GenKey, rng_read.
    cbn [key0 rng w0 const0 const1 trace inbox tape cursor].
    change (map (tape (rng w)) (seq (cursor (rng w)) KEY_SIZE) !! 0%nat)
      with (Some (tape (rng w) (cursor (rng w)))).
    cbn [key0 rng tape cursor].
    intros H. apply lift_Done in H. destruct H as [H ->]. cbn [key0].
    split; [reflexivity|]. split; [|exact Hd].
    destruct (XorKey _ _) as [k1|]; [|discriminate]. simpl in H.
    injection H as <-. reflexivity.
  - destruct (init_constants_first w0 Hok eq_refl)
      as (c0 & c1 & s2 & Hrun & _ & Hd0 & Hd1 & Htr & _).
    eexists c0, c1, _.
    split; [unfold vm_True, bind at 1; rewrite Hrun; reflexivity|].
    split; [exact Hd0|]. split; [exact Hd1|].
    cbn [trace add_events]. rewrite Htr. reflexivity.
Qed.
